(** * arc_accounting: the accounting normalisation and aggregation engine

    A shallow embedding of [accounting.py]: the date-range parser
    ([parse_startend], [parse_date], [next_datetime], [datetime_defaults]),
    the core-hour calculation ([core_hours] with the [backup_node_mpc]
    table) and the two-level aggregation performed by [main]. *)

From Stdlib Require Import ZArith Lia Ascii String.
From Stdlib Require Import Floats.SpecFloat.
From stdpp Require Import gmap strings list fin_maps.

Local Open Scope Z_scope.

(** ** Python values and exceptions *)

(** The exceptions the embedded code can raise. *)
Inductive exn : Set :=
  | TypeError
  | ValueError
  | OverflowError
  | AttributeError
  | ZeroDivisionError.

(** A computation either returns or raises. *)
Inductive py (A : Type) : Type :=
  | Ok (a : A)
  | Raise (e : exn).
Arguments Ok {A} a.
Arguments Raise {A} e.

#[global] Instance py_ret : MRet py := fun _ a => Ok a.
#[global] Instance py_bind : MBind py := fun _ _ f m =>
  match m with
  | Ok a => f a
  | Raise e => Raise e
  end.

Definition raises {A} (m : py A) : Prop := exists e, m = Raise e.

(** Python truthiness of an optional string: [None] and [""] are false. *)
Definition truthy (o : option string) : bool :=
  match o with
  | Some (String _ _) => true
  | _ => false
  end.

(** [a or b] on optional strings. *)
Definition py_or (a b : option string) : option string :=
  if truthy a then a else b.

(** [a and b] on optional strings. *)
Definition py_and (a b : option string) : option string :=
  if truthy a then b else a.

(** ** The time zone of the process

    The program converts its dates with [strftime('%s')], which the C
    library answers with [mktime]: the fields of the date are read in the
    time zone of the process (the [TZ] environment), whatever [tzinfo]
    the date carries.  Every date of the program carries a UTC [tzinfo],
    whose [dst()] is zero, so the fields are handed over as standard
    time.  [utcoffset n] is the offset, in seconds east of UTC, the
    library applies to the fields that read as [n] seconds since the
    epoch in UTC. *)

Module libc.

Class timezone : Type := { utcoffset : Z -> Z }.

(** A zone that is [k] seconds east of UTC all year; [TZ=EST5] is
    [fixed (-18000)]. *)
Definition fixed (k : Z) : timezone := {| utcoffset := fun _ => k |}.

(** [TZ=UTC]. *)
Definition utc : timezone := fixed 0.

(** [mktime] on the fields that read as [n] seconds since the epoch in
    UTC. *)
Definition mktime {tz : timezone} (n : Z) : Z := n - utcoffset n.

End libc.

(** ** Double precision

    Python's [float] is IEEE 754 binary64: 53 bits of precision, round to
    nearest even. *)

Module binary64.

(** The double nearest to the integer [z], or an infinity. *)
Definition of_int (z : Z) : spec_float := binary_normalize 53 1024 z 0 false.

(** The quotient of two doubles, rounded. *)
Definition div (x y : spec_float) : spec_float := SFdiv 53 1024 x y.

(** [float(n)]: an integer that rounds beyond the largest double is
    refused. *)
Definition float (n : Z) : py spec_float :=
  match of_int n with
  | S754_infinity _ => Raise OverflowError
  | x => Ok x
  end.

(** [n / y] for an integer [n] and a float [y]: [n] is converted to a
    float, then a divisor of zero is refused. *)
Definition truediv (n : Z) (y : spec_float) : py spec_float :=
  x ← float n;
  match y with
  | S754_zero _ => Raise ZeroDivisionError
  | _ => Ok (div x y)
  end.

(** The least integer not below the double with sign [s], mantissa [m]
    and exponent [e]. *)
Definition ceil_finite (s : bool) (m : positive) (e : Z) : Z :=
  let n := if s then Z.neg m else Z.pos m in
  if 0 <=? e then n * 2 ^ e else - ((- n) / 2 ^ (- e)).

(** [math.ceil(x)]; infinities and NaN have no ceiling. *)
Definition ceil (x : spec_float) : py Z :=
  match x with
  | S754_zero _ => Ok 0
  | S754_finite s m e => Ok (ceil_finite s m e)
  | S754_infinity _ => Raise OverflowError
  | S754_nan => Raise ValueError
  end.

(** [math.ceil(a / float(b))] on integers: [float(b)] is evaluated
    first. *)
Definition ceil_div (a b : Z) : py Z :=
  y ← float b;
  x ← truediv a y;
  ceil x.

End binary64.

(** ** The [datetime] library, as far as the program uses it

    The definitions follow CPython's [datetime] module (proleptic Gregorian
    ordinals, day 1 is 0001-01-01) and [dateutil.relativedelta].  Every
    datetime of the program carries [tzinfo=UTC]; the field is left out. *)

Module datetime.

Definition MINYEAR : Z := 1.
Definition MAXYEAR : Z := 9999.
Definition MAXORDINAL : Z := 3652059.

Definition DI400Y : Z := 146097.
Definition DI100Y : Z := 36524.
Definition DI4Y : Z := 1461.

Definition is_leap (y : Z) : bool :=
  (y mod 4 =? 0) && (negb (y mod 100 =? 0) || (y mod 400 =? 0)).

Definition days_before_year (y : Z) : Z :=
  let y1 := y - 1 in
  y1 * 365 + y1 / 4 - y1 / 100 + y1 / 400.

(** The table [_DAYS_IN_MONTH]; index 0 is a placeholder. *)
Definition DAYS_IN_MONTH (m : Z) : Z :=
  match m with
  | 1 => 31 | 2 => 28 | 3 => 31 | 4 => 30 | 5 => 31 | 6 => 30
  | 7 => 31 | 8 => 31 | 9 => 30 | 10 => 31 | 11 => 30 | 12 => 31
  | _ => -1
  end.

(** The table [_DAYS_BEFORE_MONTH]. *)
Definition DAYS_BEFORE_MONTH (m : Z) : Z :=
  match m with
  | 1 => 0 | 2 => 31 | 3 => 59 | 4 => 90 | 5 => 120 | 6 => 151
  | 7 => 181 | 8 => 212 | 9 => 243 | 10 => 273 | 11 => 304 | 12 => 334
  | _ => -1
  end.

Definition days_in_month (y m : Z) : Z :=
  if (m =? 2) && is_leap y then 29 else DAYS_IN_MONTH m.

Definition days_before_month (y m : Z) : Z :=
  DAYS_BEFORE_MONTH m + (if (2 <? m) && is_leap y then 1 else 0).

Definition ymd2ord (y m d : Z) : Z :=
  days_before_year y + days_before_month y m + d.

(** [_ord2ymd]: ordinal to (year, month, day). *)
Definition ord2ymd (n : Z) : Z * Z * Z :=
  let n := n - 1 in
  let n400 := n / DI400Y in
  let n := n mod DI400Y in
  let n100 := n / DI100Y in
  let n := n mod DI100Y in
  let n4 := n / DI4Y in
  let n := n mod DI4Y in
  let n1 := n / 365 in
  let n := n mod 365 in
  let year := n400 * 400 + 1 + (n100 * 100 + n4 * 4 + n1) in
  if (n1 =? 4) || (n100 =? 4) then (year - 1, 12, 31)
  else
    let leapyear := (n1 =? 3) && (negb (n4 =? 24) || (n100 =? 3)) in
    let month := Z.shiftr (n + 50) 5 in
    let preceding :=
      DAYS_BEFORE_MONTH month + (if (2 <? month) && leapyear then 1 else 0) in
    if n <? preceding then
      let month := month - 1 in
      let preceding :=
        preceding
        - (DAYS_IN_MONTH month + (if (month =? 2) && leapyear then 1 else 0)) in
      (year, month, n - preceding + 1)
    else (year, month, n - preceding + 1).

Record t : Set := mk {
  year : Z;
  month : Z;
  day : Z;
  hour : Z;
  minute : Z;
  second : Z;
  microsecond : Z
}.

Definition check_date_fields (y m d : Z) : bool :=
  (MINYEAR <=? y) && (y <=? MAXYEAR)
  && (1 <=? m) && (m <=? 12)
  && (1 <=? d) && (d <=? days_in_month y m).

Definition check_time_fields (h mi s us : Z) : bool :=
  (0 <=? h) && (h <=? 23)
  && (0 <=? mi) && (mi <=? 59)
  && (0 <=? s) && (s <=? 59)
  && (0 <=? us) && (us <=? 999999).

(** The constructor on checked fields: [ValueError] when a field is out of
    range. *)
Definition make (y m d h mi s us : Z) : py t :=
  if check_date_fields y m d && check_time_fields h mi s us
  then Ok (mk y m d h mi s us)
  else Raise ValueError.

(** [datetime.datetime] applied to an unpacked argument tuple and
    [tzinfo=UTC]: year, month and day are required, hour to microsecond default
    to 0; an eighth positional argument would be a second [tzinfo]. *)
Definition new (args : list Z) : py t :=
  match args with
  | [y; m; d] => make y m d 0 0 0 0
  | [y; m; d; h] => make y m d h 0 0 0
  | [y; m; d; h; mi] => make y m d h mi 0 0
  | [y; m; d; h; mi; s] => make y m d h mi s 0
  | [y; m; d; h; mi; s; us] => make y m d h mi s us
  | _ => Raise TypeError
  end.

Definition toordinal (x : t) : Z := ymd2ord (year x) (month x) (day x).

(** [x + timedelta(seconds=delta)]; [timedelta(days=1)] is 86400 seconds
    and so on.  The sum is normalised to days and seconds and the date is
    rebuilt from the ordinal. *)
Definition add_timedelta (x : t) (delta : Z) : py t :=
  let total := toordinal x * 86400
               + hour x * 3600 + minute x * 60 + second x + delta in
  let days := total / 86400 in
  let secs := total mod 86400 in
  let h := secs / 3600 in
  let rem := secs mod 3600 in
  if (0 <? days) && (days <=? MAXORDINAL) then
    let '(y, m, d) := ord2ymd days in
    Ok (mk y m d h (rem / 60) (rem mod 60) (microsecond x))
  else Raise OverflowError.

(** [x.replace(year=y, month=m, day=d)]. *)
Definition replace_date (x : t) (y m d : Z) : py t :=
  make y m d (hour x) (minute x) (second x) (microsecond x).

(** [x + relativedelta(years=years, months=months)] for
    [0 <= months <= 12]: the month is advanced with carry into the year,
    the day is clamped to the length of the target month, the fields are
    replaced and a zero [timedelta] is added. *)
Definition add_relativedelta (x : t) (years months : Z) : py t :=
  let y := year x + years in
  let m := month x in
  let '(y, m) :=
    if months =? 0 then (y, m)
    else
      let m := m + months in
      if 12 <? m then (y + 1, m - 12)
      else if m <? 1 then (y - 1, m + 12)
      else (y, m) in
  let d := Z.min (days_in_month y m) (day x) in
  r ← replace_date x y m d;
  add_timedelta r 0.

(** The seconds from 1970-01-01 00:00:00 to the fields of [x], both read
    in the same zone ([calendar.timegm] of the fields); 1970-01-01 has
    ordinal 719163. *)
Definition epoch (x : t) : Z :=
  (toordinal x - 719163) * 86400 + hour x * 3600 + minute x * 60 + second x.

(** [int(x.strftime('%s'))]: the C library's seconds since the epoch for
    the fields of [x], read in the time zone of the process. *)
Definition mktime {tz : libc.timezone} (x : t) : Z :=
  libc.mktime (epoch x).

End datetime.

(** ** Regular expressions of the date parser *)

Definition ord (c : ascii) : Z := Z.of_N (N_of_ascii c).

(** [\d] on a string of ASCII characters (Python's [\d] also takes the
    decimal digits of other scripts, which are outside this type). *)
Definition is_digit (c : ascii) : bool := (48 <=? ord c) && (ord c <=? 57).

Fixpoint all_digits (s : string) : bool :=
  match s with
  | EmptyString => true
  | String c s' => is_digit c && all_digits s'
  end.

(** [int(e)] on a string of decimal digits. *)
Fixpoint int_acc (s : string) (acc : Z) : Z :=
  match s with
  | EmptyString => acc
  | String c s' => int_acc s' (acc * 10 + (ord c - 48))
  end.

Definition int (s : string) : Z := int_acc s 0.

(** The longest prefix of digits (a greedy [\d*]) and the rest. *)
Fixpoint span_digits (s : string) : string * string :=
  match s with
  | EmptyString => (EmptyString, EmptyString)
  | String c s' =>
      if is_digit c then
        let '(d, r) := span_digits s' in (String c d, r)
      else (EmptyString, s)
  end.

(** [$]: the end of the string, or just before a final newline. *)
Definition at_end (s : string) : bool :=
  match s with
  | EmptyString => true
  | String c EmptyString => (ord c =? 10)
  | _ => false
  end.

(** An optional group that matched nothing is [None]. *)
Definition group (s : string) : option string :=
  match s with
  | EmptyString => None
  | _ => Some s
  end.

(** [time_startend_def.match(s)] for [^(\d+)?(-(\d+)?)?$]: the three groups
    of a match.  The first group takes every leading digit; a hyphen, if
    any, must follow, then the digits of the third group, then [$].
    Giving back a digit never helps, as what follows starts with a digit
    then, which neither the hyphen nor [$] accepts; so the greedy match
    is the only one. *)
Definition time_startend_def (s : string)
  : option (option string * option string * option string) :=
  let '(d1, r1) := span_digits s in
  if at_end r1 then Some (group d1, None, None)
  else
    match r1 with
    | String c r2 =>
        if (ord c =? 45) then
          let '(d2, r3) := span_digits r2 in
          if at_end r3 then Some (group d1, Some (String c d2), group d2)
          else None
        else None
    | EmptyString => None
    end.

(** Up to [n] greedy optional groups [(\d{2})?]. *)
Fixpoint digit_pairs (n : nat) (s : string) : list string * string :=
  match n with
  | O => ([], s)
  | S n' =>
      match s with
      | String a (String b s') =>
          if is_digit a && is_digit b then
            let '(gs, r) := digit_pairs n' s' in
            (String a (String b EmptyString) :: gs, r)
          else ([], s)
      | _ => ([], s)
      end
  end.

(** [datetime_def.match(s)] for
    [^(\d{4})(\d{2})?(\d{2})?(\d{2})?(\d{2})?(\d{2})?$]: the groups that are
    not [None], in order.  Skipping a group that could match leaves digits
    before [$], so the groups fill from the left. *)
Definition datetime_def (s : string) : option (list string) :=
  match s with
  | String a (String b (String c (String d r))) =>
      if is_digit a && is_digit b && is_digit c && is_digit d then
        let '(gs, r') := digit_pairs 5 r in
        if at_end r' then
          Some (String a (String b (String c (String d EmptyString))) :: gs)
        else None
      else None
  | _ => None
  end.

(** ** The date-range parser *)

(** Maximum date to report on (YYYY[MM[DD[HH[MM[SS]]]]]). *)
Definition max_date : string := "40000101".

(** Unpacking with a star: [None] is not iterable. *)
Definition star {A} (o : option (list A)) : py (list A) :=
  match o with
  | Some l => Ok l
  | None => Raise TypeError
  end.

Definition parse_date (date : option string) : option (list Z) :=
  match date with
  | Some (String _ _ as d) =>
      match datetime_def d with
      | Some groups => Some (int <$> groups)
      | None => None
      end
  | _ => None
  end.

Definition datetime_defaults (date_time : list Z) : list Z :=
  let t := date_time in
  let t := if (length t <? 1)%nat then t ++ [1970] else t in
  let t := if (length t <? 2)%nat then t ++ [1] else t in
  let t := if (length t <? 3)%nat then t ++ [1] else t in
  t.

(** Every entry of the [case] dictionary is evaluated before the lookup;
    [case.get] yields [None] for a length that is not a key. *)
Definition next_datetime (date_time : list Z) : py (option datetime.t) :=
  t1 ← datetime.new (datetime_defaults date_time);
  c1 ← datetime.add_relativedelta t1 1 0;
  c2 ← datetime.add_relativedelta t1 0 1;
  c3 ← datetime.add_timedelta t1 86400;
  c4 ← datetime.add_timedelta t1 3600;
  c5 ← datetime.add_timedelta t1 60;
  c6 ← datetime.add_timedelta t1 1;
  mret (match length date_time with
        | 1%nat => Some c1
        | 2%nat => Some c2
        | 3%nat => Some c3
        | 4%nat => Some c4
        | 5%nat => Some c5
        | 6%nat => Some c6
        | _ => None
        end).

(** [int(x.strftime('%s'))] on the result of [case.get]. *)
Definition strftime_s {tz : libc.timezone} (x : option datetime.t) : py Z :=
  match x with
  | Some x => Ok (datetime.mktime x)
  | None => Raise AttributeError
  end.

Definition parse_startend {tz : libc.timezone} (date_str : option string)
  : py (Z * Z) :=
  let start := 0 in
  a ← star (parse_date (Some max_date));
  e ← datetime.new a;
  let end_ := datetime.mktime e in
  match date_str with
  | Some (String _ _ as s) =>
      match time_startend_def s with
      | Some (g1, g2, g3) =>
          start ← (if truthy g1 then
                     a ← star (parse_date g1);
                     start_dt ← datetime.new (datetime_defaults a);
                     mret (datetime.mktime start_dt)
                   else mret start);
          a ← star (parse_date
                      (py_or g3 (py_or (py_and g2 (Some max_date)) g1)));
          end_dt ← next_datetime a;
          end_ ← strftime_s end_dt;
          mret (start, end_)
      | None => mret (start, end_)
      end
  | _ => mret (start, end_)
  end.

(** ** The [sge] module

    The program imports [sge] for the scheduler's record source and for
    three lookups.  The module is not defined in [accounting.py], so the
    lookups are an interface: [category_resource category name] is the
    value requested for resource [name] in a job category, [node_type nt
    field] is a field of the descriptor of node type [nt], and [number]
    reads a quantity with a magnitude suffix; an absent or unreadable
    quantity is [None]. *)

Module sge.

Class api : Type := {
  category_resource : string -> string -> option string;
  node_type : string -> string -> option string;
  number : option string -> option Z
}.

End sge.

(** ** Host name patterns *)

(** The fragment of regular expressions the [backup_node_mpc] table is
    written in. *)
Inductive re : Set :=
  | Lit (s : string)            (* the characters of [s], in sequence *)
  | Cls (s : string)            (* one character out of [s] *)
  | Rng (lo hi : ascii)         (* one character between [lo] and [hi] *)
  | Seq (r1 r2 : re)
  | Alt (r1 r2 : re).

Fixpoint strip_prefix (p s : string) : option string :=
  match p, s with
  | EmptyString, _ => Some s
  | String a p', String b s' =>
      if Ascii.eqb a b then strip_prefix p' s' else None
  | String _ _, EmptyString => None
  end.

Fixpoint mem_char (c : ascii) (s : string) : bool :=
  match s with
  | EmptyString => false
  | String a s' => Ascii.eqb a c || mem_char c s'
  end.

(** Backtracking match of [r] at the head of [s]; [k] decides on the rest. *)
Fixpoint re_run (r : re) (s : string) (k : string -> bool) : bool :=
  match r with
  | Lit p =>
      match strip_prefix p s with
      | Some s' => k s'
      | None => false
      end
  | Cls cs =>
      match s with
      | String c s' => mem_char c cs && k s'
      | EmptyString => false
      end
  | Rng lo hi =>
      match s with
      | String c s' => (ord lo <=? ord c) && (ord c <=? ord hi) && k s'
      | EmptyString => false
      end
  | Seq r1 r2 => re_run r1 s (fun s' => re_run r2 s' k)
  | Alt r1 r2 => re_run r1 s k || re_run r2 s k
  end.

(** [re.compile(r).match(s)] as a truth value: some prefix of [s] matches
    (the leading [^] of the table's patterns is this anchoring). *)
Definition re_match (r : re) (s : string) : bool := re_run r s (fun _ => true).

Record rule : Set := { regex : re; mpc : Z }.

(** Python's [//] on the result of [sge.number]. *)
Definition floordiv (a : option Z) (b : Z) : py Z :=
  match a with
  | Some n => Ok (n / b)
  | None => Raise TypeError
  end.

(** ** Usage records *)

Module usage.
Record t : Set := mk { jobs : Z; time : Z; time_adj : Z }.
Definition zero : t := mk 0 0 0.
Definition add (a b : t) : t :=
  mk (jobs a + jobs b) (time a + time b) (time_adj a + time_adj b).
End usage.

Module summary.
Record t : Set := mk { users : Z; jobs : Z; time : Z; time_adj : Z }.
Definition zero : t := mk 0 0 0 0.
End summary.

(** The fields of a job record the program reads after [record_modify]. *)
Record record : Set := {
  owner : string;          (* the job owner *)
  equip_owner : string;    (* the equipment owner *)
  name : string;
  category : string;
  hostname : string;
  ru_wallclock : Z;
  slots : Z
}.

(** A memory request: absent, a string left unconverted, or a number. *)
Inductive mem_req_t : Set :=
  | ReqNone
  | ReqStr (s : string)
  | ReqNum (n : Z).

Section program.

Context {sge_api : sge.api} {tz : libc.timezone}.

(** Module initialisation of the table: backup method of determining node
    memory per core (mpc), in absence of node_type in job record, from
    hostname. *)
Definition backup_node_mpc_init : py (list rule) :=
  arc2a ← floordiv (sge.number (Some "64G"%string)) 24;
  arc2b ← floordiv (sge.number (Some "24G"%string)) 12;
  arc3 ← floordiv (sge.number (Some "128G"%string)) 24;
  arc1a ← floordiv (sge.number (Some "24G"%string)) 8;
  arc1b ← floordiv (sge.number (Some "12G"%string)) 8;
  arc1c ← floordiv (sge.number (Some "128G"%string)) 16;
  polaris ← floordiv (sge.number (Some "256G"%string)) 16;
  polaris2 ← floordiv (sge.number (Some "64G"%string)) 16;
  marc1a ← floordiv (sge.number (Some "256G"%string)) 20;
  marc1b ← floordiv (sge.number (Some "3T"%string)) 48;
  mret [
    (* ^h7s3b1[56] *)
    {| regex := Seq (Lit "h7s3b1") (Cls "56"); mpc := arc2a |};
    (* ^h[12367]s *)
    {| regex := Seq (Lit "h") (Seq (Cls "12367") (Lit "s")); mpc := arc2b |};
    (* ^dc[1-4]s *)
    {| regex := Seq (Lit "dc") (Seq (Rng "1" "4") (Lit "s")); mpc := arc3 |};
    (* ^c2s0b[0-3]n *)
    {| regex := Seq (Lit "c2s0b") (Seq (Rng "0" "3") (Lit "n"));
       mpc := arc1a |};
    (* ^c[1-3]s *)
    {| regex := Seq (Lit "c") (Seq (Rng "1" "3") (Lit "s")); mpc := arc1b |};
    (* ^smp[1-4] *)
    {| regex := Seq (Lit "smp") (Rng "1" "4"); mpc := arc1c |};
    (* ^g8s([789]|10)n *)
    {| regex := Seq (Lit "g8s") (Seq (Alt (Cls "789") (Lit "10")) (Lit "n"));
       mpc := polaris |};
    (* ^g[0-9]s *)
    {| regex := Seq (Lit "g") (Seq (Rng "0" "9") (Lit "s"));
       mpc := polaris2 |};
    (* ^hb01s *)
    {| regex := Lit "hb01s"; mpc := marc1a |};
    (* ^hb02n *)
    {| regex := Lit "hb02n"; mpc := marc1b |}
  ].

(** The table as initialised. *)
Variable backup_node_mpc : list rule.

(** Truthiness of a number or [None]. *)
Definition nonzero (o : option Z) : bool :=
  match o with
  | Some n => negb (n =? 0)
  | None => false
  end.

(** Obtain node memory per core from the node type of the category. *)
Definition node_mem_core (r : record) : option Z :=
  let mem_core := None in
  let nt := sge.category_resource (category r) "node_type" in
  match nt with
  | Some (String _ _ as nt) =>
      let cores := sge.number (sge.node_type nt "num_pe") in
      let memory := sge.number (sge.node_type nt "memory") in
      match cores, memory with
      | Some c, Some m =>
          if nonzero cores && nonzero memory then Some (m / c) else mem_core
      | _, _ => mem_core
      end
  | _ => mem_core
  end.

(** Cycle through node name regexs for a match: every rule is tried, and a
    matching rule assigns [mem_core]. *)
Definition backup_mem_core (hostname : string) (mem_core : option Z)
  : option Z :=
  foldl (fun mem_core b =>
           if re_match (regex b) hostname then Some (mpc b) else mem_core)
        mem_core backup_node_mpc.

Definition mem_core_of (r : record) : option Z :=
  let mem_core := node_mem_core r in
  if nonzero mem_core then mem_core
  else backup_mem_core (hostname r) mem_core.

(** Obtain memory request. *)
Definition mem_req_of (r : record) : mem_req_t :=
  match sge.category_resource (category r) "h_vmem" with
  | None => ReqNone
  | Some EmptyString => ReqStr EmptyString
  | Some s =>
      match sge.number (Some s) with
      | Some n => ReqNum n
      | None => ReqNone
      end
  end.

Definition warning (r : record) : string :=
  "Warning: could not extract mem or mem per node details for "
  +:+ name r +:+ " (" +:+ category r +:+ ")".

(** Calculate the number of core hours used by a job: the pair
    [(time, time_adj)] and the lines printed on standard error. *)
Definition core_hours (r : record) : py (Z * Z * list string) :=
  (* Simple (wallclock times cores) *)
  let time := ru_wallclock r * slots r in
  (* Complicated (adjusted for large memory requests) *)
  let time_adj := time in
  let mem_core := mem_core_of r in
  let mem_req := mem_req_of r in
  match mem_req, mem_core with
  | ReqNone, _ | _, None => Ok (time, time_adj, [warning r])
  | ReqStr _, Some c =>
      (* a string cannot be divided; [float(mem_core)] comes first *)
      _ ← binary64.float c; Raise TypeError
  | ReqNum q, Some c =>
      k ← binary64.ceil_div q c;
      Ok (time, time_adj * k, [])
  end.

(** ** Aggregation in [main] *)

(** One turn of the loop over the records: initialise the entries, count
    the job, add its core hours.  The state is the [owners] dictionary and
    the lines on standard error. *)
Definition record_usage (st : gmap string (gmap string usage.t) * list string)
    (r : record) : py (gmap string (gmap string usage.t) * list string) :=
  let '(owners, err) := st in
  let user := owner r in
  let owner := equip_owner r in
  let owners :=
    match owners !! owner with
    | None => <[owner := ∅]> owners
    | Some _ => owners
    end in
  let data := default ∅ (owners !! owner) in
  let data :=
    match data !! user with
    | None => <[user := usage.zero]> data
    | Some _ => data
    end in
  let u := default usage.zero (data !! user) in
  let u := usage.mk (usage.jobs u + 1) (usage.time u) (usage.time_adj u) in
  '(t0, t1, lines) ← core_hours r;
  let u := usage.mk (usage.jobs u) (usage.time u + t0) (usage.time_adj u) in
  let u := usage.mk (usage.jobs u) (usage.time u) (usage.time_adj u + t1) in
  mret (<[owner := <[user := u]> data]> owners, err ++ lines).

(** Collect raw data, split by equipment owner. *)
Fixpoint collect (st : gmap string (gmap string usage.t) * list string)
    (records : list record)
  : py (gmap string (gmap string usage.t) * list string) :=
  match records with
  | [] => mret st
  | r :: records => st ← record_usage st r; collect st records
  end.

(** Calculate a summary for each user. *)
Definition user_summary (owners : gmap string (gmap string usage.t))
  : gmap string usage.t :=
  map_fold (fun _ data users =>
    map_fold (fun user u users =>
      let users :=
        match users !! user with
        | None => <[user := usage.zero]> users
        | Some _ => users
        end in
      <[user := usage.add (default usage.zero (users !! user)) u]> users)
      users data)
    ∅ owners.

(** Calculate a summary for each owner. *)
Definition owner_summary (data : gmap string usage.t) : summary.t :=
  map_fold (fun _ u s =>
    summary.mk (summary.users s + 1)
               (summary.jobs s + usage.jobs u)
               (summary.time s + usage.time u)
               (summary.time_adj s + usage.time_adj u))
    summary.zero data.

Definition owner_summaries (owners : gmap string (gmap string usage.t))
  : gmap string summary.t :=
  owner_summary <$> owners.

(** The three dictionaries [main] hands to [print_summary], and standard
    error.  [records] is the stream [sge.records] yields over the accounting
    files, after [record_modify] and [record_filter]. *)
Definition main (date : option string) (records : list record)
  : py (gmap string (gmap string usage.t) * gmap string usage.t
        * gmap string summary.t * list string) :=
  (* Parse date argument *)
  _ ← parse_startend date;
  '(owners, err) ← collect (∅, []) records;
  mret (owners, user_summary owners, owner_summaries owners, err).

(** [reduce((lambda x, k: x + d[k][field]), d, 0)], the totals rows of
    [print_summary]. *)
Definition reduce {A} (field : A -> Z) (d : gmap string A) : Z :=
  map_fold (fun _ v x => x + field v) 0 d.

End program.

(** ** An instance of the [sge] lookups *)

Module sge_model.

Definition suffix_factor (s : string) : option Z :=
  if String.eqb s "" then Some 1
  else if String.eqb s "K" then Some 1024
  else if String.eqb s "M" then Some (1024 ^ 2)
  else if String.eqb s "G" then Some (1024 ^ 3)
  else if String.eqb s "T" then Some (1024 ^ 4)
  else None.

(** Modelled from the spec: [sge.number], which [accounting.py] imports.
    Quantities are written with human-readable magnitude suffixes, as in
    64G and 3T, and parsed to bytes. *)
Definition number (o : option string) : option Z :=
  match o with
  | Some s =>
      let '(d, r) := span_digits s in
      match d with
      | EmptyString => None
      | _ => Z.mul (int d) <$> suffix_factor r
      end
  | None => None
  end.

Definition is_sep (c : ascii) : bool := (ord c =? 44) || (ord c =? 32).

Fixpoint split (s : string) : list string :=
  match s with
  | EmptyString => [EmptyString]
  | String c s' =>
      let rest := split s' in
      if is_sep c then EmptyString :: rest
      else
        match rest with
        | t :: ts => String c t :: ts
        | [] => [String c EmptyString]
        end
  end.

Fixpoint lookup_item (key : string) (items : list string) : option string :=
  match items with
  | [] => None
  | i :: items =>
      match strip_prefix key i with
      | Some v => Some v
      | None => lookup_item key items
      end
  end.

(** Modelled from the spec: [sge.category_resource], which
    [accounting.py] imports.  The category is a bag of resource requests;
    a request reads name=value, and requests are separated by commas or
    blanks. *)
Definition category_resource (category name : string) : option string :=
  lookup_item (name +:+ "=") (split category).

(** Modelled from the spec: [sge.node_type], which [accounting.py]
    imports.  The descriptor of a node type yields a core count and a
    total memory quantity; a node type is written as in 24core-128G. *)
Definition node_type (nt field : string) : option string :=
  let '(cores, r) := span_digits nt in
  match cores, strip_prefix "core-" r with
  | String _ _, Some memory =>
      if String.eqb field "num_pe" then Some cores
      else if String.eqb field "memory" then Some memory
      else None
  | _, _ => None
  end.

#[export] Instance api : sge.api := {|
  sge.category_resource := category_resource;
  sge.node_type := node_type;
  sge.number := number
|}.

(** The table under this instance. *)
Definition backup_node_mpc : list rule :=
  match backup_node_mpc_init with
  | Ok rules => rules
  | Raise _ => []
  end.

End sge_model.

(** ** Equipment owners and record selection *)

(** [[a-z]]. *)
Definition is_lower (c : ascii) : bool := (97 <=? ord c) && (ord c <=? 122).

(** [\s] on a character with a code up to 255: tab to carriage return,
    the four separators before the blank, the blank, next line and the
    no-break space. *)
Definition is_space (c : ascii) : bool :=
  ((9 <=? ord c) && (ord c <=? 13)) || ((28 <=? ord c) && (ord c <=? 32))
  || (ord c =? 133) || (ord c =? 160).

(** [\S]. *)
Definition not_space (c : ascii) : bool := negb (is_space c).

(** The longest prefix of characters in [p] (a greedy star) and the rest. *)
Fixpoint span (p : ascii -> bool) (s : string) : string * string :=
  match s with
  | EmptyString => (EmptyString, EmptyString)
  | String c s' =>
      if p c then let '(d, r) := span p s' in (String c d, r)
      else (EmptyString, s)
  end.

(** [owner_def.match(s)] for [^([a-z]+_)?(\S+)]: the two groups of a
    match.  The first group takes the leading lower-case letters and the
    underscore after them; a shorter run of letters is followed by a
    letter, which the underscore does not accept, so this is the only way
    for the group to match.  The second group takes the characters up to
    the first whitespace, and needs one at least; when none follows the
    underscore, the first group is given up and the second starts at the
    head of the string. *)
Definition owner_def (s : string) : option (option string * string) :=
  let '(l, r) := span is_lower s in
  let prefixed :=
    match l, r with
    | String _ _, String c r' =>
        if ord c =? 95 then
          match span not_space r' with
          | (String _ _ as g2, _) => Some (Some (l +:+ String c ""), g2)
          | _ => None
          end
        else None
    | _, _ => None
    end in
  match prefixed with
  | Some groups => Some groups
  | None =>
      match span not_space s with
      | (String _ _ as g2, _) => Some (None, g2)
      | _ => None
      end
  end.

(** ARC1 accounting file needs a different method to distinguish
    equipment owners beyond the core owners. *)
Definition queue_owner_mapping : gmap string string :=
  list_to_map [
    ("env1_sgpc.q", "sgpc");
    ("env1_glomap.q", "glomap");
    ("speme1.q", "speme");
    ("env1_neiss.q", "neiss");
    ("env1_tomcat.q", "tomcat");
    ("chem1.q", "chem");
    ("civ1.q", "civil");
    ("mhd1.q", "mhd")
  ]%string.

(** Parent of owner mapping (e.g. mapping to core purchasers). *)
Definition owner_parent_mapping : gmap string string :=
  list_to_map [
    ("ENV", "ENV");
    ("ENG", "ENG");
    ("MAPS", "MAPS");
    ("FBS", "FBS");
    ("ARC", "ARC");
    ("Arts", "Arts");
    ("LUBS", "LUBS");
    ("ESSL", "ESSL");
    ("PVAC", "PVAC");
    ("MEDH", "MEDH");
    ("minphys", "ENV");
    ("glocat", "ENV");
    ("glomap", "ENV");
    ("tomcat", "ENV");
    ("palaeo1", "ENV");
    ("sgpc", "ENV");
    ("neiss", "ENV");
    ("speme", "ENG");
    ("civil", "ENG");
    ("mhd", "MAPS");
    ("skyblue", "MAPS");
    ("chem", "MAPS");
    ("maths", "MAPS");
    ("astro", "MAPS");
    ("codita", "MAPS");
    ("omics", "FBS");
    ("cryoem", "FBS")
  ]%string.

(** Some owners have changed names, or combined with other owners over the
    years. *)
Definition owner_owner_mapping : gmap string string :=
  list_to_map [ ("ISS", "ARC"); ("UKMHD", "MAPS") ]%string.

(** A record as [sge.records] reads it from the accounting file: the fields
    of [record], and the fields only [record_modify] and [record_filter]
    read.  The key [equip_owner] of [job] is written by [record_modify]
    before anything reads it. *)
Module line.
Record t : Set := mk {
  job : record;
  project : string;
  qname : string;
  start_time : Z;
  end_time : Z
}.
End line.

(** [record['equip_owner'] = owner]. *)
Definition set_equip_owner (r : line.t) (o : string) : line.t :=
  let j := line.job r in
  line.mk {| owner := owner j; equip_owner := o; name := name j;
             category := category j; hostname := hostname j;
             ru_wallclock := ru_wallclock j; slots := slots j |}
          (line.project r) (line.qname r)
          (line.start_time r) (line.end_time r).

(** Add record equipment owner in record. *)
Definition record_modify (r : line.t) : line.t :=
  let owner :=
    match owner_def (line.project r) with
    | Some (_, g2) =>
        let owner := g2 in
        (* queue to owner mapping *)
        let owner :=
          match queue_owner_mapping !! line.qname r with
          | Some o => o
          | None => owner
          end in
        (* owner to owner mapping (name changes, mergers, etc.) *)
        match owner_owner_mapping !! owner with
        | Some o => o
        | None => owner
        end
    | None => "<unknown>"%string
    end in
  set_equip_owner r owner.

(** The command line arguments the selection reads; an option with
    [action='append'] is [None] when it is not given. *)
Module args.
Record t : Set := mk {
  skipqueues : option (list string);
  queues : option (list string);
  owners : option (list string);
  skipowners : option (list string);
  coreowners : bool
}.
End args.

(** Truthiness of a list or [None]. *)
Definition nonempty (o : option (list string)) : bool :=
  match o with
  | Some (_ :: _) => true
  | _ => false
  end.

(** [o and x in o]. *)
Definition listed (o : option (list string)) (x : string) : bool :=
  nonempty o && bool_decide (x ∈ default [] o).

(** [o and x not in o]. *)
Definition unlisted (o : option (list string)) (x : string) : bool :=
  nonempty o && negb (bool_decide (x ∈ default [] o)).

(** Restrict to the core purchasers of ARC, if requested: [args] after the
    first statement of [main]. *)
Definition main_args (a : args.t) : args.t :=
  if args.coreowners a then
    args.mk (args.skipqueues a) (args.queues a)
            (Some ["Arts"; "ENG"; "ENV"; "ESSL"; "FBS"; "LUBS"; "MAPS";
                   "MEDH"; "PVAC"]%string)
            (args.skipowners a) (args.coreowners a)
  else a.

(** [record_filter] under the globals [start_time], [end_time] and
    [args]. *)
Definition record_filter (start_time end_time : Z) (a : args.t) (r : line.t)
  : bool :=
  (* Time filtering *)
  if (line.end_time r <? start_time) || (line.start_time r >=? end_time)
  then false
  (* Queue filtering *)
  else if listed (args.skipqueues a) (line.qname r) then false
  else if unlisted (args.queues a) (line.qname r) then false
  (* Owner filtering *)
  else if listed (args.skipowners a) (equip_owner (line.job r)) then false
  else if unlisted (args.owners a) (equip_owner (line.job r)) then false
  else true.

(** ** Pieces of [print_summary] *)

(** [owner_parent_mapping.get(owner, '<unknown>')], the parent column of
    the owners report. *)
Definition parent (owner : string) : string :=
  default "<unknown>"%string (owner_parent_mapping !! owner).

(** [sorted(l)] on strings: ascending by code points.  The order is total
    and equal strings are the same string, so the result is the one
    ascending arrangement of [l], whatever the order of [l]. *)
Fixpoint insert_sorted (x : string) (l : list string) : list string :=
  match l with
  | [] => [x]
  | y :: l' => if String.leb x y then x :: l else y :: insert_sorted x l'
  end.

Definition sorted (l : list string) : list string := foldr insert_sorted [] l.

(** The owners of a user in the users report,
    [sorted([o for o in owners for u in owners[o] if u == user])]; the
    column holds them joined by commas. *)
Definition user_owners (owners : gmap string (gmap string usage.t))
    (user : string) : list string :=
  sorted ('(o, data) ← map_to_list owners;
          u ← (map_to_list data).*1;
          if decide (u = user) then [o] else []).

Definition owners_column (owners : gmap string (gmap string usage.t))
    (user : string) : string :=
  String.concat "," (user_owners owners user).

(** The loop over the sorted users of the users report and of the users by
    owner report: [count] is advanced for every item, and the loop is left
    once it exceeds [limitusers]; [row] builds a line of the table. *)
Fixpoint limit_rows {A B} (row : A -> B) (limitusers count : Z)
    (d : list B) (items : list A) : list B :=
  match items with
  | [] => d
  | x :: items =>
      let count := count + 1 in
      if count >? limitusers then d
      else limit_rows row limitusers count (d ++ [row x]) items
  end.

(** * Specification

    The definitions below do not embed code: they state what the
    properties are about. *)

(** ** Calendar *)

(** The month and day of a day number within a year, the last step of
    [datetime.ord2ymd]. *)
Definition month_day (leap : bool) (n : Z) : Z * Z :=
  let month := Z.shiftr (n + 50) 5 in
  let preceding :=
    datetime.DAYS_BEFORE_MONTH month
    + (if (2 <? month) && leap then 1 else 0) in
  if n <? preceding then
    (month - 1,
     n - (preceding - (datetime.DAYS_IN_MONTH (month - 1)
                       + (if (month - 1 =? 2) && leap then 1 else 0))) + 1)
  else (month, n - preceding + 1).

(** [month_day] inverts the table of days before a month. *)
Definition month_day_ok (leap : bool) (n : Z) : bool :=
  let '(m, d) := month_day leap n in
  (1 <=? m) && (m <=? 12) && (1 <=? d)
  && (d <=? (if (m =? 2) && leap then 29 else datetime.DAYS_IN_MONTH m))
  && (datetime.DAYS_BEFORE_MONTH m
      + (if (2 <? m) && leap then 1 else 0) + d =? n + 1).

(** A datetime whose fields passed the constructor's checks. *)
Definition datetime_wf (x : datetime.t) : Prop :=
  datetime.check_date_fields
    (datetime.year x) (datetime.month x) (datetime.day x) = true
  /\ datetime.check_time_fields
       (datetime.hour x) (datetime.minute x) (datetime.second x)
       (datetime.microsecond x) = true.

(** Seconds into the day. *)
Definition day_seconds (x : datetime.t) : Z :=
  datetime.hour x * 3600 + datetime.minute x * 60 + datetime.second x.

(** The year and month [relativedelta] moves to. *)
Definition shift_month (x : datetime.t) (years months : Z) : Z * Z :=
  let y := datetime.year x + years in
  let m := datetime.month x in
  if months =? 0 then (y, m)
  else
    let m := m + months in
    if 12 <? m then (y + 1, m - 12)
    else if m <? 1 then (y - 1, m + 12)
    else (y, m).

(** The datetime [relativedelta] replaces the fields to. *)
Definition shifted (x : datetime.t) (years months : Z) : datetime.t :=
  let '(y, m) := shift_month x years months in
  datetime.mk y m (Z.min (datetime.days_in_month y m) (datetime.day x))
              (datetime.hour x) (datetime.minute x) (datetime.second x)
              (datetime.microsecond x).

(** ** Dates and ranges *)

(** The branch of [parse_startend] for a string that matches the range
    expression with groups [g1], [g2], [g3]. *)
Definition parse_matched {tz : libc.timezone} (g1 g2 g3 : option string)
  : py (Z * Z) :=
  start ← (if truthy g1 then
             a ← star (parse_date g1);
             start_dt ← datetime.new (datetime_defaults a);
             mret (datetime.mktime start_dt)
           else mret 0);
  a ← star (parse_date (py_or g3 (py_or (py_and g2 (Some max_date)) g1)));
  end_dt ← next_datetime a;
  end_ ← strftime_s end_dt;
  mret (start, end_).

(** The date the end of a range is computed from: the date after the
    hyphen, else [max_date] when there is a hyphen, else the single date. *)
Definition end_date (g1 g2 g3 : option string) : option string :=
  py_or g3 (py_or (py_and g2 (Some max_date)) g1).

(** Each component of a date lies in its calendar range: the year in
    1..9999, the month in 1..12, the day within the month, the hour in
    0..23, minute and second in 0..59; components not given take their
    defaults. *)
Definition calendar_ok (c : list Z) : bool :=
  let y := nth 0 c 1970 in
  let m := nth 1 c 1 in
  let d := nth 2 c 1 in
  let h := nth 3 c 0 in
  let mi := nth 4 c 0 in
  let s := nth 5 c 0 in
  (1 <=? y) && (y <=? 9999) && (1 <=? m) && (m <=? 12)
  && (1 <=? d) && (d <=? datetime.days_in_month y m)
  && (0 <=? h) && (h <=? 23) && (0 <=? mi) && (mi <=? 59)
  && (0 <=? s) && (s <=? 59).

(** The datetime the components of a date denote. *)
Definition datetime_of (c : list Z) : datetime.t :=
  datetime.mk (nth 0 c 1970) (nth 1 c 1) (nth 2 c 1)
              (nth 3 c 0) (nth 4 c 0) (nth 5 c 0) 0.

(** One unit past a date, at the precision of its components: a year, a
    calendar month, a day, an hour, a minute or a second later. *)
Definition next_epoch (c : list Z) : Z :=
  match length c with
  | 1%nat => datetime.epoch (shifted (datetime_of c) 1 0)
  | 2%nat => datetime.epoch (shifted (datetime_of c) 0 1)
  | 3%nat => datetime.epoch (datetime_of c) + 86400
  | 4%nat => datetime.epoch (datetime_of c) + 3600
  | 5%nat => datetime.epoch (datetime_of c) + 60
  | _ => datetime.epoch (datetime_of c) + 1
  end.

(** ** Memory per core *)

(** The least number of portions of [b] bytes that hold [a] bytes: the
    ceiling of the exact quotient, for [b] above zero. *)
Definition ceil_div (a b : Z) : Z := - ((- a) / b).

(** First match wins: the rules are tried top to bottom and the first
    matching pattern decides. *)
Fixpoint first_match_spec (rules : list rule) (hostname : string) : option Z :=
  match rules with
  | [] => None
  | b :: rules =>
      if re_match (regex b) hostname then Some (mpc b)
      else first_match_spec rules hostname
  end.

(** A job of one hour on four slots. *)
Definition job_of (user owner category hostname : string) : record :=
  {| owner := user; equip_owner := owner; name := "job1";
     category := category; hostname := hostname;
     ru_wallclock := 3600; slots := 4 |}.

(** ** Totals *)

(** Pointwise addition of the totals of two user dictionaries. *)
Definition merge_usage (a b : gmap string usage.t) : gmap string usage.t :=
  union_with (fun x y => Some (usage.add x y)) a b.

(** Pointwise addition of two [owners] dictionaries. *)
Definition merge_owners (a b : gmap string (gmap string usage.t))
  : gmap string (gmap string usage.t) :=
  union_with (fun x y => Some (merge_usage x y)) a b.

(** The merge of two folds; a fold that raised has no totals. *)
Definition merge_totals (a b : py (gmap string (gmap string usage.t)))
  : py (gmap string (gmap string usage.t)) :=
  a ← a; b ← b; mret (merge_owners a b).

(** What one job adds to the [owners] dictionary. *)
Definition contribution (r : record) (t0 t1 : Z)
  : gmap string (gmap string usage.t) :=
  {[ equip_owner r := {[ owner r := usage.mk 1 t0 t1 ]} ]}.

(** The totals of the fold over a record stream. *)
Definition totals {sge_api : sge.api} (backup_node_mpc : list rule)
    (records : list record) : py (gmap string (gmap string usage.t)) :=
  '(owners, _) ← collect backup_node_mpc (∅, []) records;
  mret owners.

(** The sum, in a monoid [(op, e)], of [w] over the values of a
    dictionary. *)
Definition msum {M A : Type} (op : M -> M -> M) (e : M) (w : A -> M)
    (m : gmap string A) : M :=
  map_fold (fun _ a acc => op acc (w a)) e m.

(** The totals of a user dictionary. *)
Definition total (data : gmap string usage.t) : usage.t :=
  msum usage.add usage.zero id data.

(** The totals of an [owners] dictionary. *)
Definition grand_total (owners : gmap string (gmap string usage.t))
  : usage.t :=
  msum usage.add usage.zero total owners.

(** The totals of [user] in a user dictionary; zero without an entry. *)
Definition user_share (user : string) (data : gmap string usage.t)
  : usage.t :=
  default usage.zero (data !! user).

(** The totals of [user] under [owner]; zero without an entry. *)
Definition usage_at (owners : gmap string (gmap string usage.t))
    (owner user : string) : usage.t :=
  default usage.zero (owners !! owner ≫= fun data => data !! user).

(** One turn of the inner loop of the summary for each user. *)
Definition add_user (user : string) (u : usage.t)
    (users : gmap string usage.t) : gmap string usage.t :=
  let users :=
    match users !! user with
    | None => <[user := usage.zero]> users
    | Some _ => users
    end in
  <[user := usage.add (default usage.zero (users !! user)) u]> users.

(** ** Owners and selection *)

(** Every character of [s] satisfies [p]. *)
Fixpoint all_chars (p : ascii -> bool) (s : string) : bool :=
  match s with
  | EmptyString => true
  | String c s' => p c && all_chars p s'
  end.

(** [s] is empty or starts with a character that satisfies [p]. *)
Definition head_ok (p : ascii -> bool) (s : string) : bool :=
  match s with
  | EmptyString => true
  | String c _ => p c
  end.

(** The core purchasers of ARC, the list [main] assigns under
    [--coreowners]. *)
Definition core_owners : list string :=
  ["Arts"; "ENG"; "ENV"; "ESSL"; "FBS"; "LUBS"; "MAPS"; "MEDH"; "PVAC"]%string.

Definition no_underscore (c : ascii) : bool := negb (ord c =? 95).

Definition no_newline (c : ascii) : bool := negb (ord c =? 10).

(** The string of one newline character. *)
Definition newline : string := String "010" EmptyString.

(** The queue and owner tests of [record_filter], without the time
    window. *)
Definition selected (a : args.t) (r : line.t) : bool :=
  negb (listed (args.skipqueues a) (line.qname r))
  && negb (unlisted (args.queues a) (line.qname r))
  && negb (listed (args.skipowners a) (equip_owner (line.job r)))
  && negb (unlisted (args.owners a) (equip_owner (line.job r))).

(** Strings in ascending order. *)
Fixpoint ascending (l : list string) : bool :=
  match l with
  | x :: (y :: _) as l' => String.leb x y && ascending l'
  | _ => true
  end.

(** ** Sums over the records *)

(** The records of equipment owner [o] and job owner [u]. *)
Definition matching (o u : string) (records : list record) : list record :=
  filter (fun r => equip_owner r = o /\ owner r = u) records.

Definition sum_over (f : record -> Z) (records : list record) : Z :=
  foldr (fun r acc => f r + acc) 0 records.

(** Wallclock time times slots. *)
Definition raw_time (r : record) : Z := ru_wallclock r * slots r.

(** The adjusted time [core_hours] returns for a record. *)
Definition adjusted_time {sge_api : sge.api} (backup_node_mpc : list rule)
    (r : record) : Z :=
  match core_hours backup_node_mpc r with
  | Ok (_, t1, _) => t1
  | Raise _ => 0
  end.

(** The memory request or the memory per core of a record is [None]. *)
Definition unresolved {sge_api : sge.api} (backup_node_mpc : list rule)
    (r : record) : bool :=
  match mem_req_of r, mem_core_of backup_node_mpc r with
  | ReqNone, _ | _, None => true
  | _, _ => false
  end.

(** The category of a record carries no memory request that can be read:
    it has no [h_vmem] request, or the value of the request is not empty
    and not a quantity. *)
Definition no_request {sge_api : sge.api} (r : record) : bool :=
  match sge.category_resource (category r) "h_vmem" with
  | None => true
  | Some EmptyString => false
  | Some s =>
      match sge.number (Some s) with
      | None => true
      | Some _ => false
      end
  end.

(** The node type of a record gives no memory per core: the category
    names no node type, or the core count or the memory of the node type
    is absent, unreadable or zero. *)
Definition no_node_memory {sge_api : sge.api} (r : record) : bool :=
  match sge.category_resource (category r) "node_type" with
  | Some (String _ _ as nt) =>
      negb (nonzero (sge.number (sge.node_type nt "num_pe"))
            && nonzero (sge.number (sge.node_type nt "memory")))
  | _ => true
  end.

(** No pattern of the table matches the host name. *)
Definition no_rule (rules : list rule) (hostname : string) : bool :=
  forallb (fun b => negb (re_match (regex b) hostname)) rules.

(** [user] has an entry under [owner]. *)
Definition has_entry (owners : gmap string (gmap string usage.t))
    (o u : string) : Prop :=
  is_Some (owners !! o ≫= fun data => data !! u).

(** No owner has an empty dictionary. *)
Definition no_empty (owners : gmap string (gmap string usage.t)) : Prop :=
  forall o data, owners !! o = Some data -> exists u, is_Some (data !! u).

(** Three jobs of two users under two owners; the second has no memory
    request. *)
Definition sample_records : list record :=
  [ job_of "alice" "ENV" "-l h_vmem=40G,node_type=24core-384G" "d8s0b1";
    job_of "alice" "ENG" "-l h_rt=3600" "h7s3b15n1";
    job_of "bob" "ENG" "-l h_vmem=4G" "h7s3b15n1" ].

(** ** The two ends of a range *)

(** The start [parse_startend] computes from the first group of a match. *)
Definition range_start {tz : libc.timezone} (g1 : option string) : py Z :=
  if truthy g1 then
    a ← star (parse_date g1);
    start_dt ← datetime.new (datetime_defaults a);
    mret (datetime.mktime start_dt)
  else mret 0.

(** The end [parse_startend] computes from the date [d]. *)
Definition range_end {tz : libc.timezone} (d : option string) : py Z :=
  a ← star (parse_date d);
  end_dt ← next_datetime a;
  strftime_s end_dt.

(** ** Dates, written *)

(** The character of the digit [n]. *)
Definition digit (n : Z) : ascii := ascii_of_N (Z.to_N (48 + n)).

Definition two_digits (n : Z) : string :=
  String (digit (n / 10)) (String (digit (n mod 10)) EmptyString).

Definition four_digits (n : Z) : string :=
  (two_digits (n / 100) +:+ two_digits (n mod 100))%string.

(** The components of a date written as YYYY[MM[DD[HH[MM[SS]]]]]. *)
Definition format_date (c : list Z) : string :=
  match c with
  | [] => EmptyString
  | y :: rest =>
      foldr append EmptyString (four_digits y :: (two_digits <$> rest))
  end.

(** * Properties *)

(** ** The calendar *)

Module datetime_facts.
Import datetime.

(** A year has 365 days, and one more when it is a leap year. *)
Lemma days_before_year_succ y :
  days_before_year (y + 1) =
  days_before_year y + 365 + (if is_leap y then 1 else 0).
Proof.
  unfold days_before_year, is_leap.
  replace (y + 1 - 1) with y by lia.
  destruct (y mod 4 =? 0) eqn:E4; destruct (y mod 100 =? 0) eqn:E100;
    destruct (y mod 400 =? 0) eqn:E400; simpl;
    rewrite ?Z.eqb_eq, ?Z.eqb_neq in *; Z.div_mod_to_equations; lia.
Qed.

Lemma days_before_year_mono y y' :
  y <= y' -> days_before_year y <= days_before_year y'.
Proof. unfold days_before_year. intros. Z.div_mod_to_equations. lia. Qed.

Lemma month_day_table (leap : bool) :
  forallb (fun k => month_day_ok leap (Z.of_nat k))
          (seq 0%nat (if leap then 366%nat else 365%nat)) = true.
Proof. destruct leap; vm_compute; reflexivity. Qed.

Lemma month_day_ok_range (leap : bool) (n : Z) :
  0 <= n < (if leap then 366 else 365) -> month_day_ok leap n = true.
Proof.
  intros Hn. pose proof (month_day_table leap) as H.
  rewrite forallb_forall in H.
  specialize (H (Z.to_nat n)). rewrite Z2Nat.id in H by lia.
  apply H. apply in_seq. destruct leap; lia.
Qed.

Lemma month_day_spec (leap : bool) (n m d : Z) :
  0 <= n < (if leap then 366 else 365) ->
  month_day leap n = (m, d) ->
  1 <= m <= 12 /\ 1 <= d <= (if (m =? 2) && leap then 29 else DAYS_IN_MONTH m)
  /\ DAYS_BEFORE_MONTH m + (if (2 <? m) && leap then 1 else 0) + d = n + 1.
Proof.
  intros Hn Hmd. pose proof (month_day_ok_range leap n Hn) as H.
  unfold month_day_ok in H. rewrite Hmd in H.
  rewrite !andb_true_iff in H. destruct H as [[[[H1 H2] H3] H4] H5].
  lia.
Qed.

(** [ord2ymd] with its last step named. *)
Lemma ord2ymd_unfold n :
  ord2ymd n =
  let n0 := n - 1 in
  let n400 := n0 / 146097 in
  let r1 := n0 mod 146097 in
  let n100 := r1 / 36524 in
  let r2 := r1 mod 36524 in
  let n4 := r2 / 1461 in
  let r3 := r2 mod 1461 in
  let n1 := r3 / 365 in
  let r4 := r3 mod 365 in
  let year := n400 * 400 + 1 + (n100 * 100 + n4 * 4 + n1) in
  if (n1 =? 4) || (n100 =? 4) then (year - 1, 12, 31)
  else
    let '(m, d) :=
      month_day ((n1 =? 3) && (negb (n4 =? 24) || (n100 =? 3))) r4 in
    (year, m, d).
Proof.
  unfold ord2ymd, month_day, DI400Y, DI100Y, DI4Y. cbv zeta.
  destruct (_ || _); [reflexivity|].
  destruct (_ <? _); reflexivity.
Qed.

(** [ord2ymd] inverts [ymd2ord] on the ordinals of the years 1..9999, and
    yields a date of the calendar. *)
Lemma ord2ymd_spec n y m d :
  1 <= n <= MAXORDINAL ->
  ord2ymd n = (y, m, d) ->
  ymd2ord y m d = n /\ check_date_fields y m d = true.
Proof.
  intros Hn. rewrite ord2ymd_unfold. cbv zeta.
  unfold MAXORDINAL in Hn.
  set (n0 := n - 1).
  set (n400 := n0 / 146097). set (r1 := n0 mod 146097).
  set (n100 := r1 / 36524). set (r2 := r1 mod 36524).
  set (n4 := r2 / 1461). set (r3 := r2 mod 1461).
  set (n1 := r3 / 365). set (r4 := r3 mod 365).
  assert (H400 : n0 = 146097 * n400 + r1 /\ 0 <= r1 < 146097)
    by (subst n400 r1; Z.div_mod_to_equations; lia).
  assert (H100 : r1 = 36524 * n100 + r2 /\ 0 <= r2 < 36524)
    by (subst n100 r2; Z.div_mod_to_equations; lia).
  assert (H4 : r2 = 1461 * n4 + r3 /\ 0 <= r3 < 1461)
    by (subst n4 r3; Z.div_mod_to_equations; lia).
  assert (H1 : r3 = 365 * n1 + r4 /\ 0 <= r4 < 365)
    by (subst n1 r4; Z.div_mod_to_equations; lia).
  assert (Hn0 : n = n0 + 1) by (subst n0; lia).
  clearbody n0 n400 r1 n100 r2 n4 r3 n1 r4.
  destruct ((n1 =? 4) || (n100 =? 4)) eqn:Esp.
  - intros [= <- <- <-].
    unfold ymd2ord, check_date_fields, days_before_year, days_before_month,
      days_in_month, is_leap, MINYEAR, MAXYEAR. simpl DAYS_BEFORE_MONTH.
    simpl DAYS_IN_MONTH.
    change (12 =? 2) with false. change (2 <? 12) with true.
    apply orb_true_iff in Esp. rewrite !Z.eqb_eq in Esp.
    set (Y := n400 * 400 + 1 + (n100 * 100 + n4 * 4 + n1) - 1).
    assert (HY : Y = 400 * n400 + 100 * n100 + 4 * n4 + n1) by (subst Y; lia).
    clearbody Y.
    destruct (Y mod 4 =? 0) eqn:E4; destruct (Y mod 100 =? 0) eqn:E100;
      destruct (Y mod 400 =? 0) eqn:E400; cbn [andb orb negb]; cbv iota;
      rewrite ?Z.eqb_eq, ?Z.eqb_neq in *;
      rewrite ?andb_true_iff, ?Z.leb_le;
      Z.div_mod_to_equations; lia.
  - apply orb_false_iff in Esp. rewrite !Z.eqb_neq in Esp.
    set (leap := (n1 =? 3) && (negb (n4 =? 24) || (n100 =? 3))).
    destruct (month_day leap r4) as [m' d'] eqn:Emd.
    intros [= <- <- <-].
    set (Y := n400 * 400 + 1 + (n100 * 100 + n4 * 4 + n1)).
    assert (HY : Y = 400 * n400 + 100 * n100 + 4 * n4 + n1 + 1)
      by (subst Y; lia).
    clearbody Y.
    assert (Hleap : is_leap Y = leap).
    { subst leap. unfold is_leap.
      destruct (n1 =? 3) eqn:A1; destruct (n4 =? 24) eqn:A4;
        destruct (n100 =? 3) eqn:A100;
        destruct (Y mod 4 =? 0) eqn:E4; destruct (Y mod 100 =? 0) eqn:E100;
        destruct (Y mod 400 =? 0) eqn:E400; cbn [andb orb negb];
        try reflexivity; exfalso;
        rewrite ?Z.eqb_eq, ?Z.eqb_neq in *;
        Z.div_mod_to_equations; lia. }
    apply month_day_spec in Emd.
    2:{ destruct leap; lia. }
    destruct Emd as (Hm & Hd & Hsum).
    unfold ymd2ord, check_date_fields, days_before_month, days_in_month,
      MINYEAR, MAXYEAR.
    rewrite Hleap.
    split.
    + unfold days_before_year.
      generalize dependent (DAYS_BEFORE_MONTH m'). intros dbm Hsum.
      destruct ((2 <? m') && leap);
      Z.div_mod_to_equations; lia.
    + rewrite !andb_true_iff, !Z.leb_le. lia.
Qed.


Lemma make_ok y m d h mi s us x :
  make y m d h mi s us = Ok x -> x = mk y m d h mi s us /\ datetime_wf x.
Proof.
  unfold make. destruct (_ && _) eqn:E; [|discriminate].
  intros [= <-]. split; [reflexivity|].
  apply andb_true_iff in E. exact E.
Qed.

Lemma make_wf y m d h mi s us :
  datetime_wf (mk y m d h mi s us) ->
  make y m d h mi s us = Ok (mk y m d h mi s us).
Proof. intros [H1 H2]. unfold make. simpl in *. by rewrite H1, H2. Qed.

Lemma check_date_fields_spec y m d :
  check_date_fields y m d = true <->
  1 <= y <= 9999 /\ 1 <= m <= 12 /\ 1 <= d <= days_in_month y m.
Proof.
  unfold check_date_fields, MINYEAR, MAXYEAR.
  rewrite !andb_true_iff, !Z.leb_le. lia.
Qed.

Lemma check_time_fields_spec h mi s us :
  check_time_fields h mi s us = true <->
  0 <= h <= 23 /\ 0 <= mi <= 59 /\ 0 <= s <= 59 /\ 0 <= us <= 999999.
Proof.
  unfold check_time_fields. rewrite !andb_true_iff, !Z.leb_le. lia.
Qed.

Lemma days_in_month_range y m : 1 <= m <= 12 -> 28 <= days_in_month y m <= 31.
Proof.
  intros Hm. unfold days_in_month.
  assert (m = 1 \/ m = 2 \/ m = 3 \/ m = 4 \/ m = 5 \/ m = 6 \/ m = 7
          \/ m = 8 \/ m = 9 \/ m = 10 \/ m = 11 \/ m = 12) as Hc by lia.
  destruct (is_leap y);
    repeat (destruct Hc as [-> | Hc]; [simpl; lia|]); subst; simpl; lia.
Qed.



Lemma days_before_month_range y m :
  1 <= m <= 12 ->
  0 <= days_before_month y m
  /\ days_before_month y m + days_in_month y m
     <= 365 + (if is_leap y then 1 else 0).
Proof.
  intros Hm. unfold days_before_month, days_in_month.
  assert (m = 1 \/ m = 2 \/ m = 3 \/ m = 4 \/ m = 5 \/ m = 6 \/ m = 7
          \/ m = 8 \/ m = 9 \/ m = 10 \/ m = 11 \/ m = 12) as Hc by lia.
  destruct (is_leap y);
    repeat (destruct Hc as [-> | Hc]; [simpl; lia|]); subst; simpl; lia.
Qed.

(** The ordinal of a date lies within its year. *)
Lemma ymd2ord_range y m d :
  check_date_fields y m d = true ->
  days_before_year y < ymd2ord y m d <= days_before_year (y + 1).
Proof.
  rewrite check_date_fields_spec. intros (Hy & Hm & Hd).
  unfold ymd2ord. rewrite days_before_year_succ.
  pose proof (days_before_month_range y m Hm). lia.
Qed.

(** The ordinals of the dates of the calendar. *)
Lemma ymd2ord_bounds y m d :
  check_date_fields y m d = true -> 1 <= ymd2ord y m d <= MAXORDINAL.
Proof.
  intros H. pose proof (ymd2ord_range y m d H) as Hr.
  apply check_date_fields_spec in H. destruct H as (Hy & _).
  pose proof (days_before_year_mono 1 y ltac:(lia)).
  pose proof (days_before_year_mono (y + 1) 10000 ltac:(lia)).
  change (days_before_year 1) with 0 in *.
  change (days_before_year 10000) with 3652059 in *.
  unfold MAXORDINAL. lia.
Qed.

Lemma ymd2ord_bounds_9998 y m d :
  check_date_fields y m d = true -> y <= 9998 ->
  ymd2ord y m d + 1 <= MAXORDINAL.
Proof.
  intros H Hy. pose proof (ymd2ord_range y m d H) as Hr.
  pose proof (days_before_year_mono (y + 1) 9999 ltac:(lia)).
  change (days_before_year 9999) with 3651694 in *.
  unfold MAXORDINAL. lia.
Qed.

Lemma datetime_wf_day_seconds x : datetime_wf x -> 0 <= day_seconds x < 86400.
Proof.
  intros [_ H]. apply check_time_fields_spec in H. unfold day_seconds. lia.
Qed.

(** Adding a [timedelta] moves the epoch second by the same amount. *)
Lemma add_timedelta_epoch x delta x' :
  add_timedelta x delta = Ok x' -> epoch x' = epoch x + delta.
Proof.
  unfold add_timedelta. cbv zeta.
  set (total := toordinal x * 86400 + hour x * 3600 + minute x * 60
                + second x + delta).
  destruct (_ && _) eqn:E; [|discriminate].
  apply andb_true_iff in E. rewrite Z.ltb_lt, Z.leb_le in E.
  destruct (ord2ymd (total / 86400)) as [[y m] d] eqn:Eo.
  apply ord2ymd_spec in Eo; [|lia]. destruct Eo as [Eo _].
  intros [= <-]. unfold epoch, toordinal. simpl.
  rewrite Eo. change (ymd2ord (year x) (month x) (day x)) with (toordinal x).
  subst total. Z.div_mod_to_equations. lia.
Qed.

(** Adding a [timedelta] yields a datetime of the calendar. *)
Lemma add_timedelta_wf x delta x' :
  datetime_wf x -> add_timedelta x delta = Ok x' -> datetime_wf x'.
Proof.
  intros [_ Ht]. unfold add_timedelta. cbv zeta.
  set (total := toordinal x * 86400 + hour x * 3600 + minute x * 60
                + second x + delta).
  destruct (_ && _) eqn:E; [|discriminate].
  apply andb_true_iff in E. rewrite Z.ltb_lt, Z.leb_le in E.
  destruct (ord2ymd (total / 86400)) as [[y m] d] eqn:Eo.
  apply ord2ymd_spec in Eo; [|lia]. destruct Eo as [_ Eo].
  intros [= <-]. split; simpl; [exact Eo|].
  apply check_time_fields_spec in Ht. apply check_time_fields_spec.
  Z.div_mod_to_equations. lia.
Qed.

(** Up to the year 9998 a day more stays in range. *)
Lemma add_timedelta_ok x delta :
  datetime_wf x -> year x <= 9998 -> 0 <= delta <= 86400 ->
  exists x', add_timedelta x delta = Ok x'.
Proof.
  intros Hwf Hy Hd. pose proof (datetime_wf_day_seconds x Hwf) as Hs.
  destruct Hwf as [Hdate _].
  pose proof (ymd2ord_bounds _ _ _ Hdate) as Hb.
  pose proof (ymd2ord_bounds_9998 _ _ _ Hdate Hy) as Hb'.
  unfold add_timedelta. cbv zeta.
  set (total := toordinal x * 86400 + hour x * 3600 + minute x * 60
                + second x + delta).
  assert (Ht : 0 < total / 86400 <= MAXORDINAL).
  { subst total. unfold toordinal, day_seconds in *.
    Z.div_mod_to_equations. lia. }
  destruct (_ && _) eqn:E.
  - destruct (ord2ymd _) as [[y m] d]. eauto.
  - apply andb_false_iff in E. rewrite Z.ltb_ge, Z.leb_gt in E. lia.
Qed.


Lemma add_timedelta_zero x :
  datetime_wf x -> exists x', add_timedelta x 0 = Ok x'.
Proof.
  intros Hwf. pose proof (datetime_wf_day_seconds x Hwf) as Hs.
  destruct Hwf as [Hdate _].
  pose proof (ymd2ord_bounds _ _ _ Hdate) as Hb.
  unfold add_timedelta. cbv zeta.
  set (total := toordinal x * 86400 + hour x * 3600 + minute x * 60
                + second x + 0).
  assert (Ht : 0 < total / 86400 <= MAXORDINAL).
  { subst total. unfold toordinal, day_seconds in *.
    Z.div_mod_to_equations. lia. }
  destruct (_ && _) eqn:E.
  - destruct (ord2ymd _) as [[y m] d]. eauto.
  - apply andb_false_iff in E. rewrite Z.ltb_ge, Z.leb_gt in E. lia.
Qed.

(** What [relativedelta] returns sits at the epoch second of the replaced
    fields. *)
Lemma add_relativedelta_epoch x years months x' :
  add_relativedelta x years months = Ok x' ->
  epoch x' = epoch (shifted x years months) /\ datetime_wf x'.
Proof.
  unfold add_relativedelta, shifted, shift_month. cbv zeta.
  destruct (if months =? 0 then _ else _) as [y m].
  unfold replace_date.
  destruct (make _ _ _ _ _ _ _) as [r|] eqn:Er; [|discriminate].
  apply make_ok in Er. destruct Er as [-> Hr]. simpl.
  intros H. split.
  - apply add_timedelta_epoch in H. lia.
  - eapply add_timedelta_wf; eauto.
Qed.

(** [relativedelta] returns when the year and month it moves to are in
    range. *)
Lemma add_relativedelta_ok x years months :
  datetime_wf x ->
  1 <= (shift_month x years months).1 <= 9999 ->
  1 <= (shift_month x years months).2 <= 12 ->
  exists x', add_relativedelta x years months = Ok x'.
Proof.
  intros Hwf. unfold add_relativedelta. fold (shift_month x years months).
  destruct (shift_month x years months) as [y m]. simpl. intros Hy Hm.
  unfold replace_date.
  assert (Hr : datetime_wf (mk y m (Z.min (days_in_month y m) (day x))
                      (hour x) (minute x) (second x) (microsecond x))).
  { destruct Hwf as [Hd Ht]. split; [|exact Ht]. simpl.
    apply check_date_fields_spec in Hd. apply check_date_fields_spec.
    pose proof (days_in_month_range y m Hm). lia. }
  rewrite (make_wf _ _ _ _ _ _ _ Hr). simpl.
  apply add_timedelta_zero, Hr.
Qed.


End datetime_facts.

(** ** The date parser *)

Import datetime_facts.

Section date_ranges.
Context {tz : libc.timezone}.

Lemma parse_date_max_date : parse_date (Some max_date) = Some [4000; 1; 1].
Proof. reflexivity. Qed.

Lemma parse_startend_None :
  parse_startend None = Ok (0, libc.mktime 64060588800).
Proof. reflexivity. Qed.

Lemma parse_startend_empty :
  parse_startend (Some EmptyString) = Ok (0, libc.mktime 64060588800).
Proof. reflexivity. Qed.

(** [parse_startend] on a string that is not empty. *)
Lemma parse_startend_unfold (s : string) :
  s <> EmptyString ->
  parse_startend (Some s) =
  match time_startend_def s with
  | Some (g1, g2, g3) => parse_matched g1 g2 g3
  | None => Ok (0, libc.mktime 64060588800)
  end.
Proof.
  intros Hs. destruct s as [|c s]; [congruence|].
  unfold parse_startend. rewrite parse_date_max_date.
  change (star (Some [4000; 1; 1]) ≫= _)
    with (match time_startend_def (String c s) with
          | Some (g1, g2, g3) => parse_matched g1 g2 g3
          | None => Ok (0, libc.mktime 64060588800)
          end).
  reflexivity.
Qed.

Lemma is_digit_value c : is_digit c = true -> 0 <= ord c - 48 <= 9.
Proof. unfold is_digit. rewrite andb_true_iff, !Z.leb_le. lia. Qed.

(** A greedy run of digits stops at the first character that is none. *)
Lemma span_digits_app (d r : string) :
  all_digits d = true ->
  match r with String c _ => is_digit c = false | EmptyString => True end ->
  span_digits (d +:+ r) = (d, r).
Proof.
  intros Hd Hr. induction d as [|c d IH]; simpl in *.
  - destruct r as [|c r]; [reflexivity|]. simpl. by rewrite Hr.
  - apply andb_true_iff in Hd. destruct Hd as [Hc Hd].
    rewrite Hc, (IH Hd). reflexivity.
Qed.

(** A string of digits is its own greedy run. *)
Lemma span_digits_all (d : string) :
  all_digits d = true -> span_digits d = (d, EmptyString).
Proof.
  intros Hd. induction d as [|c d IH]; simpl in *; [reflexivity|].
  apply andb_true_iff in Hd. destruct Hd as [Hc Hd].
  rewrite Hc, (IH Hd). reflexivity.
Qed.

(** A single date: the range expression captures it as its first group. *)
Lemma time_startend_def_single (d : string) :
  all_digits d = true -> d <> EmptyString ->
  time_startend_def d = Some (Some d, None, None).
Proof.
  intros Hd Hne. unfold time_startend_def.
  rewrite (span_digits_all d Hd). simpl.
  destruct d; [congruence|reflexivity].
Qed.

(** An open-ended range [d-]. *)
Lemma time_startend_def_open (d : string) :
  all_digits d = true -> d <> EmptyString ->
  time_startend_def (d +:+ "-") = Some (Some d, Some "-"%string, None).
Proof.
  intros Hd Hne. unfold time_startend_def.
  rewrite (span_digits_app d "-" Hd) by reflexivity.
  simpl. destruct d; [congruence|reflexivity].
Qed.

(** A closed range [a-b]. *)
Lemma time_startend_def_range (a b : string) :
  all_digits a = true -> a <> EmptyString ->
  all_digits b = true -> b <> EmptyString ->
  time_startend_def (a +:+ "-" +:+ b)
  = Some (Some a, Some ("-" +:+ b), Some b).
Proof.
  intros Ha Hna Hb Hnb. unfold time_startend_def.
  rewrite (span_digits_app a ("-" +:+ b) Ha) by reflexivity.
  destruct b as [|cb b]; [congruence|].
  change (at_end ("-" +:+ String cb b)) with false. cbv iota.
  change ("-" +:+ String cb b)%string with (String "-" (String cb b)).
  change (ord "-" =? 45) with true. cbv iota.
  rewrite (span_digits_all _ Hb). simpl.
  destruct a; [congruence|]. reflexivity.
Qed.

(** The groups of a date: at most six, none negative. *)
Lemma int_acc_nonneg (s : string) (acc : Z) :
  all_digits s = true -> 0 <= acc -> 0 <= int_acc s acc.
Proof.
  revert acc. induction s as [|c s IH]; simpl; intros acc Hs Hacc; [lia|].
  apply andb_true_iff in Hs. destruct Hs as [Hc Hs].
  apply IH; [exact Hs|]. apply is_digit_value in Hc. lia.
Qed.

Lemma digit_pairs_spec (n : nat) (s : string) (gs : list string)
    (r : string) :
  digit_pairs n s = (gs, r) ->
  (length gs <= n)%nat /\ Forall (fun g => all_digits g = true) gs.
Proof.
  revert s gs r. induction n as [|n IH]; simpl; intros s gs r H.
  - injection H as <- <-. split; [simpl; lia|constructor].
  - destruct s as [|a [|b s]];
      try (injection H as <- <-; split; [simpl; lia|constructor]).
    destruct (is_digit a && is_digit b) eqn:E.
    + destruct (digit_pairs n s) as [gs' r'] eqn:E'.
      injection H as <- <-. apply IH in E'. destruct E' as [Hl Hf].
      apply andb_true_iff in E. destruct E as [Ea Eb].
      split; [simpl; lia|]. constructor; [|exact Hf].
      simpl. by rewrite Ea, Eb.
    + injection H as <- <-. split; [simpl; lia|constructor].
Qed.

Lemma datetime_def_spec (s : string) (gs : list string) :
  datetime_def s = Some gs ->
  (1 <= length gs <= 6)%nat /\ Forall (fun g => all_digits g = true) gs.
Proof.
  unfold datetime_def. intros H.
  destruct s as [|a [|b [|c [|d r]]]]; try discriminate.
  destruct (is_digit a && is_digit b && is_digit c && is_digit d) eqn:E;
    [|discriminate].
  destruct (digit_pairs 5 r) as [gs' r'] eqn:E'.
  destruct (at_end r'); [|discriminate]. injection H as <-.
  apply digit_pairs_spec in E'. destruct E' as [Hl Hf].
  rewrite !andb_true_iff in E. destruct E as [[[Ea Eb] Ec] Ed].
  split; [simpl; lia|]. constructor; [|exact Hf].
  simpl. by rewrite Ea, Eb, Ec, Ed.
Qed.

(** A parsed date has one to six components, none negative. *)
Lemma parse_date_spec (date : option string) (comps : list Z) :
  parse_date date = Some comps ->
  (1 <= length comps <= 6)%nat /\ Forall (fun z => 0 <= z) comps.
Proof.
  unfold parse_date. intros H.
  destruct date as [[|c s]|]; try discriminate.
  destruct (datetime_def (String c s)) as [gs|] eqn:E; [|discriminate].
  injection H as <-. apply datetime_def_spec in E. destruct E as [Hl Hf].
  split; [by rewrite length_fmap|].
  rewrite Forall_fmap. eapply Forall_impl; [exact Hf|].
  intros g Hg. simpl. unfold int. apply int_acc_nonneg; [exact Hg|lia].
Qed.

Lemma bool_ext (a b : bool) : (a = true <-> b = true) -> a = b.
Proof. destruct a, b; intuition congruence. Qed.

Lemma make_calendar y m d h mi s :
  datetime.make y m d h mi s 0 =
  if calendar_ok [y; m; d; h; mi; s]
  then Ok (datetime.mk y m d h mi s 0) else Raise ValueError.
Proof.
  unfold datetime.make.
  replace (calendar_ok [y; m; d; h; mi; s])
    with (datetime.check_date_fields y m d
          && datetime.check_time_fields h mi s 0); [reflexivity|].
  apply bool_ext. unfold calendar_ok. simpl nth.
  rewrite andb_true_iff, check_date_fields_spec, check_time_fields_spec.
  rewrite !andb_true_iff, !Z.leb_le. lia.
Qed.

Lemma calendar_ok_defaults (c : list Z) :
  (1 <= length c <= 6)%nat ->
  calendar_ok c
  = calendar_ok [nth 0 c 1970; nth 1 c 1; nth 2 c 1;
                 nth 3 c 0; nth 4 c 0; nth 5 c 0].
Proof. reflexivity. Qed.

(** The constructor accepts the components of a date exactly when each
    lies in its calendar range. *)
Lemma new_defaults (c : list Z) :
  (1 <= length c <= 6)%nat ->
  datetime.new (datetime_defaults c) =
  if calendar_ok c then Ok (datetime_of c) else Raise ValueError.
Proof.
  intros Hl. rewrite calendar_ok_defaults by exact Hl.
  unfold datetime_of. rewrite <- make_calendar.
  destruct c as [|y [|m [|d [|h [|mi [|s [|us c]]]]]]]; simpl in Hl;
    try lia; reflexivity.
Qed.

Lemma calendar_ok_wf (c : list Z) :
  calendar_ok c = true -> datetime_wf (datetime_of c).
Proof.
  unfold calendar_ok, datetime_wf, datetime_of. simpl.
  rewrite check_date_fields_spec, check_time_fields_spec.
  rewrite !andb_true_iff, !Z.leb_le. lia.
Qed.

Lemma calendar_ok_year (c : list Z) :
  calendar_ok c = true -> 1 <= nth 0 c 1970 <= 9999.
Proof. unfold calendar_ok. rewrite !andb_true_iff, !Z.leb_le. lia. Qed.

Lemma calendar_ok_month (c : list Z) :
  calendar_ok c = true -> 1 <= nth 1 c 1 <= 12.
Proof. unfold calendar_ok. rewrite !andb_true_iff, !Z.leb_le. lia. Qed.

(** Out of the calendar range, [next_datetime] raises at its first line. *)
Lemma next_datetime_out_of_range (c : list Z) :
  (1 <= length c <= 6)%nat -> calendar_ok c = false ->
  next_datetime c = Raise ValueError.
Proof.
  intros Hl Hc. unfold next_datetime. rewrite new_defaults, Hc by exact Hl.
  reflexivity.
Qed.

(** Whatever [next_datetime] returns lies [next_epoch] seconds after the
    epoch. *)
Lemma next_datetime_epoch (c : list Z) (e : option datetime.t) :
  (1 <= length c <= 6)%nat ->
  next_datetime c = Ok e ->
  calendar_ok c = true
  /\ exists x, e = Some x /\ datetime.epoch x = next_epoch c.
Proof.
  intros Hl. unfold next_datetime. rewrite new_defaults by exact Hl.
  destruct (calendar_ok c); [|discriminate]. simpl.
  destruct (datetime.add_relativedelta _ 1 0) as [c1|] eqn:E1; [|discriminate].
  destruct (datetime.add_relativedelta _ 0 1) as [c2|] eqn:E2; [|discriminate].
  destruct (datetime.add_timedelta _ 86400) as [c3|] eqn:E3; [|discriminate].
  destruct (datetime.add_timedelta _ 3600) as [c4|] eqn:E4; [|discriminate].
  destruct (datetime.add_timedelta _ 60) as [c5|] eqn:E5; [|discriminate].
  destruct (datetime.add_timedelta _ 1) as [c6|] eqn:E6; [|discriminate].
  simpl. intros [= <-]. split; [reflexivity|].
  apply add_relativedelta_epoch in E1, E2.
  apply add_timedelta_epoch in E3, E4, E5, E6.
  unfold next_epoch.
  destruct c as [|y [|m [|d [|h [|mi [|s [|us c]]]]]]]; simpl in Hl;
    try lia; simpl length; cbv iota; eexists; (split; [reflexivity|]);
    tauto.
Qed.

(** Up to the year 9998 every entry of the [case] dictionary exists. *)
Lemma next_datetime_ok (c : list Z) :
  (1 <= length c <= 6)%nat -> calendar_ok c = true -> nth 0 c 1970 <= 9998 ->
  exists x, next_datetime c = Ok (Some x) /\ datetime.epoch x = next_epoch c.
Proof.
  intros Hl Hc Hy.
  assert (exists e, next_datetime c = Ok e) as [e He].
  { unfold next_datetime. rewrite new_defaults, Hc by exact Hl. simpl.
    pose proof (calendar_ok_wf c Hc) as Hwf.
    pose proof (calendar_ok_year c Hc) as Hyr.
    pose proof (calendar_ok_month c Hc) as Hm.
    destruct (add_relativedelta_ok (datetime_of c) 1 0 Hwf) as [c1 ->];
      [simpl; lia..|].
    destruct (add_relativedelta_ok (datetime_of c) 0 1 Hwf) as [c2 ->].
    { unfold shift_month. simpl.
      destruct (12 <? _) eqn:A; [|destruct (_ <? 1) eqn:B]; simpl;
        rewrite ?Z.ltb_lt, ?Z.ltb_ge in *; lia. }
    { unfold shift_month. simpl.
      destruct (12 <? _) eqn:A; [|destruct (_ <? 1) eqn:B]; simpl;
        rewrite ?Z.ltb_lt, ?Z.ltb_ge in *; lia. }
    destruct (add_timedelta_ok (datetime_of c) 86400 Hwf) as [c3 ->];
      [simpl; lia..|].
    destruct (add_timedelta_ok (datetime_of c) 3600 Hwf) as [c4 ->];
      [simpl; lia..|].
    destruct (add_timedelta_ok (datetime_of c) 60 Hwf) as [c5 ->];
      [simpl; lia..|].
    destruct (add_timedelta_ok (datetime_of c) 1 Hwf) as [c6 ->];
      [simpl; lia..|].
    simpl. eauto. }
  destruct (next_datetime_epoch c e Hl He) as (_ & x & -> & Hx). eauto.
Qed.


Lemma start_eq (g1 : option string) :
  (a ← star (parse_date g1);
   start_dt ← datetime.new (datetime_defaults a);
   mret (datetime.mktime start_dt))
  = match parse_date g1 with
    | None => Raise TypeError
    | Some cs =>
        if calendar_ok cs then Ok (datetime.mktime (datetime_of cs))
        else Raise ValueError
    end.
Proof.
  destruct (parse_date g1) as [cs|] eqn:E; [|reflexivity].
  apply parse_date_spec in E. destruct E as [Hl _]. simpl.
  rewrite (new_defaults cs Hl). by destruct (calendar_ok cs).
Qed.

(** The matched branch, with the constructor read as the calendar check. *)
Lemma parse_matched_eq (g1 g2 g3 : option string) :
  parse_matched g1 g2 g3 =
  start ← (if truthy g1 then
             match parse_date g1 with
             | None => Raise TypeError
             | Some cs =>
                 if calendar_ok cs then Ok (datetime.mktime (datetime_of cs))
                 else Raise ValueError
             end
           else Ok 0);
  match parse_date (end_date g1 g2 g3) with
  | None => Raise TypeError
  | Some ce =>
      end_dt ← next_datetime ce;
      end_ ← strftime_s end_dt;
      mret (start, end_)
  end.
Proof.
  unfold parse_matched. rewrite start_eq. fold (end_date g1 g2 g3).
  destruct (truthy g1); [destruct (parse_date g1) as [cs|]|];
    try reflexivity;
    [destruct (calendar_ok cs); [|reflexivity]|];
    simpl; by destruct (parse_date (end_date g1 g2 g3)).
Qed.

(** A matched range whose dates are in range, up to the year 9998. *)
Lemma parse_matched_ok (g1 g2 g3 : option string) (ce : list Z) :
  parse_date (end_date g1 g2 g3) = Some ce ->
  calendar_ok ce = true -> nth 0 ce 1970 <= 9998 ->
  (truthy g1 = true ->
   exists cs, parse_date g1 = Some cs /\ calendar_ok cs = true) ->
  parse_matched g1 g2 g3 =
  Ok (if truthy g1
      then datetime.mktime (datetime_of (default [] (parse_date g1)))
      else 0,
      libc.mktime (next_epoch ce)).
Proof.
  intros He Hc Hy Hs. rewrite parse_matched_eq, He.
  pose proof (parse_date_spec _ _ He) as [Hl _].
  destruct (next_datetime_ok ce Hl Hc Hy) as (x & Hx & Hepoch).
  rewrite Hx. simpl. unfold datetime.mktime at 1. rewrite Hepoch.
  destruct (truthy g1); [|reflexivity].
  destruct (Hs eq_refl) as (cs & -> & ->). reflexivity.
Qed.

End date_ranges.

(** ** Claims about the date-range parser *)

(** C3 does not hold as stated: a string outside the range grammar is not
    rejected.  For 2018/2019 the match fails, the guard on the match is
    skipped and the defaults are returned: the range from 0 to the epoch
    second of [max_date] (here with the process in UTC), with no error. *)
Lemma malformed_range_returns_default :
  time_startend_def "2018/2019" = None
  /\ parse_startend (tz := libc.utc) (Some "2018/2019"%string)
     = Ok (0, 64060588800)
  /\ ~ raises (parse_startend (tz := libc.utc) (Some "2018/2019"%string)).
Proof.
  split; [reflexivity|]. split; [reflexivity|].
  intros [e He]. discriminate He.
Qed.

(** C3, as amended.  A non-empty string that does not match the range
    grammar is not reported: [parse_startend] returns the defaults, the
    very range of an absent argument.  A string that matches the range
    grammar and has a start date or an end date that does not match the
    date grammar makes [parse_startend] raise, so that no range is
    returned: [parse_date] yields [None], which cannot be unpacked. *)
Theorem parse_startend_malformed {tz : libc.timezone} (s : string) :
  s <> EmptyString ->
  (time_startend_def s = None ->
   parse_startend (Some s) = Ok (0, libc.mktime 64060588800)
   /\ parse_startend (Some s) = parse_startend None)
  /\ (forall g1 g2 g3,
        time_startend_def s = Some (g1, g2, g3) ->
        (truthy g1 = true /\ parse_date g1 = None)
        \/ parse_date (end_date g1 g2 g3) = None ->
        raises (parse_startend (Some s))).
Proof.
  intros Hs. rewrite (parse_startend_unfold s Hs). split.
  - intros ->. split; reflexivity.
  - intros g1 g2 g3 -> H. rewrite parse_matched_eq.
    destruct H as [[Ht Hg] | He].
    + rewrite Ht, Hg. exists TypeError. reflexivity.
    + rewrite He.
      destruct (if truthy g1 then _ else _) as [start|e];
        [exists TypeError|exists e]; reflexivity.
Qed.

Lemma parse_startend_malformed_witness :
  parse_startend (tz := libc.utc) (Some "2018x"%string)
  = Ok (0, 64060588800)
  /\ raises (parse_startend (tz := libc.utc) (Some "20181"%string))
  /\ raises (parse_startend (tz := libc.utc) (Some "2018-201"%string)).
Proof.
  split; [|split].
  - apply (parse_startend_malformed (tz := libc.utc) "2018x");
      [discriminate|reflexivity].
  - apply (proj2 (parse_startend_malformed (tz := libc.utc) "20181"
                    ltac:(discriminate))
             (Some "20181"%string) None None eq_refl).
    left. split; reflexivity.
  - apply (proj2 (parse_startend_malformed (tz := libc.utc) "2018-201"
                    ltac:(discriminate))
             (Some "2018"%string) (Some "-201"%string) (Some "201"%string)
             eq_refl).
    right. reflexivity.
Defined.

(** C10.  Let a string match the range grammar and let its dates match
    the date grammar.  If a component of the start date or of the end
    date lies outside its calendar range, [parse_startend] raises the
    [ValueError] of the datetime constructor: nothing is returned and no
    component is clamped. *)
Theorem parse_startend_out_of_range {tz : libc.timezone}
    (s : string) (g1 g2 g3 : option string) (cs ce : list Z) :
  s <> EmptyString ->
  time_startend_def s = Some (g1, g2, g3) ->
  (truthy g1 = true -> parse_date g1 = Some cs) ->
  parse_date (end_date g1 g2 g3) = Some ce ->
  (truthy g1 = true /\ calendar_ok cs = false) \/ calendar_ok ce = false ->
  parse_startend (Some s) = Raise ValueError.
Proof.
  intros Hs Hm Hcs Hce Hout. rewrite (parse_startend_unfold s Hs), Hm.
  rewrite parse_matched_eq, Hce.
  pose proof (parse_date_spec _ _ Hce) as [Hl _].
  destruct (truthy g1) eqn:Ht.
  - rewrite (Hcs eq_refl). destruct (calendar_ok cs) eqn:Hc.
    + destruct Hout as [[_ ?]|Hout]; [discriminate|].
      simpl. by rewrite (next_datetime_out_of_range ce Hl Hout).
    + reflexivity.
  - destruct Hout as [[? _]|Hout]; [discriminate|].
    simpl. by rewrite (next_datetime_out_of_range ce Hl Hout).
Qed.

Lemma parse_startend_out_of_range_witness :
  parse_startend (tz := libc.utc) (Some "201813"%string) = Raise ValueError
  /\ parse_startend (tz := libc.utc) (Some "2018-20180230"%string)
     = Raise ValueError.
Proof.
  split.
  - apply (parse_startend_out_of_range "201813"
             (Some "201813"%string) None None [2018; 13] [2018; 13]);
      [discriminate|reflexivity|reflexivity|reflexivity|].
    left. split; reflexivity.
  - apply (parse_startend_out_of_range "2018-20180230"
             (Some "2018"%string) (Some "-20180230"%string)
             (Some "20180230"%string) [2018] [2018; 2; 30]);
      [discriminate|reflexivity|reflexivity|reflexivity|].
    right. reflexivity.
Defined.

(** C7 does not hold as stated: for the open range 2018- the end is the
    epoch second of 4000-01-02, one day past [max_date], whereas an absent
    argument yields the epoch second of [max_date] itself (the seconds are
    those of a process in UTC). *)
Lemma open_range_end_is_next_day :
  parse_startend (tz := libc.utc) (Some "2018-"%string)
  = Ok (1514764800, 64060675200)
  /\ parse_startend (tz := libc.utc) None = Ok (0, 64060588800)
  /\ datetime.mktime (tz := libc.utc) (datetime_of [4000; 1; 1])
     = 64060588800
  /\ 64060675200 <> 64060588800.
Proof. repeat split; try reflexivity. lia. Qed.

(** C7, as amended.  For every date [A] in calendar range the open range
    [A-] resolves to the epoch second of [A] and, as its end, one unit
    past [max_date]: [max_date] is a day, so the end is the epoch second
    of 4000-01-02, which is one day (86400 seconds) after the epoch second
    of [max_date], the bound of an absent argument, in every time zone
    that keeps its offset from one of the two days to the other. *)
Theorem parse_startend_open_range {tz : libc.timezone}
    (A : string) (c : list Z) :
  all_digits A = true ->
  parse_date (Some A) = Some c ->
  calendar_ok c = true ->
  parse_startend (Some (A +:+ "-"))
  = Ok (datetime.mktime (datetime_of c),
        datetime.mktime (datetime_of [4000; 1; 2]))
  /\ (libc.utcoffset (64060588800 + 86400) = libc.utcoffset 64060588800 ->
      parse_startend (Some (A +:+ "-"))
      = Ok (datetime.mktime (datetime_of c),
            datetime.mktime (datetime_of [4000; 1; 1]) + 86400)).
Proof.
  intros Hd Hp Hc.
  assert (HA : A <> EmptyString) by (intros ->; discriminate).
  assert (Hres : parse_startend (Some (A +:+ "-"))
                 = Ok (datetime.mktime (datetime_of c),
                       datetime.mktime (datetime_of [4000; 1; 2]))).
  { rewrite parse_startend_unfold by (destruct A; discriminate).
    rewrite (time_startend_def_open A Hd HA).
    rewrite (parse_matched_ok _ _ _ [4000; 1; 1]); try reflexivity.
    - destruct A; [congruence|]. simpl truthy. cbv iota. by rewrite Hp.
    - simpl. lia.
    - intros _. eauto. }
  split; [exact Hres|]. intros Hk. rewrite Hres. do 2 f_equal.
  change (datetime.mktime (datetime_of [4000; 1; 2]))
    with (libc.mktime (64060588800 + 86400)).
  change (datetime.mktime (datetime_of [4000; 1; 1]))
    with (libc.mktime 64060588800).
  unfold libc.mktime. rewrite Hk. lia.
Qed.

Lemma parse_startend_open_range_witness :
  parse_startend (tz := libc.utc) (Some "201803-"%string)
  = Ok (1519862400, 64060675200).
Proof.
  apply (proj2 (parse_startend_open_range (tz := libc.utc)
                  "201803" [2018; 3] eq_refl eq_refl eq_refl) eq_refl).
Defined.



(** Ranges with two dates, in UTC: in order, with the start inside the
    period of the end date, with the start at the end, and out of
    order. *)
Lemma two_date_ranges :
  parse_startend (tz := libc.utc) (Some "2018-2019"%string)
  = Ok (1514764800, 1577836800)
  /\ parse_startend (tz := libc.utc) (Some "201806-2018"%string)
     = Ok (1527811200, 1546300800)
  /\ parse_startend (tz := libc.utc) (Some "2019-2018"%string)
     = Ok (1546300800, 1546300800)
  /\ parse_startend (tz := libc.utc) (Some "2020-2018"%string)
     = Ok (1577836800, 1546300800).
Proof. repeat split. Qed.










(** ** The ceiling of a quotient in double precision

    The quotient of two integers below 2^53 is rounded to a double whose
    ceiling is the ceiling of the exact quotient. *)

Lemma digits2_pos_bounds (p : positive) :
  2 ^ (Z.pos (digits2_pos p) - 1) <= Z.pos p < 2 ^ Z.pos (digits2_pos p).
Proof.
  induction p as [p IH|p IH|]; cbn [digits2_pos].
  - rewrite Pos2Z.inj_succ. replace (Z.succ (Z.pos (digits2_pos p)) - 1)
      with (Z.pos (digits2_pos p)) by lia.
    rewrite Z.pow_succ_r by lia.
    replace (2 ^ Z.pos (digits2_pos p))
      with (2 * 2 ^ (Z.pos (digits2_pos p) - 1)) in *
      by (rewrite <- Z.pow_succ_r by lia; f_equal; lia).
    lia.
  - rewrite Pos2Z.inj_succ. replace (Z.succ (Z.pos (digits2_pos p)) - 1)
      with (Z.pos (digits2_pos p)) by lia.
    rewrite Z.pow_succ_r by lia.
    replace (2 ^ Z.pos (digits2_pos p))
      with (2 * 2 ^ (Z.pos (digits2_pos p) - 1)) in *
      by (rewrite <- Z.pow_succ_r by lia; f_equal; lia).
    lia.
  - simpl. lia.
Qed.

Lemma digits2_pos_unique (p : positive) (d : Z) :
  2 ^ (d - 1) <= Z.pos p < 2 ^ d -> Z.pos (digits2_pos p) = d.
Proof.
  intros [H1 H2]. pose proof (digits2_pos_bounds p) as [H3 H4].
  set (k := Z.pos (digits2_pos p)) in *.
  assert (0 < k) by (unfold k; lia).
  destruct (Z.lt_trichotomy k d) as [Hlt|[Heq|Hgt]]; [|exact Heq|].
  - assert (2 ^ k <= 2 ^ (d - 1)) by (apply Z.pow_le_mono_r; lia). lia.
  - assert (0 <= d).
    { destruct (Z.le_gt_cases 0 d); [assumption|].
      rewrite (Z.pow_neg_r 2 d) in H2 by lia. lia. }
    assert (2 ^ d <= 2 ^ (k - 1)) by (apply Z.pow_le_mono_r; lia). lia.
Qed.

Lemma iter_xO (p k : positive) :
  Z.pos (Pos.iter xO p k) = Z.pos p * 2 ^ Z.pos k.
Proof.
  induction k as [|k IH] using Pos.peano_ind.
  - simpl. lia.
  - rewrite Pos.iter_succ, Pos2Z.inj_xO, IH, Pos2Z.inj_succ.
    rewrite Z.pow_succ_r by lia. lia.
Qed.

(** What a location of the rounding says of the remainder [R] of a
    division by [B]. *)
Definition loc_sem (l : location) (B R : Z) : Prop :=
  0 <= R < B /\
  match l with
  | loc_Exact => R = 0
  | loc_Inexact Lt => 0 < 2 * R < B
  | loc_Inexact Eq => 2 * R = B
  | loc_Inexact Gt => B < 2 * R
  end.

Lemma new_location_sem (B r : Z) :
  0 <= r < B -> loc_sem (new_location B r) B r.
Proof.
  intros Hr. split; [exact Hr|].
  unfold new_location, new_location_even, new_location_odd.
  destruct (Z.even B) eqn:Ev.
  - destruct (Z.eqb_spec r 0) as [->|Hn]; [reflexivity|].
    destruct (Z.compare_spec (2 * r) B); lia.
  - destruct (Z.eqb_spec r 0) as [->|Hn]; [reflexivity|].
    assert (Hodd : Z.odd B = true) by (rewrite <- Z.negb_even, Ev; reflexivity).
    apply Z.odd_spec in Hodd. destruct Hodd as [k Hk].
    destruct (Z.compare_spec (2 * r + 1) B); lia.
Qed.

Lemma round_nearest_even_sem (l : location) (B R Mq : Z) :
  loc_sem l B R ->
  (round_nearest_even Mq l = Mq /\ 2 * R <= B)
  \/ (round_nearest_even Mq l = Mq + 1 /\ 2 * R >= B).
Proof.
  intros [Hr Hl]. destruct l as [|[| |]]; cbn [round_nearest_even].
  - left. split; [reflexivity|lia].
  - destruct (Z.even Mq); [left|right]; split; try reflexivity; lia.
  - left. split; [reflexivity|lia].
  - right. split; [reflexivity|lia].
Qed.

Lemma loc_of_shr_record_of_loc (m : Z) (l : location) :
  loc_of_shr_record (shr_record_of_loc m l) = l
  /\ shr_m (shr_record_of_loc m l) = m.
Proof. destruct l as [|[| |]]; split; reflexivity. Qed.

(** One shift to the right halves the quotient and doubles the divisor. *)
Lemma shr_1_sem (q : positive) (l : location) (B R : Z) :
  loc_sem l B R -> 2 <= Z.pos q ->
  exists (q' : positive) (bit : Z),
    shr_m (shr_1 (shr_record_of_loc (Z.pos q) l)) = Z.pos q'
    /\ Z.pos q = 2 * Z.pos q' + bit
    /\ loc_sem (loc_of_shr_record (shr_1 (shr_record_of_loc (Z.pos q) l)))
               (2 * B) (bit * B + R).
Proof.
  intros [Hr Hl] Hq.
  destruct q as [q'|q'|]; [exists q', 1|exists q', 0|lia];
    (split; [destruct l as [|[| |]]; reflexivity|]);
    (split; [lia|]);
    destruct l as [|[| |]]; unfold loc_sem;
    cbn [shr_record_of_loc shr_1 loc_of_shr_record orb]; lia.
Qed.

Lemma shr_fexp_53 (m : positive) (e : Z) (l : location) :
  Z.pos (digits2_pos m) = 53 -> -1021 <= e ->
  shr_fexp 53 1024 (Z.pos m) e l = (shr_record_of_loc (Z.pos m) l, e).
Proof.
  intros Hd He. unfold shr_fexp, Zdigits2. rewrite Hd. unfold fexp, emin.
  replace (Z.max (53 + e - 53) (3 - 1024 - 53) - e) with 0 by lia.
  reflexivity.
Qed.

Lemma shr_fexp_54 (m : positive) (e : Z) (l : location) :
  Z.pos (digits2_pos m) = 54 -> -1021 <= e ->
  shr_fexp 53 1024 (Z.pos m) e l
  = (shr_1 (shr_record_of_loc (Z.pos m) l), e + 1).
Proof.
  intros Hd He. unfold shr_fexp, Zdigits2. rewrite Hd. unfold fexp, emin.
  replace (Z.max (54 + e - 53) (3 - 1024 - 53) - e) with 1 by lia.
  reflexivity.
Qed.

(** A mantissa of 53 bits is kept as it is. *)
Lemma binary_round_aux_53 (s : bool) (m : positive) (e : Z) :
  2 ^ 52 <= Z.pos m < 2 ^ 53 -> -1021 <= e <= 971 ->
  binary_round_aux 53 1024 s (Z.pos m) e loc_Exact = S754_finite s m e.
Proof.
  intros Hm He. pose proof (digits2_pos_unique m 53 Hm) as Hd.
  unfold binary_round_aux. rewrite (shr_fexp_53 m e loc_Exact Hd) by lia.
  cbn [shr_record_of_loc shr_m loc_of_shr_record round_nearest_even].
  rewrite (shr_fexp_53 m e loc_Exact Hd) by lia.
  cbn [shr_record_of_loc shr_m].
  assert ((e <=? 1024 - 53) = true) as -> by (apply Z.leb_le; lia).
  reflexivity.
Qed.

(** After rounding, a mantissa of 2^53 is shifted once more. *)
Lemma binary_round_final (s : bool) (M0 : Z) (e0 : Z) :
  2 ^ 52 <= M0 <= 2 ^ 53 -> -1021 <= e0 <= 970 ->
  exists (M : positive) (e : Z),
    (let '(mrs, e'') := shr_fexp 53 1024 M0 e0 loc_Exact in
     match shr_m mrs with
     | Z0 => S754_zero s
     | Z.pos m =>
         if e'' <=? 1024 - 53 then S754_finite s m e'' else S754_infinity s
     | Z.neg _ => S754_nan
     end) = S754_finite s M e
    /\ (Z.pos M = M0 /\ e = e0 \/ M0 = 2 * Z.pos M /\ e = e0 + 1).
Proof.
  intros Hm He.
  destruct M0 as [|m|m]; try lia.
  destruct (Z.eq_dec (Z.pos m) (2 ^ 53)) as [E|E].
  - injection E as ->. exists (2 ^ 52)%positive, (e0 + 1).
    rewrite shr_fexp_54 by (try reflexivity; lia).
    cbn [shr_record_of_loc shr_1 shr_m].
    assert ((e0 + 1 <=? 1024 - 53) = true) as -> by (apply Z.leb_le; lia).
    split; [reflexivity|]. right. split; reflexivity.
  - exists m, e0.
    rewrite shr_fexp_53 by (try apply digits2_pos_unique; lia).
    cbn [shr_record_of_loc shr_m].
    assert ((e0 <=? 1024 - 53) = true) as -> by (apply Z.leb_le; lia).
    split; [reflexivity|]. left. split; reflexivity.
Qed.

Lemma of_int_normal (n : Z) :
  1 <= n < 2 ^ 53 ->
  exists (m : positive) (e : Z),
    binary64.of_int n = S754_finite false m e
    /\ -52 <= e <= 0
    /\ Z.pos m = n * 2 ^ (- e)
    /\ 2 ^ 52 <= Z.pos m < 2 ^ 53.
Proof.
  intros Hn. destruct n as [|p|p]; try lia.
  unfold binary64.of_int, binary_normalize, binary_round.
  pose proof (digits2_pos_bounds p) as Hb.
  set (d := Z.pos (digits2_pos p)) in *.
  assert (Hd : 1 <= d <= 53).
  { split; [unfold d; lia|].
    destruct (Z.le_gt_cases d 53) as [H|H]; [exact H|].
    assert (2 ^ 53 <= 2 ^ (d - 1)) by (apply Z.pow_le_mono_r; lia). lia. }
  unfold shl_align, fexp, emin.
  replace (Z.max (d + 0 - 53) (3 - 1024 - 53) - 0) with (d - 53) by lia.
  replace (Z.max (d + 0 - 53) (3 - 1024 - 53)) with (d - 53) by lia.
  destruct (d - 53) as [|k|k] eqn:E; try lia.
  - assert (d = 53) as Hd53 by lia. rewrite Hd53 in Hb.
    exists p, 0. rewrite binary_round_aux_53 by (simpl in Hb |- *; lia).
    change (2 ^ (53 - 1)) with (2 ^ 52) in Hb.
    repeat split; try lia.
  - exists (Pos.iter xO p k), (Z.neg k).
    assert (Hk : Z.pos k = 53 - d) by lia.
    assert (Hm : Z.pos (Pos.iter xO p k) = Z.pos p * 2 ^ (53 - d))
      by (rewrite iter_xO, Hk; reflexivity).
    assert (Hr : 2 ^ 52 <= Z.pos (Pos.iter xO p k) < 2 ^ 53).
    { rewrite Hm.
      replace (2 ^ 52) with (2 ^ (d - 1) * 2 ^ (53 - d))
        by (rewrite <- Z.pow_add_r by lia; f_equal; lia).
      replace (2 ^ 53) with (2 ^ d * 2 ^ (53 - d))
        by (rewrite <- Z.pow_add_r by lia; f_equal; lia).
      assert (0 < 2 ^ (53 - d)) by (apply Z.pow_pos_nonneg; lia).
      nia. }
    rewrite binary_round_aux_53 by (try exact Hr; lia).
    split; [reflexivity|]. split; [lia|]. split; [|exact Hr].
    rewrite Hm. do 2 f_equal. lia.
Qed.

Lemma binary_round_aux_sem (q : positive) (e : Z) (l : location) (B R : Z) :
  2 ^ 52 <= Z.pos q < 2 ^ 54 -> -1021 <= e <= 900 -> loc_sem l B R ->
  exists (M : positive) (e'' k Mq R' M0 : Z),
    binary_round_aux 53 1024 false (Z.pos q) e l = S754_finite false M e''
    /\ (k = 0 \/ k = 1)
    /\ Z.pos q * B + R = Mq * (2 ^ k * B) + R'
    /\ 0 <= R' < 2 ^ k * B
    /\ (M0 = Mq /\ 2 * R' <= 2 ^ k * B \/ M0 = Mq + 1 /\ 2 * R' >= 2 ^ k * B)
    /\ (Z.pos M = M0 /\ e'' = e + k \/ M0 = 2 * Z.pos M /\ e'' = e + k + 1).
Proof.
  intros Hq He Hl. unfold binary_round_aux.
  destruct (Z.lt_ge_cases (Z.pos q) (2 ^ 53)) as [H53|H54].
  - rewrite shr_fexp_53 by (try apply digits2_pos_unique; lia).
    destruct (loc_of_shr_record_of_loc (Z.pos q) l) as [-> ->].
    pose proof (round_nearest_even_sem l B R (Z.pos q) Hl) as Hr.
    set (M0 := round_nearest_even (Z.pos q) l) in *.
    destruct (binary_round_final false M0 e) as (M & e'' & -> & HM);
      [lia|lia|].
    exists M, e'', 0, (Z.pos q), R, M0.
    destruct Hl as [HR _].
    split; [reflexivity|]. split; [auto|].
    change (2 ^ 0) with 1. rewrite !Z.mul_1_l, Z.add_0_r.
    repeat split; try lia; try exact HM.
  - rewrite shr_fexp_54
      by (try (apply digits2_pos_unique; change (54 - 1) with 53); lia).
    destruct (shr_1_sem q l B R Hl ltac:(lia)) as (q' & bit & -> & Hq' & Hl').
    set (l' := loc_of_shr_record _) in *.
    pose proof (round_nearest_even_sem l' _ _ (Z.pos q') Hl') as Hr.
    set (M0 := round_nearest_even (Z.pos q') l') in *.
    destruct Hl' as [HR' _]. destruct Hl as [HR _].
    assert (Hbit : 0 <= bit <= 1) by nia.
    destruct (binary_round_final false M0 (e + 1)) as (M & e'' & -> & HM);
      [lia|lia|].
    exists M, e'', 1, (Z.pos q'), (bit * B + R), M0.
    split; [reflexivity|]. split; [auto|].
    change (2 ^ 1) with 2.
    repeat split; try lia; try exact HM.
Qed.

Lemma rounded_quotient_ceil (a b K P B G T Mq R M0 : Z) :
  0 < b -> 0 < P -> 0 < B -> 0 < G ->
  b * (K - 1) < a <= b * K ->
  T = a * P -> G * B = b * P -> T = Mq * B + R -> 0 <= R < B -> B < 2 * P ->
  (M0 = Mq /\ 2 * R <= B) \/ (M0 = Mq + 1 /\ 2 * R >= B) ->
  (K - 1) * G < M0 <= K * G.
Proof.
  intros Hb HP HB HG HK HT HGB HTq HR HBP HM.
  assert (Hup : T <= K * G * B).
  { replace (K * G * B) with (b * K * P)
      by (rewrite <- (Z.mul_assoc K G B), HGB; ring).
    rewrite HT. apply Z.mul_le_mono_nonneg_r; lia. }
  assert (Hlo : (K - 1) * G * B + P <= T).
  { replace ((K - 1) * G * B) with (b * (K - 1) * P)
      by (rewrite <- (Z.mul_assoc _ G B), HGB; ring).
    rewrite HT.
    replace (b * (K - 1) * P + P) with ((b * (K - 1) + 1) * P) by ring.
    apply Z.mul_le_mono_nonneg_r; lia. }
  assert (H1 : Mq <= K * G).
  { apply (Z.mul_le_mono_pos_r _ _ B HB). lia. }
  assert (H2 : (K - 1) * G <= Mq).
  { apply Z.lt_succ_r. apply (Z.mul_lt_mono_pos_r B _ _ HB).
    unfold Z.succ. lia. }
  split.
  - destruct (Z.eq_dec Mq ((K - 1) * G)) as [E|E].
    + assert (P <= R) by nia. destruct HM as [[-> ?]|[-> ?]]; lia.
    + destruct HM as [[-> ?]|[-> ?]]; lia.
  - destruct HM as [[-> ?]|[-> ?]]; [lia|].
    assert (0 < R) by lia. assert (Mq < K * G) by nia. lia.
Qed.

Lemma ceil_finite_spec (M : positive) (e K : Z) :
  e <= 0 -> (K - 1) * 2 ^ (- e) < Z.pos M <= K * 2 ^ (- e) ->
  binary64.ceil_finite false M e = K.
Proof.
  intros He HK. unfold binary64.ceil_finite.
  destruct (Z.leb_spec 0 e) as [H0|H0].
  - assert (e = 0) as -> by lia. change (2 ^ (- 0)) with 1 in HK.
    change (2 ^ 0) with 1. lia.
  - assert (0 < 2 ^ (- e)) by (apply Z.pow_pos_nonneg; lia).
    assert (- Z.pos M / 2 ^ (- e) = - K); [|lia].
    symmetry. apply (Z.div_unique_pos _ _ _ (K * 2 ^ (- e) - Z.pos M)); lia.
Qed.

Lemma div_ceil_exact (a b : Z) :
  1 <= a < 2 ^ 53 -> 1 <= b < 2 ^ 53 ->
  exists (m : positive) (e : Z),
    binary64.div (binary64.of_int a) (binary64.of_int b) = S754_finite false m e
    /\ binary64.ceil_finite false m e = ceil_div a b.
Proof.
  intros Ha Hb.
  destruct (of_int_normal a Ha) as (m1 & e1 & -> & He1 & Hm1 & Hr1).
  destruct (of_int_normal b Hb) as (m2 & e2 & -> & He2 & Hm2 & Hr2).
  unfold binary64.div, SFdiv, SFdiv_core_binary, Zdigits2.
  rewrite (digits2_pos_unique m1 53 Hr1), (digits2_pos_unique m2 53 Hr2).
  unfold fexp, emin.
  replace (Z.min (Z.max (53 + e1 - (53 + e2) - 53) (3 - 1024 - 53)) (e1 - e2))
    with (e1 - e2 - 53) by lia.
  replace (e1 - e2 - (e1 - e2 - 53)) with 53 by lia.
  cbv iota. rewrite Z.shiftl_mul_pow2 by lia.
  pose proof (Z_div_mod (Z.pos m1 * 2 ^ 53) (Z.pos m2) ltac:(lia)) as Hdiv.
  destruct (Z.div_eucl (Z.pos m1 * 2 ^ 53) (Z.pos m2)) as [q r].
  destruct Hdiv as [Hqr Hr].
  assert (Hq : 2 ^ 52 <= q < 2 ^ 54) by nia.
  destruct q as [|q|q]; try lia.
  change (xorb false false) with false.
  destruct (binary_round_aux_sem q (e1 - e2 - 53) (new_location (Z.pos m2) r)
              (Z.pos m2) r Hq ltac:(lia) (new_location_sem _ _ Hr))
    as (M & e'' & k & Mq & R' & M0 & -> & Hk & HT & HR' & HM0 & HM).
  exists M, e''. split; [reflexivity|].
  set (K := ceil_div a b).
  assert (HK : b * (K - 1) < a <= b * K).
  { unfold K, ceil_div. pose proof (Z.div_mod (- a) b ltac:(lia)).
    pose proof (Z.mod_pos_bound (- a) b ltac:(lia)). lia. }
  set (e0 := e1 - e2 - 53 + k) in *.
  assert (He0 : e0 <= 0) by lia.
  set (G := 2 ^ (- e0)). set (P := 2 ^ (53 - e1)).
  assert (HG : 0 < G) by (apply Z.pow_pos_nonneg; lia).
  assert (HP : 2 ^ 53 <= P) by (apply Z.pow_le_mono_r; lia).
  assert (H2k : 2 ^ k = 1 \/ 2 ^ k = 2) by (destruct Hk as [-> | ->]; auto).
  assert (HGB : G * (2 ^ k * Z.pos m2) = b * P).
  { unfold G, P. rewrite Hm2.
    replace (2 ^ (- e0) * (2 ^ k * (b * 2 ^ (- e2))))
      with (b * (2 ^ (- e0) * 2 ^ k * 2 ^ (- e2))) by ring.
    rewrite <- !Z.pow_add_r by lia. do 2 f_equal. lia. }
  assert (HTP : Z.pos m1 * 2 ^ 53 = a * P).
  { unfold P. rewrite Hm1, <- Z.mul_assoc, <- Z.pow_add_r by lia.
    do 2 f_equal. lia. }
  pose proof (rounded_quotient_ceil a b K P (2 ^ k * Z.pos m2) G
                (Z.pos m1 * 2 ^ 53) Mq R' M0
                ltac:(lia) ltac:(lia) ltac:(lia) HG HK HTP HGB
                ltac:(lia) HR' ltac:(lia) HM0) as HKG.
  destruct HM as [[HM ->]|[HM ->]].
  - apply ceil_finite_spec; [exact He0|]. fold G. lia.
  - fold e0. destruct (Z.eq_dec e0 0) as [E0|E0].
    + unfold G in HKG. rewrite E0 in HKG |- *. change (2 ^ (- 0)) with 1 in HKG.
      unfold binary64.ceil_finite. change (0 <=? 0 + 1) with true. cbv iota.
      change (2 ^ (0 + 1)) with 2. lia.
    + apply ceil_finite_spec; [lia|].
      assert (G = 2 * 2 ^ (- (e0 + 1))) as HG2.
      { unfold G. rewrite <- Z.pow_succ_r by lia. f_equal. lia. }
      rewrite HG2 in HKG. nia.
Qed.

(** Below 2^53 (byte counts up to 8 PiB) the multiplier computed in
    double precision is the ceiling of the exact quotient. *)
Lemma ceil_div_exact (q c : Z) :
  0 <= q < 2 ^ 53 -> 1 <= c < 2 ^ 53 ->
  binary64.ceil_div q c = Ok (ceil_div q c).
Proof.
  intros Hq Hc. unfold binary64.ceil_div, binary64.truediv, binary64.float.
  destruct (Z.eq_dec q 0) as [->|Hq0].
  - destruct (of_int_normal c Hc) as (m2 & e2 & -> & _). reflexivity.
  - destruct (div_ceil_exact q c ltac:(lia) Hc) as (m & e & Hd & Hv).
    destruct (of_int_normal q ltac:(lia)) as (m1 & e1 & E1 & _).
    destruct (of_int_normal c Hc) as (m2 & e2 & E2 & _).
    rewrite E1, E2 in Hd |- *. cbn [mbind py_bind].
    rewrite Hd. cbn [binary64.ceil]. by rewrite Hv.
Qed.

(** An integer below 2^53 is a double: zero, or a mantissa of 53 bits. *)
Lemma float_exact (n : Z) :
  0 <= n < 2 ^ 53 ->
  binary64.float n
  = Ok (if n =? 0 then S754_zero false else binary64.of_int n)
  /\ (n <> 0 -> exists m e, binary64.of_int n = S754_finite false m e).
Proof.
  intros Hn. unfold binary64.float.
  destruct (Z.eqb_spec n 0) as [->|Hn0]; [split; [reflexivity|congruence]|].
  destruct (of_int_normal n ltac:(lia)) as (m & e & -> & _). eauto.
Qed.

(** From 2^53 on the two differ, and beyond the doubles the conversion
    raises. *)
Lemma ceil_div_binary64 :
  binary64.ceil_div (2 ^ 53 + 1) 1 = Ok (2 ^ 53)
  /\ ceil_div (2 ^ 53 + 1) 1 = 2 ^ 53 + 1
  /\ binary64.ceil_div (2 ^ 1024) 1 = Raise OverflowError
  /\ binary64.ceil_div 1 (2 ^ 1024) = Raise OverflowError
  /\ binary64.ceil_div (2 ^ 1024) 0 = Raise OverflowError
  /\ binary64.ceil_div 1 0 = Raise ZeroDivisionError.
Proof. repeat split; vm_compute; reflexivity. Qed.

(** ** Core hours *)

Section core_hours_facts.
Context {sge_api : sge.api}.
Variable backup_node_mpc : list rule.

(** [ceil_div q c] is the least number of portions of size [c] that hold
    [q]. *)
Lemma ceil_div_spec (q c : Z) :
  0 < c -> c * (ceil_div q c - 1) < q <= c * ceil_div q c.
Proof. intros Hc. unfold ceil_div. Z.div_mod_to_equations. nia. Qed.

Lemma ceil_div_ge_1 (q c : Z) : 1 <= q -> 1 <= c -> 1 <= ceil_div q c.
Proof. intros Hq Hc. pose proof (ceil_div_spec q c ltac:(lia)). nia. Qed.

(** Without a request or without memory per core: the warning, and the
    raw time twice. *)
Lemma core_hours_warning (r : record) :
  mem_req_of r = ReqNone \/ mem_core_of backup_node_mpc r = None ->
  core_hours backup_node_mpc r
  = Ok (ru_wallclock r * slots r, ru_wallclock r * slots r, [warning r]).
Proof.
  unfold core_hours. intros [-> | ->]; [reflexivity|].
  by destruct (mem_req_of r).
Qed.

(** The loop over the table has no [break]: the last matching rule
    decides, that is, the first match of the table read bottom to top. *)
Lemma backup_mem_core_last (host : string) (init : option Z) :
  backup_mem_core backup_node_mpc host init
  = match first_match_spec (rev backup_node_mpc) host with
    | Some m => Some m
    | None => init
    end.
Proof.
  unfold backup_mem_core. revert init.
  induction backup_node_mpc as [|b rules IH] using rev_ind; intros init.
  - reflexivity.
  - rewrite foldl_app, rev_app_distr. simpl.
    destruct (re_match (regex b) host); [reflexivity|]. apply IH.
Qed.

Lemma first_match_spec_None (rules : list rule) (host : string) :
  first_match_spec rules host = None
  <-> Forall (fun b => re_match (regex b) host = false) rules.
Proof.
  induction rules as [|b rules IH]; cbn [first_match_spec].
  - split; [constructor|reflexivity].
  - destruct (re_match (regex b) host) eqn:E.
    + split; [discriminate|]. intros H. inversion H. congruence.
    + rewrite IH. split; [by constructor|]. intros H. by inversion H.
Qed.

Lemma backup_mem_core_none_Forall (host : string) (init : option Z) :
  Forall (fun b => re_match (regex b) host = false) backup_node_mpc ->
  backup_mem_core backup_node_mpc host init = init.
Proof.
  intros H. rewrite backup_mem_core_last.
  apply Forall_rev, first_match_spec_None in H. by rewrite H.
Qed.

(** The request is [None] when the category has none that can be read. *)
Lemma mem_req_of_None (r : record) :
  mem_req_of r = ReqNone <-> no_request r = true.
Proof.
  unfold mem_req_of, no_request.
  destruct (sge.category_resource (category r) "h_vmem") as [[|c s]|];
    [split; discriminate| |tauto].
  destruct (sge.number (Some (String c s))); split; (discriminate || tauto).
Qed.

Lemma node_mem_core_None (r : record) :
  node_mem_core r = None <-> no_node_memory r = true.
Proof.
  unfold node_mem_core, no_node_memory.
  destruct (sge.category_resource (category r) "node_type") as [[|c nt]|];
    [tauto| |tauto].
  destruct (sge.number (sge.node_type (String c nt) "num_pe")) as [n|];
    [|tauto].
  destruct (sge.number (sge.node_type (String c nt) "memory")) as [m|];
    [|cbn [nonzero]; rewrite andb_false_r; tauto].
  destruct (nonzero (Some n) && nonzero (Some m)); split;
    (discriminate || tauto).
Qed.

Lemma no_rule_Forall (rules : list rule) (host : string) :
  no_rule rules host = true
  <-> Forall (fun b => re_match (regex b) host = false) rules.
Proof.
  unfold no_rule. induction rules as [|b rules IH]; cbn [forallb].
  - split; [constructor|reflexivity].
  - rewrite andb_true_iff, negb_true_iff, IH. split.
    + intros [? ?]. by constructor.
    + intros H. by inversion H.
Qed.

(** The memory per core is [None] when the node type gives none and no
    pattern of the table matches the host name. *)
Lemma mem_core_of_None (r : record) :
  mem_core_of backup_node_mpc r = None
  <-> no_node_memory r = true
      /\ no_rule backup_node_mpc (hostname r) = true.
Proof.
  unfold mem_core_of. rewrite <- node_mem_core_None, no_rule_Forall.
  rewrite backup_mem_core_last.
  destruct (node_mem_core r) as [n|] eqn:E.
  - destruct (nonzero (Some n));
      [split; [discriminate|intros [? _]; discriminate]|].
    destruct (first_match_spec (rev backup_node_mpc) (hostname r));
      split; try discriminate; intros [? _]; discriminate.
  - cbn [nonzero].
    destruct (first_match_spec (rev backup_node_mpc) (hostname r)) eqn:F.
    + split; [discriminate|]. intros [_ H].
      apply Forall_rev, first_match_spec_None in H. congruence.
    + apply first_match_spec_None in F. apply Forall_rev in F.
      rewrite rev_involutive in F. tauto.
Qed.

(** A request of zero bytes: the multiplier is 0, and so is the adjusted
    time. *)
Lemma core_hours_zero_request (r : record) (c : Z) :
  mem_req_of r = ReqNum 0 ->
  mem_core_of backup_node_mpc r = Some c ->
  1 <= c < 2 ^ 53 ->
  core_hours backup_node_mpc r = Ok (ru_wallclock r * slots r, 0, []).
Proof.
  intros Hq Hc Hc1. unfold core_hours. rewrite Hq, Hc.
  rewrite ceil_div_exact by lia. cbn [mbind py_bind].
  change (ceil_div 0 c) with (- (0 / c)). rewrite Z.div_0_l by lia.
  by rewrite Z.mul_0_r.
Qed.

(** A request with an empty value is not converted and not [None]: with
    the memory per core known, the division raises. *)
Lemma core_hours_empty_request (r : record) (c : Z) :
  sge.category_resource (category r) "h_vmem" = Some EmptyString ->
  mem_core_of backup_node_mpc r = Some c ->
  0 <= c < 2 ^ 53 ->
  core_hours backup_node_mpc r = Raise TypeError.
Proof.
  intros Hq Hc Hc1. unfold core_hours, mem_req_of. rewrite Hq, Hc.
  by rewrite (proj1 (float_exact c Hc1)).
Qed.

(** A memory per core of 0 is not [None]: with a request that is a
    number, the division raises. *)
Lemma core_hours_zero_mem_core (r : record) (q : Z) :
  mem_req_of r = ReqNum q ->
  mem_core_of backup_node_mpc r = Some 0 ->
  0 <= q < 2 ^ 53 ->
  core_hours backup_node_mpc r = Raise ZeroDivisionError.
Proof.
  intros Hq Hc Hq1. unfold core_hours. rewrite Hq, Hc.
  unfold binary64.ceil_div, binary64.truediv.
  change (binary64.float 0) with (Ok (S754_zero false)).
  cbn [mbind py_bind]. by rewrite (proj1 (float_exact q Hq1)).
Qed.

(** The memory per core is 0 when the node type has less memory than
    cores and no pattern of the table matches the host name. *)
Lemma mem_core_of_zero (r : record) :
  node_mem_core r = Some 0 ->
  no_rule backup_node_mpc (hostname r) = true ->
  mem_core_of backup_node_mpc r = Some 0.
Proof.
  intros Hn Hr. unfold mem_core_of. rewrite Hn. cbn [nonzero Z.eqb negb].
  apply backup_mem_core_none_Forall. by apply no_rule_Forall.
Qed.

(** X16.  For a record whose category carries a memory request of at
    least one byte and whose memory per core is known and at least one
    byte, both below 2^53, [core_hours] returns the wallclock time times
    the slots and, adjusted, that product times the ceiling of request
    over memory per core: the quotient is computed in double precision,
    and its ceiling is that of the exact quotient.  The multiplier is at
    least 1, and the adjusted time is at least the raw time when the raw
    time is not negative. *)
Theorem core_hours_adjusted (r : record) (q c : Z) :
  mem_req_of r = ReqNum q ->
  mem_core_of backup_node_mpc r = Some c ->
  1 <= q < 2 ^ 53 -> 1 <= c < 2 ^ 53 ->
  core_hours backup_node_mpc r
  = Ok (ru_wallclock r * slots r,
        ru_wallclock r * slots r * ceil_div q c, [])
  /\ c * (ceil_div q c - 1) < q <= c * ceil_div q c
  /\ 1 <= ceil_div q c
  /\ (0 <= ru_wallclock r * slots r ->
      ru_wallclock r * slots r <= ru_wallclock r * slots r * ceil_div q c).
Proof.
  intros Hq Hc Hq1 Hc1. unfold core_hours. rewrite Hq, Hc.
  rewrite ceil_div_exact by lia. cbn [mbind py_bind].
  pose proof (ceil_div_ge_1 q c ltac:(lia) ltac:(lia)).
  repeat split; try (apply ceil_div_spec; lia); try lia. nia.
Qed.

End core_hours_facts.

#[local] Existing Instance sge_model.api.

(** The table initialises under the instance of the [sge] lookups. *)
Lemma table_initialised :
  backup_node_mpc_init = Ok sge_model.backup_node_mpc.
Proof. reflexivity. Qed.

(** C1 fails on the code.  A request of zero bytes is a request and the
    memory per core is known, 16G; the multiplier is to be at least 1 and
    the adjusted time at least the raw time, 14400.  [core_hours]
    multiplies by the ceiling of the quotient, 0, and returns 0 as the
    adjusted time: the job is not billed.  This is so for every record
    with a request of zero bytes ([core_hours_zero_request]). *)
Lemma zero_request_not_billed :
  let r := job_of "alice" "ENV" "-l h_vmem=0,node_type=24core-384G" "d8s0b1" in
  mem_req_of r = ReqNum 0
  /\ mem_core_of sge_model.backup_node_mpc r = Some 17179869184
  /\ binary64.ceil_div 0 17179869184 = Ok 0
  /\ core_hours sge_model.backup_node_mpc r = Ok (14400, 0, [])
  /\ ~ (14400 <= 0).
Proof. repeat split; try (vm_compute; reflexivity). lia. Qed.

(** One hour on four slots, 16G per core, 40G requested: raw 14400,
    multiplier 3, adjusted 43200. *)
Lemma core_hours_adjusted_witness :
  core_hours sge_model.backup_node_mpc
    (job_of "alice" "ENV" "-l h_vmem=40G,node_type=24core-384G" "d8s0b1")
  = Ok (14400, 43200, [])
  /\ ceil_div 42949672960 17179869184 = 3.
Proof.
  pose proof (core_hours_adjusted sge_model.backup_node_mpc
    (job_of "alice" "ENV" "-l h_vmem=40G,node_type=24core-384G" "d8s0b1")
    42949672960 17179869184 eq_refl eq_refl ltac:(lia) ltac:(lia))
    as (Hc & _).
  exact (conj Hc eq_refl).
Defined.

Lemma strip_prefix_Some (p s r : string) :
  strip_prefix p s = Some r -> s = (p +:+ r)%string.
Proof.
  revert s. induction p as [|a p IH]; intros s; simpl.
  - by intros [= ->].
  - destruct s as [|b s]; [discriminate|].
    destruct (Ascii.eqb_spec a b) as [->|]; [|discriminate].
    intros Hs. by rewrite (IH s Hs).
Qed.

(** Whatever the first rule matches, the second rule matches too: under
    the loop of [core_hours] the first rule never decides. *)
Lemma first_rule_shadowed (host : string) :
  re_match (Seq (Lit "h7s3b1") (Cls "56")) host = true ->
  re_match (Seq (Lit "h") (Seq (Cls "12367") (Lit "s"))) host = true.
Proof.
  unfold re_match. cbn [re_run].
  destruct (strip_prefix "h7s3b1" host) as [rest|] eqn:E; [|discriminate].
  apply strip_prefix_Some in E. subst host. intros _. reflexivity.
Qed.

(** C2 fails on the code.  The host h7s3b15n1 has no node type in its
    category; it matches the first rule of the table (64G over 24 cores)
    and the second (24G over 12 cores).  First match gives the memory per
    core of the first rule; [core_hours] uses that of the second. *)
Lemma first_match_violated :
  let r := job_of "alice" "ENV" "-l h_vmem=4G" "h7s3b15n1" in
  node_mem_core r = None
  /\ first_match_spec sge_model.backup_node_mpc (hostname r) = Some 2863311530
  /\ mem_core_of sge_model.backup_node_mpc r = Some 2147483648
  /\ core_hours sge_model.backup_node_mpc r = Ok (14400, 28800, []).
Proof. repeat split; reflexivity. Qed.

(** ** The monoid of usage totals *)

Lemma usage_add_assoc (a b c : usage.t) :
  usage.add a (usage.add b c) = usage.add (usage.add a b) c.
Proof. unfold usage.add. simpl. f_equal; lia. Qed.

Lemma usage_add_comm (a b : usage.t) : usage.add a b = usage.add b a.
Proof. unfold usage.add. f_equal; lia. Qed.

Lemma usage_add_zero_l (a : usage.t) : usage.add usage.zero a = a.
Proof. by destruct a. Qed.

Lemma usage_add_zero_r (a : usage.t) : usage.add a usage.zero = a.
Proof. rewrite usage_add_comm. apply usage_add_zero_l. Qed.

Lemma merge_usage_lookup (a b : gmap string usage.t) (u : string) :
  merge_usage a b !! u
  = match a !! u, b !! u with
    | Some x, Some y => Some (usage.add x y)
    | Some x, None => Some x
    | None, o => o
    end.
Proof.
  unfold merge_usage. rewrite lookup_union_with.
  by destruct (a !! u), (b !! u).
Qed.

Lemma merge_usage_assoc (a b c : gmap string usage.t) :
  merge_usage a (merge_usage b c) = merge_usage (merge_usage a b) c.
Proof.
  apply map_eq. intros u. rewrite !merge_usage_lookup.
  destruct (a !! u), (b !! u), (c !! u); try reflexivity.
  by rewrite usage_add_assoc.
Qed.

Lemma merge_usage_comm (a b : gmap string usage.t) :
  merge_usage a b = merge_usage b a.
Proof.
  apply map_eq. intros u. rewrite !merge_usage_lookup.
  destruct (a !! u), (b !! u); try reflexivity.
  by rewrite usage_add_comm.
Qed.

Lemma merge_owners_lookup (a b : gmap string (gmap string usage.t))
    (o : string) :
  merge_owners a b !! o
  = match a !! o, b !! o with
    | Some x, Some y => Some (merge_usage x y)
    | Some x, None => Some x
    | None, d => d
    end.
Proof.
  unfold merge_owners. rewrite lookup_union_with.
  by destruct (a !! o), (b !! o).
Qed.

Lemma merge_owners_assoc (a b c : gmap string (gmap string usage.t)) :
  merge_owners a (merge_owners b c) = merge_owners (merge_owners a b) c.
Proof.
  apply map_eq. intros o. rewrite !merge_owners_lookup.
  destruct (a !! o), (b !! o), (c !! o); try reflexivity.
  by rewrite merge_usage_assoc.
Qed.

Lemma merge_owners_comm (a b : gmap string (gmap string usage.t)) :
  merge_owners a b = merge_owners b a.
Proof.
  apply map_eq. intros o. rewrite !merge_owners_lookup.
  destruct (a !! o), (b !! o); try reflexivity.
  by rewrite merge_usage_comm.
Qed.

Lemma merge_owners_empty_l (a : gmap string (gmap string usage.t)) :
  merge_owners ∅ a = a.
Proof. unfold merge_owners. apply (left_id ∅ _). Qed.

Lemma merge_owners_empty_r (a : gmap string (gmap string usage.t)) :
  merge_owners a ∅ = a.
Proof. unfold merge_owners. apply (right_id ∅ _). Qed.

Section aggregation_facts.
Context {sge_api : sge.api}.
Variable backup_node_mpc : list rule.

(** One turn of the loop merges the job's contribution into [owners]. *)
Lemma record_usage_merge (owners : gmap string (gmap string usage.t))
    (err : list string) (r : record) :
  record_usage backup_node_mpc (owners, err) r =
  '(t0, t1, lines) ← core_hours backup_node_mpc r;
  mret (merge_owners owners (contribution r t0 t1), err ++ lines).
Proof.
  unfold record_usage.
  destruct (core_hours backup_node_mpc r) as [[[t0 t1] lines]|e];
    [|reflexivity].
  simpl. f_equal. f_equal. unfold contribution.
  apply map_eq. intros o. rewrite merge_owners_lookup.
  destruct (decide (o = equip_owner r)) as [->|Ho].
  - rewrite lookup_insert_eq, lookup_singleton_eq.
    destruct (owners !! equip_owner r) as [data|] eqn:Eo.
    + rewrite Eo. simpl. f_equal. apply map_eq. intros u.
      rewrite merge_usage_lookup.
      destruct (decide (u = owner r)) as [->|Hu].
      * rewrite lookup_insert_eq, lookup_singleton_eq.
        destruct (data !! owner r) as [x|] eqn:Eu.
        -- rewrite Eu. reflexivity.
        -- rewrite lookup_insert_eq. reflexivity.
      * rewrite lookup_insert_ne, lookup_singleton_ne by done.
        destruct (data !! owner r) eqn:Eu.
        -- by destruct (data !! u).
        -- rewrite lookup_insert_ne by done. by destruct (data !! u).
    + rewrite lookup_insert_eq. simpl. rewrite lookup_empty.
      rewrite lookup_insert_eq. simpl. f_equal.
      rewrite insert_insert_eq. reflexivity.
  - rewrite lookup_insert_ne, lookup_singleton_ne by done.
    destruct (owners !! equip_owner r).
    + by destruct (owners !! o).
    + rewrite lookup_insert_ne by done. by destruct (owners !! o).
Qed.

End aggregation_facts.

(** ** Sums over dictionaries, for any commutative monoid *)

Section msum_facts.
Context {M : Type} (op : M -> M -> M) (e : M).
Hypothesis op_assoc : forall a b c, op a (op b c) = op (op a b) c.
Hypothesis op_comm : forall a b, op a b = op b a.
Hypothesis op_left_id : forall a, op e a = a.

Lemma msum_empty {A} (w : A -> M) : msum op e w ∅ = e.
Proof. apply map_fold_empty. Qed.

Lemma msum_insert {A} (w : A -> M) (m : gmap string A) (k : string)
    (a : A) :
  m !! k = None -> msum op e w (<[k := a]> m) = op (msum op e w m) (w a).
Proof.
  intros Hk. unfold msum. rewrite map_fold_insert_L; [reflexivity| |exact Hk].
  intros j1 j2 z1 z2 y _ _ _.
  rewrite <- !op_assoc. f_equal. apply op_comm.
Qed.

Lemma msum_singleton {A} (w : A -> M) (k : string) (a : A) :
  msum op e w {[k := a]} = w a.
Proof. unfold msum. rewrite map_fold_singleton. apply op_left_id. Qed.

Lemma msum_delete {A} (w : A -> M) (m : gmap string A) (k : string)
    (a : A) :
  m !! k = Some a -> msum op e w m = op (msum op e w (delete k m)) (w a).
Proof.
  intros Hk. rewrite <- (insert_delete_id m k a Hk) at 1.
  apply msum_insert, lookup_delete_eq.
Qed.

Lemma msum_insert_Some {A} (w : A -> M) (m : gmap string A) (k : string)
    (a b : A) :
  m !! k = Some a ->
  msum op e w (<[k := b]> m) = op (msum op e w (delete k m)) (w b).
Proof.
  intros Hk. rewrite <- insert_delete_eq.
  apply msum_insert, lookup_delete_eq.
Qed.

(** A weight that turns [f] into [op] turns the union into [op]. *)
Lemma msum_union_with {A} (w : A -> M) (f : A -> A -> A)
    (a b : gmap string A) :
  (forall x y, w (f x y) = op (w x) (w y)) ->
  msum op e w (union_with (fun x y => Some (f x y)) a b)
  = op (msum op e w a) (msum op e w b).
Proof.
  intros Hw. induction b as [|k y b Hk IH] using map_ind.
  - rewrite (right_id ∅ _), msum_empty.
    rewrite op_comm. symmetry. apply op_left_id.
  - rewrite (msum_insert w b k y Hk).
    destruct (a !! k) as [x|] eqn:Ha.
    + rewrite <- (insert_id a k x Ha) at 1.
      rewrite <- (insert_union_with _ a b k x y (f x y) eq_refl).
      rewrite (msum_insert_Some w _ k x (f x y))
        by (by rewrite lookup_union_with, Ha, Hk).
      rewrite Hw, !op_assoc. f_equal.
      rewrite <- IH. symmetry. apply msum_delete.
      by rewrite lookup_union_with, Ha, Hk.
    + rewrite <- insert_union_with_r by exact Ha.
      rewrite msum_insert by (by rewrite lookup_union_with, Ha, Hk).
      rewrite IH. symmetry. apply op_assoc.
Qed.

End msum_facts.

(** A homomorphism of monoids commutes with the sums. *)
Lemma msum_hom {M N A : Type} (op : M -> M -> M) (e : M)
    (op' : N -> N -> N) (e' : N) (h : M -> N) (w : A -> M)
    (m : gmap string A) :
  h e = e' -> (forall x y, h (op x y) = op' (h x) (h y)) ->
  h (msum op e w m) = msum op' e' (fun a => h (w a)) m.
Proof.
  intros He Hop. unfold msum. rewrite !map_fold_foldr.
  induction (map_to_list m) as [|[k a] l IH]; simpl; [exact He|].
  by rewrite Hop, IH.
Qed.


(** The totals of a merge are the sum of the totals. *)
Lemma total_merge (a b : gmap string usage.t) :
  total (merge_usage a b) = usage.add (total a) (total b).
Proof.
  apply (msum_union_with usage.add usage.zero
           usage_add_assoc usage_add_comm usage_add_zero_l).
  reflexivity.
Qed.

Lemma user_share_merge (user : string) (a b : gmap string usage.t) :
  user_share user (merge_usage a b)
  = usage.add (user_share user a) (user_share user b).
Proof.
  unfold user_share. rewrite merge_usage_lookup.
  destruct (a !! user), (b !! user); simpl;
    by rewrite ?usage_add_zero_l, ?usage_add_zero_r.
Qed.

Lemma grand_total_merge (a b : gmap string (gmap string usage.t)) :
  grand_total (merge_owners a b)
  = usage.add (grand_total a) (grand_total b).
Proof.
  apply (msum_union_with usage.add usage.zero
           usage_add_assoc usage_add_comm usage_add_zero_l).
  apply total_merge.
Qed.

Lemma grand_total_contribution (r : record) (t0 t1 : Z) :
  grand_total (contribution r t0 t1) = usage.mk 1 t0 t1.
Proof.
  unfold grand_total, contribution, total.
  by rewrite !(msum_singleton usage.add usage.zero usage_add_zero_l).
Qed.

Lemma usage_at_merge (a b : gmap string (gmap string usage.t))
    (o u : string) :
  usage_at (merge_owners a b) o u
  = usage.add (usage_at a o u) (usage_at b o u).
Proof.
  unfold usage_at. rewrite merge_owners_lookup.
  destruct (a !! o) as [x|], (b !! o) as [y|]; simpl;
    rewrite ?merge_usage_lookup;
    try destruct (x !! u); try destruct (y !! u); simpl;
    by rewrite ?usage_add_zero_l, ?usage_add_zero_r.
Qed.

Lemma usage_at_contribution (r : record) (t0 t1 : Z) :
  usage_at (contribution r t0 t1) (equip_owner r) (owner r)
  = usage.mk 1 t0 t1.
Proof.
  unfold usage_at, contribution. rewrite lookup_singleton_eq. simpl.
  by rewrite lookup_singleton_eq.
Qed.

(** *** The summary for each user *)

Lemma add_user_eq (user : string) (u : usage.t)
    (users : gmap string usage.t) :
  add_user user u users
  = <[user := usage.add (user_share user users) u]> users.
Proof.
  unfold add_user, user_share. destruct (users !! user) eqn:E.
  - by rewrite E.
  - by rewrite lookup_insert_eq, insert_insert_eq.
Qed.

Lemma add_user_merge (user : string) (u : usage.t)
    (users : gmap string usage.t) :
  add_user user u users = merge_usage users {[user := u]}.
Proof.
  rewrite add_user_eq. apply map_eq. intros k.
  rewrite merge_usage_lookup. unfold user_share.
  destruct (decide (k = user)) as [->|Hk].
  - rewrite lookup_insert_eq, lookup_singleton_eq.
    destruct (users !! user); simpl; by rewrite ?usage_add_zero_l.
  - rewrite lookup_insert_ne, lookup_singleton_ne by done.
    by destruct (users !! k).
Qed.

(** The inner loop merges the dictionary of one owner into [users]. *)
Lemma add_users_merge (data users : gmap string usage.t) :
  map_fold add_user users data = merge_usage users data.
Proof.
  induction data as [|k y data Hk IH] using map_ind.
  - rewrite map_fold_empty. unfold merge_usage. by rewrite (right_id ∅ _).
  - rewrite map_fold_insert_L; [|intros j1 j2 z1 z2 m _ _ _|exact Hk].
    + rewrite IH, add_user_merge, <- merge_usage_assoc. f_equal.
      apply map_eq. intros u. rewrite merge_usage_lookup.
      destruct (decide (u = k)) as [->|Hu].
      * by rewrite Hk, lookup_singleton_eq, lookup_insert_eq.
      * rewrite lookup_singleton_ne, lookup_insert_ne by done.
        by destruct (data !! u).
    + rewrite !add_user_merge, <- !merge_usage_assoc. f_equal.
      apply merge_usage_comm.
Qed.

(** The summary for each user is the merge of the dictionaries of all
    owners. *)
Lemma user_summary_msum (owners : gmap string (gmap string usage.t)) :
  user_summary owners = msum merge_usage ∅ id owners.
Proof.
  unfold user_summary, msum. rewrite !map_fold_foldr.
  induction (map_to_list owners) as [|[o data] l IH]; simpl; [reflexivity|].
  rewrite IH. apply add_users_merge.
Qed.

Lemma user_summary_total (owners : gmap string (gmap string usage.t)) :
  total (user_summary owners) = grand_total owners.
Proof.
  rewrite user_summary_msum.
  apply (msum_hom merge_usage ∅ usage.add usage.zero total id owners).
  - apply (msum_empty usage.add usage.zero).
  - apply total_merge.
Qed.

Lemma user_summary_share (owners : gmap string (gmap string usage.t))
    (user : string) :
  user_share user (user_summary owners)
  = msum usage.add usage.zero (user_share user) owners.
Proof.
  rewrite user_summary_msum.
  apply (msum_hom merge_usage ∅ usage.add usage.zero
                  (user_share user) id owners).
  - reflexivity.
  - apply user_share_merge.
Qed.

(** The summary for each user of a merge is the merge of the summaries. *)
Lemma user_summary_merge (a b : gmap string (gmap string usage.t)) :
  user_summary (merge_owners a b)
  = merge_usage (user_summary a) (user_summary b).
Proof.
  rewrite !user_summary_msum.
  apply (msum_union_with merge_usage ∅
           merge_usage_assoc merge_usage_comm).
  - intros x. unfold merge_usage. apply (left_id ∅ _).
  - reflexivity.
Qed.

(** A user has a summary exactly when the user appears under an owner. *)
Lemma user_summary_dom (owners : gmap string (gmap string usage.t))
    (user : string) :
  is_Some (user_summary owners !! user)
  <-> exists o data, owners !! o = Some data /\ is_Some (data !! user).
Proof.
  rewrite user_summary_msum.
  induction owners as [|o data owners Ho IH] using map_ind.
  - rewrite (msum_empty merge_usage ∅), lookup_empty. split.
    + intros [x Hx]. discriminate.
    + intros (o & data & Hd & _). by rewrite lookup_empty in Hd.
  - rewrite (msum_insert merge_usage ∅ merge_usage_assoc merge_usage_comm
               id owners o data Ho).
    rewrite merge_usage_lookup. split.
    + intros Hs.
      destruct (msum merge_usage ∅ id owners !! user) as [x|] eqn:E.
      * destruct (proj1 IH (mk_is_Some _ _ eq_refl)) as (o' & d' & Hd & Hu).
        exists o', d'. split; [|exact Hu].
        rewrite lookup_insert_ne; [exact Hd|]. intros <-. congruence.
      * exists o, data. split; [apply lookup_insert_eq|exact Hs].
    + intros (o' & d' & Hd & Hu).
      destruct (decide (o' = o)) as [->|Hne].
      * rewrite lookup_insert_eq in Hd. injection Hd as <-.
        destruct Hu as [y Hy]. change (id data) with data. rewrite Hy.
        destruct (msum merge_usage ∅ id owners !! user);
          eexists; reflexivity.
      * rewrite lookup_insert_ne in Hd by done.
        destruct (proj2 IH (ex_intro _ o' (ex_intro _ d' (conj Hd Hu))))
          as [x Hx].
        rewrite Hx. destruct (id data !! user); eexists; reflexivity.
Qed.

(** *** The totals rows of the report *)

Lemma reduce_msum {A} (field : usage.t -> Z) (w : A -> usage.t)
    (m : gmap string A) :
  field usage.zero = 0 ->
  (forall a b, field (usage.add a b) = field a + field b) ->
  reduce (fun a => field (w a)) m = field (msum usage.add usage.zero w m).
Proof.
  intros H0 Hadd. unfold reduce, msum. rewrite !map_fold_foldr.
  induction (map_to_list m) as [|[k a] l IH]; simpl; [by rewrite H0|].
  by rewrite Hadd, IH.
Qed.

(** The summary for an owner holds the totals of its user dictionary and
    the number of its users. *)
Lemma owner_summary_total (data : gmap string usage.t) :
  summary.jobs (owner_summary data) = usage.jobs (total data)
  /\ summary.time (owner_summary data) = usage.time (total data)
  /\ summary.time_adj (owner_summary data) = usage.time_adj (total data)
  /\ summary.users (owner_summary data) = Z.of_nat (size data).
Proof.
  unfold owner_summary, total, msum, size, map_size.
  rewrite !map_fold_foldr.
  induction (map_to_list data) as [|[k a] l IH]; simpl; [done|].
  destruct IH as (-> & -> & -> & ->). repeat split. lia.
Qed.

Lemma reduce_owner_summaries (field : usage.t -> Z) (field' : summary.t -> Z)
    (owners : gmap string (gmap string usage.t)) :
  field usage.zero = 0 ->
  (forall a b, field (usage.add a b) = field a + field b) ->
  (forall data, field' (owner_summary data) = field (total data)) ->
  reduce field' (owner_summaries owners) = field (grand_total owners).
Proof.
  intros H0 Hadd Hf. unfold grand_total.
  rewrite <- (reduce_msum field total owners H0 Hadd).
  unfold owner_summaries, reduce. rewrite map_fold_fmap.
  rewrite !map_fold_foldr.
  induction (map_to_list owners) as [|[o data] l IH]; simpl; [done|].
  by rewrite IH, Hf.
Qed.

Lemma reduce_user_summary (field : usage.t -> Z)
    (owners : gmap string (gmap string usage.t)) :
  field usage.zero = 0 ->
  (forall a b, field (usage.add a b) = field a + field b) ->
  reduce field (user_summary owners) = field (grand_total owners).
Proof.
  intros H0 Hadd. rewrite <- user_summary_total.
  apply (reduce_msum field id (user_summary owners) H0 Hadd).
Qed.

(** *** The loop over the records *)

Section fold_facts.
Context {sge_api : sge.api} {tz : libc.timezone}.
Variable backup_node_mpc : list rule.

(** The loop, one turn unrolled. *)
Lemma collect_cons (st : gmap string (gmap string usage.t) * list string)
    (r : record) (l : list record) :
  collect backup_node_mpc st (r :: l)
  = st' ← record_usage backup_node_mpc st r; collect backup_node_mpc st' l.
Proof. reflexivity. Qed.

Lemma collect_app (st : gmap string (gmap string usage.t) * list string)
    (l1 l2 : list record) :
  collect backup_node_mpc st (l1 ++ l2)
  = st' ← collect backup_node_mpc st l1; collect backup_node_mpc st' l2.
Proof.
  revert st. induction l1 as [|r l1 IH]; intros st; [reflexivity|].
  rewrite <- app_comm_cons, !collect_cons.
  destruct (record_usage backup_node_mpc st r) as [st'|e]; simpl;
    [apply IH|reflexivity].
Qed.

(** A fold started from [owners] is the fold started from nothing, merged
    into [owners]. *)
Lemma collect_shift (owners : gmap string (gmap string usage.t))
    (err : list string) (records : list record) :
  collect backup_node_mpc (owners, err) records
  = '(d, e) ← collect backup_node_mpc (∅, []) records;
    mret (merge_owners owners d, err ++ e).
Proof.
  revert owners err. induction records as [|r records IH]; intros owners err.
  - simpl. by rewrite merge_owners_empty_r, app_nil_r.
  - rewrite !collect_cons, !record_usage_merge.
    destruct (core_hours backup_node_mpc r) as [[[t0 t1] lines]|e];
      [|reflexivity].
    simpl. rewrite (IH (merge_owners owners _)), (IH (merge_owners ∅ _)).
    destruct (collect backup_node_mpc (∅, []) records) as [[d e]|e];
      [|reflexivity].
    simpl. by rewrite merge_owners_empty_l, merge_owners_assoc, !app_assoc.
Qed.

(** The fold over two streams in sequence is the merge of the folds. *)
Lemma totals_app (l1 l2 : list record) :
  totals backup_node_mpc (l1 ++ l2)
  = merge_totals (totals backup_node_mpc l1) (totals backup_node_mpc l2).
Proof.
  unfold totals, merge_totals. rewrite collect_app.
  destruct (collect backup_node_mpc (∅, []) l1) as [[o1 e1]|e];
    [|reflexivity].
  simpl. rewrite collect_shift.
  by destruct (collect backup_node_mpc (∅, []) l2) as [[o2 e2]|e].
Qed.

Lemma totals_cons (r : record) (l : list record) :
  totals backup_node_mpc (r :: l)
  = merge_totals (totals backup_node_mpc [r]) (totals backup_node_mpc l).
Proof. apply (totals_app [r] l). Qed.

Lemma merge_totals_Ok (a b : py (gmap string (gmap string usage.t)))
    (o : gmap string (gmap string usage.t)) :
  merge_totals a b = Ok o ->
  exists x y, a = Ok x /\ b = Ok y /\ o = merge_owners x y.
Proof.
  destruct a as [x|]; [|discriminate]. destruct b as [y|]; [|discriminate].
  intros [= <-]. eauto.
Qed.

(** The totals do not depend on the order of the records. *)
Lemma totals_permutation (l l' : list record)
    (o : gmap string (gmap string usage.t)) :
  l ≡ₚ l' ->
  totals backup_node_mpc l = Ok o -> totals backup_node_mpc l' = Ok o.
Proof.
  intros Hp. revert o.
  induction Hp as [|r l l' Hp IH|r1 r2 l|l l' l'' Hp1 IH1 Hp2 IH2]; intros o.
  - auto.
  - rewrite (totals_cons r l), (totals_cons r l'). intros Hm.
    apply merge_totals_Ok in Hm. destruct Hm as (x & y & Hx & Hy & ->).
    by rewrite Hx, (IH y Hy).
  - rewrite (totals_cons r2 (r1 :: l)), (totals_cons r1 l).
    rewrite (totals_cons r1 (r2 :: l)), (totals_cons r2 l). intros Hm.
    apply merge_totals_Ok in Hm. destruct Hm as (x & y' & Hx & H' & ->).
    apply merge_totals_Ok in H'. destruct H' as (y & z & Hy & Hz & ->).
    rewrite Hx, Hy, Hz. simpl. f_equal.
    rewrite !merge_owners_assoc. f_equal. apply merge_owners_comm.
  - intros Hm. by apply IH2, IH1.
Qed.

(** The loop returns exactly when [core_hours] returns for every record. *)
Lemma collect_returns (records : list record) :
  Forall (fun r => exists v, core_hours backup_node_mpc r = Ok v) records
  <-> exists st, collect backup_node_mpc (∅, []) records = Ok st.
Proof.
  induction records as [|r records IH].
  - split; [intros _; eexists; reflexivity|constructor].
  - rewrite collect_cons, record_usage_merge, Forall_cons, IH.
    destruct (core_hours backup_node_mpc r) as [[[t0 t1] lines]|e].
    + cbn [mbind py_bind mret py_ret].
      rewrite (collect_shift (merge_owners ∅ (contribution r t0 t1))).
      destruct (collect backup_node_mpc (∅, []) records) as [[d e]|e].
      * split; [intros _; eexists; reflexivity|].
        intros _. split; eexists; reflexivity.
      * split; [intros [_ [st Hst]]; discriminate|].
        intros [st Hst]. discriminate.
    + split; [intros [[v Hv] _]; discriminate|].
      intros [st Hst]. discriminate.
Qed.

(** [main] returns when the date parses and the loop returns. *)
Lemma main_returns (date : option string) (records : list record)
    (range : Z * Z) (owners : gmap string (gmap string usage.t))
    (err : list string) :
  parse_startend date = Ok range ->
  collect backup_node_mpc (∅, []) records = Ok (owners, err) ->
  main backup_node_mpc date records
  = Ok (owners, user_summary owners, owner_summaries owners, err).
Proof. intros Hd Hc. unfold main. rewrite Hd. simpl. by rewrite Hc. Qed.

(** Every job adds one to the grand total of jobs. *)
Lemma collect_grand_total (records : list record)
    (owners : gmap string (gmap string usage.t)) (err : list string) :
  collect backup_node_mpc (∅, []) records = Ok (owners, err) ->
  usage.jobs (grand_total owners) = Z.of_nat (length records).
Proof.
  revert owners err. induction records as [|r records IH]; intros owners err.
  - intros [= <- <-]. reflexivity.
  - rewrite collect_cons, record_usage_merge.
    destruct (core_hours backup_node_mpc r) as [[[t0 t1] lines]|e];
      [|discriminate].
    simpl. rewrite collect_shift.
    destruct (collect backup_node_mpc (∅, []) records) as [[d e]|e] eqn:E;
      [|discriminate].
    simpl. intros [= <- <-].
    rewrite !grand_total_merge, grand_total_contribution.
    simpl. rewrite (IH d e eq_refl). 
    change (usage.jobs (grand_total ∅)) with 0. lia.
Qed.

End fold_facts.

(** ** Claims about the aggregation *)

Section aggregation_claims.
Context {sge_api : sge.api} {tz : libc.timezone}.
Variable backup_node_mpc : list rule.

(** X26.  Let the category of a record carry no memory request that
    can be read (no [h_vmem] request, or a value that is not empty and
    not a quantity), or let the node type give no memory per core (no
    node type, or a core count or a memory that is absent, unreadable or
    zero) while no pattern of the table matches the host name.  Then
    [core_hours] prints one warning, which names the job and its
    category, and returns the raw time as the adjusted time.  The loop
    goes on: the turn for the record returns, the job is counted under its
    owner and user with its raw time on both counters, and the rest of the
    records is folded from there. *)
Theorem core_hours_unresolved (r : record) :
  no_request r = true
  \/ (no_node_memory r = true
      /\ no_rule backup_node_mpc (hostname r) = true) ->
  core_hours backup_node_mpc r
  = Ok (ru_wallclock r * slots r, ru_wallclock r * slots r, [warning r])
  /\ warning r
     = ("Warning: could not extract mem or mem per node details for "
        +:+ name r +:+ " (" +:+ category r +:+ ")")%string
  /\ (forall owners err, exists owners',
        record_usage backup_node_mpc (owners, err) r
        = Ok (owners', err ++ [warning r])
        /\ usage_at owners' (equip_owner r) (owner r)
           = usage.add (usage_at owners (equip_owner r) (owner r))
               (usage.mk 1 (ru_wallclock r * slots r)
                         (ru_wallclock r * slots r)))
  /\ (forall owners err rest, exists owners',
        collect backup_node_mpc (owners, err) (r :: rest)
        = collect backup_node_mpc (owners', err ++ [warning r]) rest).
Proof.
  intros Hr.
  rewrite <- mem_req_of_None, <- (mem_core_of_None backup_node_mpc) in Hr.
  pose proof (core_hours_warning backup_node_mpc r Hr) as Hc.
  split; [exact Hc|]. split; [reflexivity|]. split.
  - intros owners err. eexists. rewrite record_usage_merge, Hc. simpl.
    split; [reflexivity|].
    by rewrite usage_at_merge, usage_at_contribution.
  - intros owners err rest. eexists.
    rewrite collect_cons, record_usage_merge, Hc. reflexivity.
Qed.

(** C4.  Let the records [R] be split into [S1] and [S2], in any order.
    The totals of the fold over [S1 ++ S2] are the merge of the totals
    over [S1] and over [S2]; the fold over [R] returns the same totals,
    whatever the order of the records; the merge adds the totals of each
    owner and user field by field, and the summary for each user of a
    merge is the merge of the summaries; and the totals form a commutative
    monoid under addition, with zero as identity, as do the [owners]
    dictionaries under the merge, with the empty dictionary. *)
Theorem fold_monoid (S1 S2 R : list record) :
  S1 ++ S2 ≡ₚ R ->
  totals backup_node_mpc (S1 ++ S2)
  = merge_totals (totals backup_node_mpc S1) (totals backup_node_mpc S2)
  /\ (forall o,
        totals backup_node_mpc R = Ok o
        <-> merge_totals (totals backup_node_mpc S1)
                         (totals backup_node_mpc S2) = Ok o)
  /\ (forall a b owner user,
        usage_at (merge_owners a b) owner user
        = usage.add (usage_at a owner user) (usage_at b owner user))
  /\ (forall a b,
        user_summary (merge_owners a b)
        = merge_usage (user_summary a) (user_summary b))
  /\ (forall a b c : usage.t,
        usage.add a (usage.add b c) = usage.add (usage.add a b) c
        /\ usage.add a b = usage.add b a
        /\ usage.add usage.zero a = a
        /\ usage.add a usage.zero = a)
  /\ (forall a b c : gmap string (gmap string usage.t),
        merge_owners a (merge_owners b c) = merge_owners (merge_owners a b) c
        /\ merge_owners a b = merge_owners b a
        /\ merge_owners ∅ a = a
        /\ merge_owners a ∅ = a).
Proof.
  intros Hp. split; [apply totals_app|].
  split; [|split; [|split; [|split]]].
  - intros o. rewrite <- totals_app. split.
    + apply totals_permutation. by symmetry.
    + by apply totals_permutation.
  - apply usage_at_merge.
  - apply user_summary_merge.
  - intros a b c. repeat split.
    + apply usage_add_assoc.
    + apply usage_add_comm.
    + apply usage_add_zero_l.
    + apply usage_add_zero_r.
  - intros a b c. repeat split.
    + apply merge_owners_assoc.
    + apply merge_owners_comm.
    + apply merge_owners_empty_l.
    + apply merge_owners_empty_r.
Qed.

(** C5.  When [main] returns, the jobs of the owner summaries and the jobs
    of the user summaries both add up to the number of records folded;
    the raw and the adjusted times of the two summaries add up to the same
    sums; the totals of each user are the sum of the totals of that user
    under every owner; and a user has a summary exactly when the user
    appears under some owner. *)
Theorem aggregation_cross_check (date : option string)
    (records : list record)
    (owners : gmap string (gmap string usage.t))
    (users : gmap string usage.t) (summaries : gmap string summary.t)
    (err : list string) :
  main backup_node_mpc date records = Ok (owners, users, summaries, err) ->
  reduce summary.jobs summaries = Z.of_nat (length records)
  /\ reduce usage.jobs users = Z.of_nat (length records)
  /\ reduce summary.time summaries = reduce usage.time users
  /\ reduce summary.time_adj summaries = reduce usage.time_adj users
  /\ (forall user,
        user_share user users
        = msum usage.add usage.zero (user_share user) owners)
  /\ (forall user,
        is_Some (users !! user)
        <-> exists o data, owners !! o = Some data /\ is_Some (data !! user)).
Proof.
  unfold main. destruct (parse_startend date) as [range|]; [|discriminate].
  simpl.
  destruct (collect backup_node_mpc (∅, []) records) as [[o e]|] eqn:E;
    [|discriminate].
  simpl. intros [= <- <- <- <-].
  pose proof (collect_grand_total backup_node_mpc records o e E) as Hjobs.
  rewrite (reduce_owner_summaries usage.jobs summary.jobs o);
    [|reflexivity|reflexivity|intros; apply owner_summary_total].
  rewrite (reduce_owner_summaries usage.time summary.time o);
    [|reflexivity|reflexivity|intros; apply owner_summary_total].
  rewrite (reduce_owner_summaries usage.time_adj summary.time_adj o);
    [|reflexivity|reflexivity|intros; apply owner_summary_total].
  rewrite !reduce_user_summary by reflexivity.
  repeat split; try exact Hjobs.
  - apply user_summary_share.
  - apply user_summary_dom.
  - apply user_summary_dom.
Qed.

End aggregation_claims.

Lemma core_hours_unresolved_witness :
  core_hours sge_model.backup_node_mpc
    (job_of "alice" "ENV" "-l h_rt=3600" "unknown01")
  = Ok (14400, 14400,
        ["Warning: could not extract mem or mem per node details for job1 (-l h_rt=3600)"%string])
  /\ core_hours sge_model.backup_node_mpc
       (job_of "alice" "ENV" "-l h_vmem=4G,node_type=0core-0G" "unknown01")
     = Ok (14400, 14400,
           ["Warning: could not extract mem or mem per node details for job1 (-l h_vmem=4G,node_type=0core-0G)"%string]).
Proof.
  split.
  - apply (core_hours_unresolved sge_model.backup_node_mpc
             (job_of "alice" "ENV" "-l h_rt=3600" "unknown01")).
    left. reflexivity.
  - apply (core_hours_unresolved sge_model.backup_node_mpc
             (job_of "alice" "ENV" "-l h_vmem=4G,node_type=0core-0G"
                     "unknown01")).
    right. split; reflexivity.
Defined.


Lemma fold_monoid_witness :
  let j1 :=
    job_of "alice" "ENV" "-l h_vmem=40G,node_type=24core-384G" "d8s0b1" in
  let j2 := job_of "bob" "ENG" "-l h_rt=3600" "h7s3b15n1" in
  totals sge_model.backup_node_mpc ([j1] ++ [j2])
  = merge_totals (totals sge_model.backup_node_mpc [j1])
                 (totals sge_model.backup_node_mpc [j2]).
Proof.
  intros j1 j2.
  exact (proj1 (fold_monoid sge_model.backup_node_mpc [j1] [j2] [j2; j1]
                  (perm_swap j2 j1 []))).
Defined.

Lemma aggregation_cross_check_witness :
  let j1 :=
    job_of "alice" "ENV" "-l h_vmem=40G,node_type=24core-384G" "d8s0b1" in
  let j2 := job_of "alice" "ENG" "-l h_rt=3600" "h7s3b15n1" in
  let j3 := job_of "bob" "ENG" "-l h_vmem=4G" "h7s3b15n1" in
  exists owners users summaries err,
    main (tz := libc.utc) sge_model.backup_node_mpc
      (Some "2018"%string) [j1; j2; j3]
    = Ok (owners, users, summaries, err)
    /\ reduce summary.jobs summaries = 3
    /\ reduce usage.jobs users = 3.
Proof.
  intros j1 j2 j3.
  destruct (proj1 (collect_returns sge_model.backup_node_mpc [j1; j2; j3]))
    as [[owners err] Hc].
  { repeat constructor; eexists; vm_compute; reflexivity. }
  pose proof (main_returns (tz := libc.utc) sge_model.backup_node_mpc
                (Some "2018"%string) [j1; j2; j3]
                (1514764800, 1546300800) owners err eq_refl Hc) as E.
  exists owners, (user_summary owners), (owner_summaries owners), err.
  split; [exact E|].
  pose proof (aggregation_cross_check sge_model.backup_node_mpc
                _ _ _ _ _ _ E) as (H1 & H2 & _).
  exact (conj H1 H2).
Defined.

(** * Further properties *)

(** ** Strings *)

Lemma append_assoc (a b c : string) :
  ((a +:+ b) +:+ c = a +:+ (b +:+ c))%string.
Proof.
  induction a as [|x a IH]; [reflexivity|].
  change (String x ((a +:+ b) +:+ c) = String x (a +:+ (b +:+ c))).
  by rewrite IH.
Qed.

Lemma span_spec (p : ascii -> bool) (s d r : string) :
  span p s = (d, r) ->
  s = (d +:+ r)%string /\ all_chars p d = true
  /\ head_ok (fun c => negb (p c)) r = true.
Proof.
  revert d r. induction s as [|c s IH]; intros d r; simpl.
  - intros [= <- <-]. auto.
  - destruct (p c) eqn:E.
    + destruct (span p s) as [d' r'] eqn:E'. intros [= <- <-].
      destruct (IH d' r' eq_refl) as (-> & H1 & H2). simpl. rewrite E. auto.
    + intros [= <- <-]. simpl. rewrite E. auto.
Qed.

Lemma span_app (p : ascii -> bool) (d r : string) :
  all_chars p d = true -> head_ok (fun c => negb (p c)) r = true ->
  span p (d +:+ r) = (d, r).
Proof.
  intros Hd Hr. induction d as [|c d IH]; simpl in *.
  - destruct r as [|c r]; [reflexivity|]. simpl in *.
    apply negb_true_iff in Hr. by rewrite Hr.
  - apply andb_true_iff in Hd. destruct Hd as [-> Hd]. by rewrite IH.
Qed.

Lemma is_lower_not_space c : is_lower c = true -> not_space c = true.
Proof.
  unfold is_lower, not_space, is_space. intros H.
  apply negb_true_iff. lia.
Qed.

Lemma owner_def_None (s : string) :
  owner_def s = None <-> head_ok is_space s = true.
Proof.
  unfold owner_def.
  destruct (span is_lower s) as [l r] eqn:El.
  destruct (span not_space s) as [g r0] eqn:Eg.
  apply span_spec in Eg as (Hs & Hg & Hr0).
  destruct s as [|c s]; simpl.
  - simpl in El. injection El as <- <-.
    destruct g; [|discriminate]. tauto.
  - destruct (is_space c) eqn:Ec.
    + simpl in El.
      destruct (is_lower c) eqn:Elc.
      { apply is_lower_not_space in Elc. unfold not_space in Elc.
        rewrite Ec in Elc. discriminate. }
      injection El as <- <-.
      destruct g as [|c' g]; [tauto|].
      change (String c s = String c' (g +:+ r0)) in Hs.
      injection Hs as <- _. simpl in Hg.
      unfold not_space in Hg at 1. rewrite Ec in Hg. discriminate.
    + destruct g as [|c' g].
      { change (String c s = r0) in Hs. subst r0. simpl in Hr0.
        unfold not_space in Hr0.
        rewrite Ec in Hr0. discriminate. }
      split; [|discriminate].
      destruct l as [|? ?]; [discriminate|].
      destruct r as [|c0 r]; [discriminate|].
      destruct (ord c0 =? 95); [|discriminate].
      destruct (span not_space r) as [[|? ?] ?]; discriminate.
Qed.

Lemma owner_def_spec (s : string) (g1 : option string) (g2 : string) :
  owner_def s = Some (g1, g2) ->
  g2 <> EmptyString /\ all_chars not_space g2 = true
  /\ exists rest, s = (default EmptyString g1 +:+ g2 +:+ rest)%string
                  /\ head_ok is_space rest = true.
Proof.
  unfold owner_def.
  destruct (span is_lower s) as [l r] eqn:El.
  destruct (span not_space s) as [g r0] eqn:Eg.
  apply span_spec in El as (Hs & Hl & Hr).
  apply span_spec in Eg as (Hs0 & Hg & Hr0).
  assert (Hneg : forall x, head_ok (fun c => negb (not_space c)) x
                           = head_ok is_space x).
  { intros [|c x]; [reflexivity|]. simpl. unfold not_space.
    by rewrite negb_involutive. }
  rewrite Hneg in Hr0.
  assert (Hfall : match g with
                  | String _ _ => Some (None, g)
                  | EmptyString => None
                  end = Some (g1, g2) ->
                  g2 <> EmptyString /\ all_chars not_space g2 = true
                  /\ exists rest,
                       s = (default EmptyString g1 +:+ g2 +:+ rest)%string
                       /\ head_ok is_space rest = true).
  { destruct g as [|c g]; [discriminate|]. intros [= <- <-].
    split; [discriminate|]. split; [exact Hg|]. exists r0. auto. }
  destruct l as [|a l]; [exact Hfall|].
  destruct r as [|c r]; [exact Hfall|].
  destruct (ord c =? 95); [|exact Hfall].
  destruct (span not_space r) as [g' r'] eqn:Eg'.
  apply span_spec in Eg' as (Hs' & Hg' & Hr').
  rewrite Hneg in Hr'.
  destruct g' as [|c' g']; [exact Hfall|].
  intros [= <- <-]. split; [discriminate|]. split; [exact Hg'|].
  exists r'. split; [|exact Hr'].
  rewrite Hs, Hs'.
  change (String a (l +:+ String c (String c' g' +:+ r'))
          = String a ((l +:+ String c "") +:+ String c' g' +:+ r')).
  f_equal. symmetry. apply (append_assoc l (String c "")).
Qed.

(** ** Equipment owners *)

(** A closed decidable proposition, by evaluation. *)
Ltac decide_closed := apply (bool_decide_unpack _); vm_compute; exact I.

Lemma owner_owner_mapping_lookup (o : string) :
  owner_owner_mapping !! o
  = if String.eqb o "ISS" then Some "ARC"%string
    else if String.eqb o "UKMHD" then Some "MAPS"%string else None.
Proof.
  unfold owner_owner_mapping. rewrite !list_to_map_cons, list_to_map_nil.
  destruct (String.eqb_spec o "ISS") as [->|H1].
  { by rewrite lookup_insert_eq. }
  rewrite lookup_insert_ne by congruence.
  destruct (String.eqb_spec o "UKMHD") as [->|H2].
  { by rewrite lookup_insert_eq. }
  by rewrite lookup_insert_ne by congruence.
Qed.

Lemma queue_owner_mapping_values (q o : string) :
  queue_owner_mapping !! q = Some o ->
  o ∈ ["sgpc"; "glomap"; "speme"; "neiss"; "tomcat"; "chem"; "civil";
       "mhd"]%string.
Proof.
  intros H. apply elem_of_list_to_map_2 in H.
  repeat (apply elem_of_cons in H as [[= _ ->]|H];
          [decide_closed|]).
  by apply elem_of_nil in H.
Qed.

Lemma queue_owner_not_renamed (q o : string) :
  queue_owner_mapping !! q = Some o -> owner_owner_mapping !! o = None.
Proof.
  intros H. apply queue_owner_mapping_values in H.
  rewrite owner_owner_mapping_lookup.
  repeat (apply elem_of_cons in H as [->|H]; [reflexivity|]).
  by apply elem_of_nil in H.
Qed.

Lemma equip_owner_modify (r : line.t) :
  equip_owner (line.job (record_modify r))
  = match owner_def (line.project r) with
    | Some (_, g2) =>
        let o := default g2 (queue_owner_mapping !! line.qname r) in
        default o (owner_owner_mapping !! o)
    | None => "<unknown>"%string
    end.
Proof.
  unfold record_modify. simpl.
  destruct (owner_def (line.project r)) as [[g1 g2]|]; [|reflexivity].
  simpl. destruct (queue_owner_mapping !! line.qname r); simpl;
  by destruct (owner_owner_mapping !! _).
Qed.

Lemma rename_fixed (o : string) :
  owner_owner_mapping !! default o (owner_owner_mapping !! o) = None.
Proof.
  rewrite (owner_owner_mapping_lookup o).
  destruct (String.eqb_spec o "ISS") as [->|H1]; [reflexivity|].
  destruct (String.eqb_spec o "UKMHD") as [->|H2]; [reflexivity|].
  simpl. rewrite owner_owner_mapping_lookup.
  apply String.eqb_neq in H1, H2. by rewrite H1, H2.
Qed.

Lemma rename_wf (o : string) :
  o <> EmptyString -> all_chars not_space o = true ->
  default o (owner_owner_mapping !! o) <> EmptyString
  /\ all_chars not_space (default o (owner_owner_mapping !! o)) = true.
Proof.
  intros H1 H2. rewrite owner_owner_mapping_lookup.
  destruct (String.eqb o "ISS"); [split; [discriminate|reflexivity]|].
  destruct (String.eqb o "UKMHD"); [split; [discriminate|reflexivity]|].
  auto.
Qed.

(** The owner [record_modify] sets is not empty, holds no whitespace and
    is no key of [owner_owner_mapping]. *)
Lemma equip_owner_wf (r : line.t) :
  equip_owner (line.job (record_modify r)) <> EmptyString
  /\ all_chars not_space (equip_owner (line.job (record_modify r))) = true
  /\ owner_owner_mapping !! equip_owner (line.job (record_modify r)) = None.
Proof.
  rewrite equip_owner_modify.
  destruct (owner_def (line.project r)) as [[g1 g2]|] eqn:E.
  - apply owner_def_spec in E as (Hne & Hg2 & _). cbv zeta.
    destruct (queue_owner_mapping !! line.qname r) as [o|] eqn:Eq; simpl.
    + pose proof (queue_owner_not_renamed _ _ Eq) as Hn. rewrite Hn. simpl.
      split; [|split; [|exact Hn]];
      apply queue_owner_mapping_values in Eq;
      repeat (apply elem_of_cons in Eq as [->|Eq]; [done|]);
      by apply elem_of_nil in Eq.
    + destruct (rename_wf g2 Hne Hg2) as [H1 H2].
      split; [exact H1|]. split; [exact H2|]. apply rename_fixed.
  - split; [discriminate|]. split; [reflexivity|].
    by rewrite owner_owner_mapping_lookup.
Qed.

(** X1.  For every record, whatever its project and queue, the equipment
    owner [record_modify] sets is not empty, holds no whitespace, and is
    no key of [owner_owner_mapping]: a retired name (ISS, UKMHD) is always
    replaced, and the name it is replaced by is not renamed again. *)
Theorem record_modify_owner_wf (r : line.t) :
  equip_owner (line.job (record_modify r)) <> EmptyString
  /\ all_chars not_space (equip_owner (line.job (record_modify r))) = true
  /\ owner_owner_mapping !! equip_owner (line.job (record_modify r)) = None
  /\ equip_owner (line.job (record_modify r)) <> "ISS"%string
  /\ equip_owner (line.job (record_modify r)) <> "UKMHD"%string.
Proof.
  destruct (equip_owner_wf r) as (H1 & H2 & H3).
  split; [exact H1|]. split; [exact H2|]. split; [exact H3|].
  split; intros E; rewrite E in H3; discriminate.
Qed.

(** X2.  A record whose project is empty or starts with whitespace gets
    the owner <unknown>, whatever its queue: the queue mapping is only
    consulted when [owner_def] matches the project. *)
Theorem record_modify_unknown (r : line.t) :
  head_ok is_space (line.project r) = true ->
  equip_owner (line.job (record_modify r)) = "<unknown>"%string.
Proof.
  intros H. apply owner_def_None in H. by rewrite equip_owner_modify, H.
Qed.

Lemma parent_lookup (o p : string) :
  owner_parent_mapping !! o = Some p -> p ∈ "ARC"%string :: core_owners.
Proof.
  intros H. apply elem_of_list_to_map_2 in H. unfold core_owners.
  repeat (apply elem_of_cons in H as [[= _ ->]|H];
          [decide_closed|]).
  by apply elem_of_nil in H.
Qed.

(** The owners of the mapped queues are not core owners. *)
Lemma queue_owner_not_core (q o : string) :
  queue_owner_mapping !! q = Some o -> o ∉ core_owners.
Proof.
  intros Hq. apply queue_owner_mapping_values in Hq.
  repeat (apply elem_of_cons in Hq as [->|Hq]; [decide_closed|]).
  by apply elem_of_nil in Hq.
Qed.

(** The owner of a mapped queue replaces what the project names. *)
Lemma equip_owner_queue (r : line.t) (o : string) :
  head_ok is_space (line.project r) = false ->
  queue_owner_mapping !! line.qname r = Some o ->
  equip_owner (line.job (record_modify r)) = o.
Proof.
  intros Hp Hq. rewrite equip_owner_modify.
  destruct (owner_def (line.project r)) as [[g1 g2]|] eqn:E.
  2:{ apply owner_def_None in E. congruence. }
  rewrite Hq. simpl. by rewrite (queue_owner_not_renamed _ _ Hq).
Qed.

(** X3.  When the project starts with a character other than whitespace
    and the queue is a key of [queue_owner_mapping], the owner is the one
    the queue maps to, whatever the project names; that owner has ENV, ENG
    or MAPS as its parent and is none of the nine core owners. *)
Theorem record_modify_queue (r : line.t) (o : string) :
  head_ok is_space (line.project r) = false ->
  queue_owner_mapping !! line.qname r = Some o ->
  equip_owner (line.job (record_modify r)) = o
  /\ parent o ∈ ["ENV"; "ENG"; "MAPS"]%string
  /\ o ∉ core_owners.
Proof.
  intros Hp Hq. split; [by apply equip_owner_queue|].
  split; [|by apply (queue_owner_not_core (line.qname r))].
  apply queue_owner_mapping_values in Hq.
  repeat (apply elem_of_cons in Hq as [->|Hq]; [decide_closed|]).
  by apply elem_of_nil in Hq.
Qed.

Lemma head_ok_not_space (s : string) :
  head_ok (fun c => negb (not_space c)) s = head_ok is_space s.
Proof.
  destruct s as [|c s]; [reflexivity|]. simpl. unfold not_space.
  by rewrite negb_involutive.
Qed.

Lemma owner_def_prefix (p o rest : string) :
  p <> EmptyString -> all_chars is_lower p = true ->
  o <> EmptyString -> all_chars not_space o = true ->
  head_ok is_space rest = true ->
  owner_def (p +:+ "_" +:+ o +:+ rest) = Some (Some (p +:+ "_"), o)%string.
Proof.
  intros Hp Hlp Ho Hso Hr. unfold owner_def.
  rewrite (span_app is_lower p ("_" +:+ o +:+ rest) Hlp) by reflexivity.
  destruct p as [|a p]; [congruence|].
  change ("_" +:+ o +:+ rest)%string with (String "_" (o +:+ rest)).
  change (ord "_" =? 95) with true. cbv iota.
  rewrite (span_app not_space o rest Hso)
    by (by rewrite head_ok_not_space).
  destruct o as [|b o]; [congruence|]. reflexivity.
Qed.

Lemma span_lower_no_underscore (o rest l r : string) :
  all_chars no_underscore o = true -> head_ok is_space rest = true ->
  span is_lower (o +:+ rest) = (l, r) ->
  head_ok no_underscore r = true.
Proof.
  revert l r. induction o as [|x o IH]; intros l r Ho Hr.
  - change ("" +:+ rest)%string with rest.
    destruct rest as [|c rest]; simpl.
    + intros [= <- <-]. reflexivity.
    + simpl in Hr. destruct (is_lower c) eqn:E.
      { apply is_lower_not_space in E. unfold not_space in E.
        rewrite Hr in E. discriminate. }
      intros [= <- <-]. simpl. unfold is_space in Hr. unfold no_underscore.
      lia.
  - change (String x o +:+ rest)%string with (String x (o +:+ rest)).
    simpl in Ho. apply andb_true_iff in Ho as [Hx Ho]. simpl.
    destruct (is_lower x).
    + destruct (span is_lower (o +:+ rest)) as [l' r'] eqn:E.
      intros [= <- <-]. by apply (IH l' r').
    + intros [= <- <-]. exact Hx.
Qed.

Lemma owner_def_plain (o rest : string) :
  o <> EmptyString -> all_chars not_space o = true ->
  all_chars no_underscore o = true ->
  head_ok is_space rest = true ->
  owner_def (o +:+ rest) = Some (None, o).
Proof.
  intros Ho Hso Hu Hr. unfold owner_def.
  destruct (span is_lower (o +:+ rest)) as [l r] eqn:E.
  apply (span_lower_no_underscore o rest l r Hu Hr) in E.
  rewrite (span_app not_space o rest Hso) by (by rewrite head_ok_not_space).
  assert (match l with
          | EmptyString => None
          | String _ _ =>
              match r with
              | EmptyString => None
              | String c r' =>
                  if ord c =? 95
                  then match span not_space r' with
                       | (EmptyString, _) => None
                       | (String _ _ as g2, _) =>
                           Some (Some (l +:+ String c ""), g2)
                       end
                  else None
              end
          end = @None (option string * string)) as ->.
  { destruct l; [reflexivity|]. destruct r as [|c r]; [reflexivity|].
    simpl in E. unfold no_underscore in E. apply negb_true_iff in E.
    by rewrite E. }
  destruct o; [congruence|reflexivity].
Qed.

(** X4.  On a queue without a mapping, the owner is read from the
    project: a project [o], without an underscore, or [p_o] with [p] a run
    of lower-case letters, up to the first whitespace, gives [o], renamed
    by [owner_owner_mapping] when it is a key of it. *)
Theorem record_modify_project (r : line.t) (pre o rest : string) :
  o <> EmptyString -> all_chars not_space o = true ->
  head_ok is_space rest = true ->
  queue_owner_mapping !! line.qname r = None ->
  line.project r = (pre +:+ o +:+ rest)%string ->
  (pre = EmptyString /\ all_chars no_underscore o = true)
  \/ (exists p, p <> EmptyString /\ all_chars is_lower p = true
                /\ pre = (p +:+ "_")%string) ->
  equip_owner (line.job (record_modify r))
  = default o (owner_owner_mapping !! o).
Proof.
  intros Ho Hso Hr Hq Hp Hpre. rewrite equip_owner_modify, Hp, Hq.
  destruct Hpre as [[-> Hu]|(p & Hne & Hl & ->)].
  - change ("" +:+ o +:+ rest)%string with (o +:+ rest)%string.
    by rewrite (owner_def_plain o rest).
  - rewrite (append_assoc p "_" (o +:+ rest)).
    by rewrite (owner_def_prefix p o rest).
Qed.

(** ** Record selection *)

Lemma record_filter_eq (s e : Z) (a : args.t) (r : line.t) :
  record_filter s e a r
  = (s <=? line.end_time r) && (line.start_time r <? e) && selected a r.
Proof.
  unfold record_filter, selected. rewrite Z.geb_leb.
  destruct (Z.ltb_spec (line.end_time r) s), (Z.leb_spec s (line.end_time r));
    try (exfalso; lia); simpl; [reflexivity|].
  destruct (Z.leb_spec e (line.start_time r)),
           (Z.ltb_spec (line.start_time r) e); try (exfalso; lia); simpl;
    [reflexivity|].
  destruct (listed (args.skipqueues a) (line.qname r)); [reflexivity|].
  destruct (unlisted (args.queues a) (line.qname r)); [reflexivity|].
  destruct (listed (args.skipowners a) (equip_owner (line.job r)));
    [reflexivity|].
  by destruct (unlisted (args.owners a) (equip_owner (line.job r))).
Qed.

(** X5.  Let the window from [s] to [e] be cut at [m].  A record that
    starts no later than it ends passes the filter for the whole window
    exactly when it passes it for one of the two parts; it passes both
    parts exactly when it passes the whole and was running at [m], so a job
    that runs across the cut is selected in both parts. *)
Theorem record_filter_split (s m e : Z) (a : args.t) (r : line.t) :
  s <= m <= e -> line.start_time r <= line.end_time r ->
  record_filter s e a r = record_filter s m a r || record_filter m e a r
  /\ record_filter s m a r && record_filter m e a r
     = record_filter s e a r
       && (line.start_time r <? m) && (m <=? line.end_time r).
Proof.
  intros Hm Hr. rewrite !record_filter_eq.
  destruct (selected a r); rewrite ?andb_false_r; [|done].
  rewrite !andb_true_r.
  destruct (Z.leb_spec s (line.end_time r)),
           (Z.leb_spec m (line.end_time r)),
           (Z.ltb_spec (line.start_time r) m),
           (Z.ltb_spec (line.start_time r) e); simpl; try (exfalso; lia); done.
Qed.

Lemma record_filter_split_witness :
  let a := args.mk None None None None false in
  let r := line.mk (job_of "alice" "ENV" "" "h1s1") "ENV" "q" 90 110 in
  record_filter 0 200 a r = record_filter 0 100 a r || record_filter 100 200 a r
  /\ record_filter 0 100 a r && record_filter 100 200 a r
     = record_filter 0 200 a r && (90 <? 100) && (100 <=? 110).
Proof.
  intros a r.
  exact (record_filter_split 0 100 200 a r ltac:(lia) ltac:(simpl; lia)).
Defined.

(** X6.  The owner lists are compared with the owner [record_modify]
    has set, after renaming.  With [--owners] made of retired names only
    (keys of [owner_owner_mapping]), no modified record passes the filter;
    with [--skipowners] made of such names only, no modified record is
    skipped for its owner. *)
Theorem record_filter_retired (s e : Z) (a : args.t) (r : line.t)
    (l : list string) :
  l <> [] ->
  Forall (fun o => is_Some (owner_owner_mapping !! o)) l ->
  (args.owners a = Some l ->
   record_filter s e a (record_modify r) = false)
  /\ (args.skipowners a = Some l ->
      listed (args.skipowners a) (equip_owner (line.job (record_modify r)))
      = false).
Proof.
  intros Hne Hl.
  assert (Hn : equip_owner (line.job (record_modify r)) ∉ l).
  { intros Hin. rewrite Forall_forall in Hl. apply Hl in Hin.
    destruct (equip_owner_wf r) as (_ & _ & Hk).
    rewrite Hk in Hin. by destruct Hin. }
  split.
  - intros Ho. rewrite record_filter_eq. unfold selected, unlisted.
    rewrite Ho. cbn [default]. rewrite (bool_decide_eq_false_2 _ Hn).
    destruct l; [congruence|]. cbn [nonempty negb andb].
    by rewrite !andb_false_r.
  - intros Ho. unfold listed. rewrite Ho. cbn [default].
    rewrite (bool_decide_eq_false_2 _ Hn). apply andb_false_r.
Qed.

(** X7.  With [--coreowners], whatever [--owners] was, a modified
    record that passes the filter has one of the nine core owners as its
    equipment owner, and its queue is no key of [queue_owner_mapping]:
    every record of a mapped queue is dropped, as the filter compares the
    owner and not its parent. *)
Theorem record_filter_coreowners (s e : Z) (a : args.t) (r : line.t) :
  args.coreowners a = true ->
  record_filter s e (main_args a) (record_modify r) = true ->
  equip_owner (line.job (record_modify r)) ∈ core_owners
  /\ queue_owner_mapping !! line.qname r = None.
Proof.
  intros Hc. unfold main_args. rewrite Hc, record_filter_eq.
  unfold selected. cbn [args.owners].
  pose proof (equip_owner_modify r) as Hm.
  pose proof (fun o => equip_owner_queue r o) as Hq.
  set (x := equip_owner (line.job (record_modify r))) in *.
  rewrite !andb_true_iff, !negb_true_iff. intros [_ [_ Ho]].
  unfold unlisted in Ho. cbn [nonempty default andb] in Ho.
  apply negb_false_iff in Ho. apply bool_decide_eq_true in Ho.
  split; [exact Ho|].
  destruct (queue_owner_mapping !! line.qname r) as [o|] eqn:Eq;
    [|reflexivity].
  exfalso.
  destruct (owner_def (line.project r)) as [[g1 g2]|] eqn:E.
  - assert (Hh : head_ok is_space (line.project r) = false).
    { destruct (head_ok is_space (line.project r)) eqn:Eh; [|reflexivity].
      apply owner_def_None in Eh. congruence. }
    rewrite (Hq o Hh eq_refl) in Ho.
    by apply (queue_owner_not_core (line.qname r) o Eq).
  - rewrite Hm in Ho. revert Ho.
    apply (bool_decide_unpack _). vm_compute. exact I.
Qed.

(** X8.  The parent column of the owners report: the parent of a parent
    is that parent, and a parent is <unknown>, ARC or one of the nine core
    owners. *)
Theorem parent_idempotent (o : string) :
  parent (parent o) = parent o
  /\ parent o ∈ "<unknown>"%string :: "ARC"%string :: core_owners.
Proof.
  unfold parent at 2 3 4.
  destruct (owner_parent_mapping !! o) as [p|] eqn:E; simpl.
  - apply parent_lookup in E. unfold core_owners in *.
    repeat (apply elem_of_cons in E as [->|E];
            [split; [vm_compute; reflexivity|decide_closed]|]).
    by apply elem_of_nil in E.
  - split; [vm_compute; reflexivity|decide_closed].
Qed.

Lemma record_modify_unknown_witness :
  equip_owner (line.job (record_modify
    (line.mk (job_of "alice" "" "-l h_vmem=4G" "c1s0b0n0") " ENV" "chem1.q"
             10 20)))
  = "<unknown>"%string.
Proof.
  exact (record_modify_unknown
           (line.mk (job_of "alice" "" "-l h_vmem=4G" "c1s0b0n0") " ENV"
                    "chem1.q" 10 20) eq_refl).
Defined.

Lemma record_modify_queue_witness :
  equip_owner (line.job (record_modify
    (line.mk (job_of "alice" "" "-l h_vmem=4G" "c1s0b0n0") "env_ENV"
             "chem1.q" 10 20)))
  = "chem"%string
  /\ parent "chem" ∈ ["ENV"; "ENG"; "MAPS"]%string
  /\ "chem"%string ∉ core_owners.
Proof.
  refine (record_modify_queue
           (line.mk (job_of "alice" "" "-l h_vmem=4G" "c1s0b0n0") "env_ENV"
                    "chem1.q" 10 20) "chem" eq_refl _).
  vm_compute; reflexivity.
Defined.

Lemma record_modify_project_witness :
  let r := line.mk (job_of "alice" "" "-l h_vmem=4G" "h7s3b15n1")
              "arc_ISS" "arc2.q" 10 20 in
  equip_owner (line.job (record_modify r)) = "ARC"%string.
Proof.
  intros r.
  refine (eq_trans (record_modify_project r "arc_" "ISS" "" _ _ _ _ _ _) _).
  - discriminate.
  - reflexivity.
  - reflexivity.
  - vm_compute; reflexivity.
  - reflexivity.
  - right. exists "arc"%string. split; [discriminate|]. split; reflexivity.
  - vm_compute; reflexivity.
Defined.

Lemma record_filter_retired_witness :
  let a := args.mk None None (Some ["ISS"%string]) None false in
  let r := line.mk (job_of "alice" "" "-l h_vmem=4G" "h7s3b15n1")
              "arc_ISS" "arc2.q" 10 20 in
  record_filter 0 100 a (record_modify r) = false.
Proof.
  intros a r.
  refine (proj1 (record_filter_retired 0 100 a r ["ISS"%string] _ _) eq_refl).
  - discriminate.
  - repeat constructor. vm_compute. eexists; reflexivity.
Defined.

Lemma record_filter_coreowners_witness :
  let a := args.mk None None (Some ["chem"%string]) None true in
  let r := line.mk (job_of "alice" "" "-l h_vmem=4G" "h7s3b15n1")
              "env_ENV" "arc2.q" 10 20 in
  equip_owner (line.job (record_modify r)) ∈ core_owners
  /\ queue_owner_mapping !! line.qname r = None.
Proof.
  intros a r.
  refine (record_filter_coreowners 0 100 a r eq_refl _).
  vm_compute; reflexivity.
Defined.

(** ** The loop of [main], record by record *)

Section loop_facts.
Context {sge_api : sge.api} {tz : libc.timezone}.
Variable backup_node_mpc : list rule.

Lemma core_hours_Ok (r : record) (t0 t1 : Z) (lines : list string) :
  core_hours backup_node_mpc r = Ok (t0, t1, lines) ->
  t0 = raw_time r
  /\ lines = (if unresolved backup_node_mpc r then [warning r] else [])
  /\ (unresolved backup_node_mpc r = true -> t1 = raw_time r).
Proof.
  unfold core_hours, unresolved, raw_time.
  destruct (mem_req_of r) as [|s|q],
           (mem_core_of backup_node_mpc r) as [c|];
    try (intros [= <- <- <-]; auto).
  - destruct (binary64.float c); discriminate.
  - destruct (binary64.ceil_div q c) as [k|]; [|discriminate].
    intros [= <- <- <-].
    split; [reflexivity|]. split; [reflexivity|]. discriminate.
Qed.

Lemma main_inv (date : option string) (records : list record)
    (owners : gmap string (gmap string usage.t))
    (users : gmap string usage.t) (summaries : gmap string summary.t)
    (err : list string) :
  main backup_node_mpc date records = Ok (owners, users, summaries, err) ->
  (exists range, parse_startend date = Ok range)
  /\ collect backup_node_mpc (∅, []) records = Ok (owners, err)
  /\ users = user_summary owners
  /\ summaries = owner_summaries owners.
Proof.
  unfold main. destruct (parse_startend date) as [range|]; [|discriminate].
  cbn [mbind py_bind].
  destruct (collect backup_node_mpc (∅, []) records) as [[o e]|];
    [|discriminate].
  cbn [mbind py_bind mret py_ret]. intros [= <- <- <- <-]. eauto.
Qed.

(** One turn from nothing. *)
Lemma collect_step (r : record) (records : list record)
    (owners : gmap string (gmap string usage.t)) (err : list string) :
  collect backup_node_mpc (∅, []) (r :: records) = Ok (owners, err) ->
  exists t0 t1 lines d e,
    core_hours backup_node_mpc r = Ok (t0, t1, lines)
    /\ collect backup_node_mpc (∅, []) records = Ok (d, e)
    /\ owners = merge_owners (contribution r t0 t1) d
    /\ err = lines ++ e.
Proof.
  rewrite collect_cons, record_usage_merge.
  destruct (core_hours backup_node_mpc r) as [[[t0 t1] lines]|];
    [|discriminate].
  cbn [mbind py_bind mret py_ret].
  rewrite (collect_shift backup_node_mpc
             (merge_owners ∅ (contribution r t0 t1))).
  destruct (collect backup_node_mpc (∅, []) records) as [[d e]|];
    [|discriminate].
  cbn [mbind py_bind mret py_ret]. rewrite merge_owners_empty_l.
  intros [= <- <-]. exists t0, t1, lines, d, e. auto.
Qed.

Lemma usage_at_contribution_ne (r : record) (t0 t1 : Z) (o u : string) :
  ~ (equip_owner r = o /\ owner r = u) ->
  usage_at (contribution r t0 t1) o u = usage.zero.
Proof.
  intros Hne. unfold usage_at, contribution.
  destruct (decide (equip_owner r = o)) as [<-|Ho].
  - rewrite lookup_singleton_eq. simpl.
    rewrite lookup_singleton_ne; [reflexivity|]. intros E. apply Hne. auto.
  - by rewrite lookup_singleton_ne.
Qed.

Lemma collect_usage_at (records : list record)
    (owners : gmap string (gmap string usage.t)) (err : list string)
    (o u : string) :
  collect backup_node_mpc (∅, []) records = Ok (owners, err) ->
  usage_at owners o u
  = usage.mk (Z.of_nat (length (matching o u records)))
             (sum_over raw_time (matching o u records))
             (sum_over (adjusted_time backup_node_mpc)
                       (matching o u records)).
Proof.
  revert owners err. induction records as [|r records IH]; intros owners err.
  - intros [= <- <-]. reflexivity.
  - intros H. apply collect_step in H
      as (t0 & t1 & lines & d & e & Hc & Hd & -> & ->).
    rewrite usage_at_merge, (IH d e Hd). unfold matching.
    rewrite filter_cons.
    destruct (decide (equip_owner r = o /\ owner r = u)) as [[<- <-]|Hne].
    + rewrite usage_at_contribution. cbn [length sum_over foldr].
      unfold usage.add. cbn [usage.jobs usage.time usage.time_adj].
      pose proof (core_hours_Ok _ _ _ _ Hc) as (-> & _ & _).
      assert (adjusted_time backup_node_mpc r = t1) as ->
        by (unfold adjusted_time; by rewrite Hc).
      f_equal. lia.
    + rewrite (usage_at_contribution_ne r t0 t1 o u Hne).
      apply usage_add_zero_l.
Qed.

Lemma collect_err (records : list record)
    (owners : gmap string (gmap string usage.t)) (err : list string) :
  collect backup_node_mpc (∅, []) records = Ok (owners, err) ->
  err = warning <$> filter (fun r => unresolved backup_node_mpc r = true)
                           records.
Proof.
  revert owners err. induction records as [|r records IH]; intros owners err.
  - intros [= <- <-]. reflexivity.
  - intros H. apply collect_step in H
      as (t0 & t1 & lines & d & e & Hc & Hd & -> & ->).
    rewrite (IH d e Hd), filter_cons.
    apply core_hours_Ok in Hc as (_ & -> & _).
    destruct (unresolved backup_node_mpc r) eqn:E.
    + rewrite decide_True by reflexivity. reflexivity.
    + rewrite decide_False by discriminate. reflexivity.
Qed.

Lemma has_entry_merge (a b : gmap string (gmap string usage.t))
    (o u : string) :
  has_entry (merge_owners a b) o u <-> has_entry a o u \/ has_entry b o u.
Proof.
  unfold has_entry. rewrite merge_owners_lookup.
  destruct (a !! o) as [x|], (b !! o) as [y|]; simpl;
    rewrite ?merge_usage_lookup;
    try (destruct (x !! u)); try (destruct (y !! u));
    rewrite ?is_Some_alt; tauto.
Qed.

Lemma has_entry_contribution (r : record) (t0 t1 : Z) (o u : string) :
  has_entry (contribution r t0 t1) o u <-> equip_owner r = o /\ owner r = u.
Proof.
  unfold has_entry, contribution.
  destruct (decide (equip_owner r = o)) as [<-|Ho].
  - rewrite lookup_singleton_eq. simpl.
    destruct (decide (owner r = u)) as [<-|Hu].
    + rewrite lookup_singleton_eq. rewrite is_Some_alt. tauto.
    + rewrite lookup_singleton_ne by done. rewrite is_Some_alt. tauto.
  - rewrite lookup_singleton_ne by done. simpl. rewrite is_Some_alt. tauto.
Qed.

Lemma collect_has_entry (records : list record)
    (owners : gmap string (gmap string usage.t)) (err : list string)
    (o u : string) :
  collect backup_node_mpc (∅, []) records = Ok (owners, err) ->
  has_entry owners o u
  <-> exists r, r ∈ records /\ equip_owner r = o /\ owner r = u.
Proof.
  revert owners err. induction records as [|r records IH]; intros owners err.
  - intros [= <- <-]. unfold has_entry. rewrite lookup_empty. simpl.
    rewrite is_Some_alt. split; [done|]. intros (r & Hr & _).
    by apply elem_of_nil in Hr.
  - intros H. apply collect_step in H
      as (t0 & t1 & lines & d & e & Hc & Hd & -> & ->).
    rewrite has_entry_merge, has_entry_contribution, (IH d e Hd). split.
    + intros [H|(r' & Hr & H)].
      * exists r. split; [left|exact H].
      * exists r'. split; [by right|exact H].
    + intros (r' & Hr & H). apply elem_of_cons in Hr as [->|Hr]; [by left|].
      right. eauto.
Qed.

Lemma no_empty_merge (a b : gmap string (gmap string usage.t)) :
  no_empty a -> no_empty b -> no_empty (merge_owners a b).
Proof.
  intros Ha Hb o data. rewrite merge_owners_lookup.
  destruct (a !! o) as [x|] eqn:Ea, (b !! o) as [y|] eqn:Eb.
  - intros [= <-]. destruct (Ha o x Ea) as [u [v Hu]]. exists u.
    rewrite merge_usage_lookup, Hu. destruct (y !! u); eexists; reflexivity.
  - intros [= <-]. by apply (Ha o).
  - intros [= <-]. by apply (Hb o).
  - discriminate.
Qed.

Lemma collect_no_empty (records : list record)
    (owners : gmap string (gmap string usage.t)) (err : list string) :
  collect backup_node_mpc (∅, []) records = Ok (owners, err) ->
  no_empty owners.
Proof.
  revert owners err. induction records as [|r records IH]; intros owners err.
  - intros [= <- <-] o data. by rewrite lookup_empty.
  - intros H. apply collect_step in H
      as (t0 & t1 & lines & d & e & Hc & Hd & -> & ->).
    apply no_empty_merge; [|by apply (IH d e)].
    intros o data. unfold contribution.
    destruct (decide (equip_owner r = o)) as [<-|Ho].
    + rewrite lookup_singleton_eq. intros [= <-]. exists (owner r).
      rewrite lookup_singleton_eq. eexists; reflexivity.
    + by rewrite lookup_singleton_ne.
Qed.

End loop_facts.

(** ** The summaries of [main] *)

Lemma reduce_is_msum {A} (field : A -> Z) (m : gmap string A) :
  reduce field m = msum Z.add 0 field m.
Proof. reflexivity. Qed.

Lemma reduce_insert {A} (field : A -> Z) (m : gmap string A) (k : string)
    (a : A) :
  m !! k = None -> reduce field (<[k := a]> m) = reduce field m + field a.
Proof.
  intros H. rewrite !reduce_is_msum.
  apply (msum_insert Z.add 0 Z.add_assoc Z.add_comm field m k a H).
Qed.

Lemma size_merge_usage (a b : gmap string usage.t) :
  (size (merge_usage a b) <= size a + size b)%nat.
Proof.
  rewrite <- !size_dom.
  assert (dom (merge_usage a b) = dom a ∪ dom b) as ->.
  { apply set_eq. intros k.
    rewrite elem_of_union, !elem_of_dom, merge_usage_lookup.
    destruct (a !! k), (b !! k); rewrite ?is_Some_alt; tauto. }
  pose proof (size_union_alt (dom a) (dom b)) as H.
  pose proof (subseteq_size (dom b ∖ dom a) (dom b)) as H'.
  assert (dom b ∖ dom a ⊆ dom b) as Hsub
    by (intros k Hk; apply elem_of_difference in Hk; tauto).
  apply H' in Hsub. lia.
Qed.

Lemma users_le_sum (owners : gmap string (gmap string usage.t)) :
  Z.of_nat (size (user_summary owners))
  <= reduce summary.users (owner_summaries owners).
Proof.
  rewrite user_summary_msum. unfold owner_summaries.
  induction owners as [|o data owners Ho IH] using map_ind.
  - rewrite fmap_empty. reflexivity.
  - rewrite fmap_insert, reduce_insert by (by rewrite lookup_fmap, Ho).
    rewrite (msum_insert merge_usage ∅ merge_usage_assoc merge_usage_comm
               id owners o data Ho).
    pose proof (size_merge_usage (msum merge_usage ∅ id owners) (id data)).
    destruct (owner_summary_total data) as (_ & _ & _ & ->).
    change (id data) with data in *. lia.
Qed.

Lemma users_ge_each (owners : gmap string (gmap string usage.t))
    (o : string) (data : gmap string usage.t) :
  owners !! o = Some data ->
  (size data <= size (user_summary owners))%nat.
Proof.
  intros Ho. rewrite <- !size_dom. apply subseteq_size.
  intros u Hu. apply elem_of_dom in Hu. apply elem_of_dom.
  apply user_summary_dom. eauto.
Qed.

Section main_facts.
Context {sge_api : sge.api} {tz : libc.timezone}.
Variable backup_node_mpc : list rule.

Lemma collect_time_total (records : list record)
    (owners : gmap string (gmap string usage.t)) (err : list string) :
  collect backup_node_mpc (∅, []) records = Ok (owners, err) ->
  usage.time (grand_total owners) = sum_over raw_time records
  /\ usage.time_adj (grand_total owners)
     = sum_over (adjusted_time backup_node_mpc) records.
Proof.
  revert owners err. induction records as [|r records IH]; intros owners err.
  - intros [= <- <-]. split; reflexivity.
  - intros H. apply collect_step in H
      as (t0 & t1 & lines & d & e & Hc & Hd & -> & ->).
    rewrite grand_total_merge, grand_total_contribution.
    destruct (IH d e Hd) as [H1 H2].
    pose proof (core_hours_Ok _ _ _ _ _ Hc) as (-> & _ & _).
    assert (adjusted_time backup_node_mpc r = t1) as Ha
      by (unfold adjusted_time; by rewrite Hc).
    cbn [sum_over foldr usage.add usage.time usage.time_adj].
    fold (sum_over raw_time records).
    fold (sum_over (adjusted_time backup_node_mpc) records).
    rewrite H1, H2, Ha. split; reflexivity.
Qed.

(** X9.  When [main] returns, the entry of an owner and a user in the
    [owners] dictionary counts the records of that owner and user, and
    holds the sum of their wallclock times slots and the sum of their
    adjusted times (all zero without such a record). *)
Theorem entry_totals (date : option string) (records : list record)
    (owners : gmap string (gmap string usage.t))
    (users : gmap string usage.t) (summaries : gmap string summary.t)
    (err : list string) (o u : string) :
  main backup_node_mpc date records = Ok (owners, users, summaries, err) ->
  usage_at owners o u
  = usage.mk (Z.of_nat (length (matching o u records)))
             (sum_over raw_time (matching o u records))
             (sum_over (adjusted_time backup_node_mpc)
                       (matching o u records)).
Proof.
  intros H. apply main_inv in H as (_ & Hc & _ & _).
  by apply (collect_usage_at backup_node_mpc records owners err).
Qed.

(** X10.  When [main] returns, the [owners] dictionary has an entry for
    an owner and a user exactly when some record has that owner and user;
    no owner has an empty dictionary, and every entry counts one job at
    least. *)
Theorem entries_exact (date : option string) (records : list record)
    (owners : gmap string (gmap string usage.t))
    (users : gmap string usage.t) (summaries : gmap string summary.t)
    (err : list string) :
  main backup_node_mpc date records = Ok (owners, users, summaries, err) ->
  (forall o u,
     has_entry owners o u
     <-> exists r, r ∈ records /\ equip_owner r = o /\ owner r = u)
  /\ (forall o data, owners !! o = Some data -> data <> ∅)
  /\ (forall o u,
        has_entry owners o u -> 1 <= usage.jobs (usage_at owners o u)).
Proof.
  intros H. apply main_inv in H as (_ & Hc & _ & _).
  split; [|split].
  - intros o u. by apply (collect_has_entry backup_node_mpc records owners err).
  - intros o data Ho ->.
    destruct (collect_no_empty backup_node_mpc records owners err Hc o ∅ Ho)
      as [u [x Hx]].
    by rewrite lookup_empty in Hx.
  - intros o u He.
    apply (collect_has_entry backup_node_mpc records owners err o u Hc) in He.
    destruct He as (r & Hr & Ho & Hu).
    rewrite (collect_usage_at backup_node_mpc records owners err o u Hc).
    cbn [usage.jobs].
    assert (r ∈ matching o u records) as Hin.
    { unfold matching. apply list_elem_of_filter. auto. }
    destruct (matching o u records); [by apply elem_of_nil in Hin|].
    simpl. lia.
Qed.

(** X11.  When [main] returns, standard error holds one warning for each
    record whose memory request or memory per core is unknown, in the
    order of the records, and nothing else. *)
Theorem stderr_lines (date : option string) (records : list record)
    (owners : gmap string (gmap string usage.t))
    (users : gmap string usage.t) (summaries : gmap string summary.t)
    (err : list string) :
  main backup_node_mpc date records = Ok (owners, users, summaries, err) ->
  err = warning <$> filter (fun r => unresolved backup_node_mpc r = true)
                           records.
Proof.
  intros H. apply main_inv in H as (_ & Hc & _ & _).
  by apply (collect_err backup_node_mpc records owners err).
Qed.

(** X12.  When [main] returns, the number of unique users (the totals
    row of the owners report) is at most the sum of the users of the
    owner summaries, and every owner summary counts at least one user and
    at most the number of unique users. *)
Theorem unique_users (date : option string) (records : list record)
    (owners : gmap string (gmap string usage.t))
    (users : gmap string usage.t) (summaries : gmap string summary.t)
    (err : list string) :
  main backup_node_mpc date records = Ok (owners, users, summaries, err) ->
  Z.of_nat (size users) <= reduce summary.users summaries
  /\ (forall o s, summaries !! o = Some s ->
        1 <= summary.users s <= Z.of_nat (size users)).
Proof.
  intros H. apply main_inv in H as (_ & Hc & -> & ->).
  split; [apply users_le_sum|].
  intros o s. unfold owner_summaries. rewrite lookup_fmap.
  destruct (owners !! o) as [data|] eqn:Ho; [|discriminate].
  intros [= <-]. destruct (owner_summary_total data) as (_ & _ & _ & ->).
  pose proof (users_ge_each owners o data Ho).
  destruct (collect_no_empty backup_node_mpc records owners err Hc o data Ho)
    as [u Hu].
  assert (size data <> 0%nat).
  { intros E. apply map_size_empty_iff in E. subst data.
    rewrite lookup_empty in Hu. by destruct Hu. }
  lia.
Qed.

(** X13.  When [main] returns, the core hours of the owner summaries add
    up to the sum over the records of wallclock time times slots, and the
    adjusted core hours to the sum of the adjusted times [core_hours]
    returned; when no record has its memory details, the two totals are
    the same. *)
Theorem time_totals (date : option string) (records : list record)
    (owners : gmap string (gmap string usage.t))
    (users : gmap string usage.t) (summaries : gmap string summary.t)
    (err : list string) :
  main backup_node_mpc date records = Ok (owners, users, summaries, err) ->
  reduce summary.time summaries = sum_over raw_time records
  /\ reduce summary.time_adj summaries
     = sum_over (adjusted_time backup_node_mpc) records
  /\ (Forall (fun r => unresolved backup_node_mpc r = true) records ->
      reduce summary.time_adj summaries = reduce summary.time summaries).
Proof.
  intros H. apply main_inv in H as (_ & Hc & -> & ->).
  destruct (collect_time_total records owners err Hc) as [H1 H2].
  rewrite (reduce_owner_summaries usage.time summary.time owners);
    [|reflexivity|reflexivity|intros; apply owner_summary_total].
  rewrite (reduce_owner_summaries usage.time_adj summary.time_adj owners);
    [|reflexivity|reflexivity|intros; apply owner_summary_total].
  rewrite H1, H2. split; [reflexivity|]. split; [reflexivity|].
  intros Hall.
  pose proof (proj2 (collect_returns backup_node_mpc records)
                (ex_intro _ _ Hc)) as Hret.
  clear Hc H1 H2. induction records as [|r records IH]; [reflexivity|].
  apply Forall_cons in Hall as [Hr Hall].
  apply Forall_cons in Hret as [[[[t0 t1] lines] Hc] Hret].
  cbn [sum_over foldr]. fold (sum_over raw_time records).
  fold (sum_over (adjusted_time backup_node_mpc) records).
  rewrite (IH Hall Hret).
  destruct (core_hours_Ok backup_node_mpc _ _ _ _ Hc) as (_ & _ & Ht).
  unfold adjusted_time at 1. rewrite Hc, (Ht Hr). reflexivity.
Qed.

(** X14.  [main] returns exactly when the date argument parses and
    [core_hours] returns for every record. *)
Theorem main_returns_iff (date : option string) (records : list record) :
  (exists v, main backup_node_mpc date records = Ok v)
  <-> (exists range, parse_startend date = Ok range)
      /\ Forall (fun r => exists v, core_hours backup_node_mpc r = Ok v)
                records.
Proof.
  split.
  - intros [[[[owners users] summaries] err] H].
    apply main_inv in H as (Hd & Hc & _ & _). split; [exact Hd|].
    apply collect_returns. eauto.
  - intros [[range Hd] Hall]. apply collect_returns in Hall as [[o e] Hc].
    eexists. by apply (main_returns backup_node_mpc date records range o e).
Qed.

(** X15.  When the date argument parses, the first record for which
    [core_hours] raises ends [main] with that exception, whatever records
    come after it: nothing is reported. *)
Theorem main_first_error (date : option string) (range : Z * Z)
    (l1 l2 : list record) (r : record) (e : exn) :
  parse_startend date = Ok range ->
  Forall (fun r => exists v, core_hours backup_node_mpc r = Ok v) l1 ->
  core_hours backup_node_mpc r = Raise e ->
  main backup_node_mpc date (l1 ++ r :: l2) = Raise e.
Proof.
  intros Hd Hl Hr. unfold main. rewrite Hd. cbn [mbind py_bind].
  rewrite collect_app.
  apply collect_returns in Hl as [[o err] ->]. cbn [mbind py_bind].
  rewrite collect_cons, record_usage_merge, Hr. reflexivity.
Qed.

End main_facts.

(** ** The table of host name patterns *)

Lemma fourth_rule_shadowed (host : string) :
  re_match (Seq (Lit "c2s0b") (Seq (Rng "0" "3") (Lit "n"))) host = true ->
  re_match (Seq (Lit "c") (Seq (Rng "1" "3") (Lit "s"))) host = true.
Proof.
  unfold re_match. cbn [re_run].
  destruct (strip_prefix "c2s0b" host) as [rest|] eqn:E; [|discriminate].
  apply strip_prefix_Some in E. subst host. intros _. reflexivity.
Qed.

Lemma seventh_rule_shadowed (host : string) :
  re_match (Seq (Lit "g8s") (Seq (Alt (Cls "789") (Lit "10")) (Lit "n"))) host
  = true ->
  re_match (Seq (Lit "g") (Seq (Rng "0" "9") (Lit "s"))) host = true.
Proof.
  unfold re_match. cbn [re_run].
  destruct (strip_prefix "g8s" host) as [rest|] eqn:E; [|discriminate].
  apply strip_prefix_Some in E. subst host. intros _. reflexivity.
Qed.

Lemma backup_mem_core_app (l1 l2 : list rule) (host : string)
    (init : option Z) :
  backup_mem_core (l1 ++ l2) host init
  = backup_mem_core l2 host (backup_mem_core l1 host init).
Proof. unfold backup_mem_core. apply foldl_app. Qed.

Lemma backup_mem_core_none (l : list rule) (host : string) (init : option Z) :
  Forall (fun b => re_match (regex b) host = false) l ->
  backup_mem_core l host init = init.
Proof.
  intros H. revert init. induction H as [|b l Hb _ IH]; intros init.
  - reflexivity.
  - unfold backup_mem_core in *. cbn [foldl]. rewrite Hb. apply IH.
Qed.

(** X17.  The loop over [backup_node_mpc]: when no rule matches the
    host name, the memory per core is left as it was; otherwise it is the
    [mpc] of the last rule that matches, whatever rules match before it. *)
Theorem backup_last_match (backup_node_mpc : list rule) (host : string)
    (init : option Z) :
  (Forall (fun b => re_match (regex b) host = false) backup_node_mpc ->
   backup_mem_core backup_node_mpc host init = init)
  /\ (forall l1 b l2,
        backup_node_mpc = l1 ++ b :: l2 ->
        re_match (regex b) host = true ->
        Forall (fun b' => re_match (regex b') host = false) l2 ->
        backup_mem_core backup_node_mpc host init = Some (mpc b)).
Proof.
  split; [apply backup_mem_core_none|].
  intros l1 b l2 -> Hb Hl2.
  rewrite backup_mem_core_app.
  change (b :: l2) with ([b] ++ l2). rewrite backup_mem_core_app.
  rewrite (backup_mem_core_none l2 host _ Hl2).
  unfold backup_mem_core. cbn [foldl]. by rewrite Hb.
Qed.

(** X18.  The table [backup_node_mpc] has ten rules, and the first, the
    fourth and the seventh never decide: for every host name and every
    initial value the loop gives the same memory per core with and
    without them, as the rule after each of them matches every host name
    it matches. *)
Theorem shadowed_rules {sge_api : sge.api} (rules : list rule)
    (host : string) (init : option Z) :
  backup_node_mpc_init = Ok rules ->
  exists r1 r2 r3 r4 r5 r6 r7 r8 r9 r10,
    rules = [r1; r2; r3; r4; r5; r6; r7; r8; r9; r10]
    /\ backup_mem_core rules host init
       = backup_mem_core [r2; r3; r5; r6; r8; r9; r10] host init.
Proof.
  unfold backup_node_mpc_init.
  repeat (match goal with
          | |- context [floordiv ?a ?b] =>
              destruct (floordiv a b) as [?|]; [|discriminate];
              cbn [mbind py_bind]
          end).
  cbn [mret py_ret]. intros [= <-].
  do 10 eexists. split; [reflexivity|].
  unfold backup_mem_core. cbn [foldl regex mpc].
  pose proof (first_rule_shadowed host) as H1.
  pose proof (fourth_rule_shadowed host) as H4.
  pose proof (seventh_rule_shadowed host) as H7.
  destruct (re_match (Seq (Lit "h7s3b1") (Cls "56")) host);
    [rewrite (H1 eq_refl)|];
  (destruct (re_match (Seq (Lit "c2s0b") (Seq (Rng "0" "3") (Lit "n"))) host);
    [rewrite (H4 eq_refl)|]);
  (destruct (re_match (Seq (Lit "g8s")
                (Seq (Alt (Cls "789") (Lit "10")) (Lit "n"))) host);
    [rewrite (H7 eq_refl)|]); reflexivity.
Qed.

(** ** Ranges of dates *)

Lemma parse_matched_split {tz : libc.timezone} (g1 g2 g3 : option string) :
  parse_matched g1 g2 g3
  = s ← range_start g1; e ← range_end (end_date g1 g2 g3); mret (s, e).
Proof.
  unfold parse_matched, range_start, range_end.
  fold (end_date g1 g2 g3).
  destruct (truthy g1).
  - destruct (star (parse_date g1)) as [a|]; [|reflexivity].
    cbn [mbind py_bind].
    destruct (datetime.new (datetime_defaults a)) as [x|]; [|reflexivity].
    cbn [mbind py_bind mret py_ret].
    destruct (star (parse_date (end_date g1 g2 g3))) as [b|]; [|reflexivity].
    cbn [mbind py_bind].
    destruct (next_datetime b) as [y|]; [|reflexivity].
    cbn [mbind py_bind]. by destruct (strftime_s y).
  - cbn [mbind py_bind mret py_ret].
    destruct (star (parse_date (end_date g1 g2 g3))) as [b|]; [|reflexivity].
    cbn [mbind py_bind].
    destruct (next_datetime b) as [y|]; [|reflexivity].
    cbn [mbind py_bind]. by destruct (strftime_s y).
Qed.

Lemma time_startend_def_upto (b : string) :
  all_digits b = true -> b <> EmptyString ->
  time_startend_def ("-" +:+ b) = Some (None, Some ("-" +:+ b), Some b)%string.
Proof.
  intros Hb Hnb. unfold time_startend_def.
  destruct b as [|cb b]; [congruence|].
  change ("-" +:+ String cb b)%string with (String "-" (String cb b)).
  change (span_digits (String "-" (String cb b)))
    with (EmptyString, String "-" (String cb b)).
  cbv iota beta. change (at_end (String "-" (String cb b))) with false.
  cbv iota. change (ord "-" =? 45) with true. cbv iota.
  rewrite (span_digits_all _ Hb). reflexivity.
Qed.

(** A single date: the start and the end are read from the same date. *)
Lemma parse_startend_single {tz : libc.timezone} (D : string) :
  all_digits D = true -> D <> EmptyString ->
  parse_startend (Some D)
  = s ← range_start (Some D); e ← range_end (Some D); mret (s, e).
Proof.
  intros Hd HD. rewrite (parse_startend_unfold D HD).
  rewrite (time_startend_def_single D Hd HD), parse_matched_split.
  assert (He : end_date (Some D) None None = Some D)
    by (destruct D; [congruence|reflexivity]).
  by rewrite He.
Qed.

Lemma parse_startend_closed {tz : libc.timezone} (A B : string) :
  all_digits A = true -> all_digits B = true -> B <> EmptyString ->
  parse_startend (Some (A +:+ "-" +:+ B))
  = s ← range_start (Some A); e ← range_end (Some B); mret (s, e).
Proof.
  intros HA HB HnB.
  assert (He : forall g1 g2, end_date g1 g2 (Some B) = Some B)
    by (intros; destruct B; [congruence|reflexivity]).
  destruct A as [|ca A].
  - change ("" +:+ "-" +:+ B)%string with ("-" +:+ B)%string.
    rewrite parse_startend_unfold by discriminate.
    by rewrite (time_startend_def_upto B HB HnB), parse_matched_split, He.
  - rewrite parse_startend_unfold by discriminate.
    rewrite (time_startend_def_range (String ca A) B HA ltac:(discriminate)
               HB HnB).
    by rewrite parse_matched_split, He.
Qed.

Lemma bind_pair_Ok (m1 m2 : py Z) (s e : Z) :
  (s' ← m1; e' ← m2; mret (s', e')) = Ok (s, e) -> m1 = Ok s /\ m2 = Ok e.
Proof.
  destruct m1 as [s'|]; [|discriminate]. cbn [mbind py_bind].
  destruct m2 as [e'|]; [|discriminate]. cbn [mbind py_bind mret py_ret].
  by intros [= <- <-].
Qed.

(** X19.  For dates [A] and [B] (strings of digits, [B] not empty): when
    [A] alone resolves to a range starting at [sa] and [B] alone to a
    range ending at [eb], then [A-B] resolves to the range from [sa] to
    [eb]; with [A] empty this is [-B], which starts at 0. *)
Theorem range_composition {tz : libc.timezone}
    (A B : string) (sa ea sb eb : Z) :
  all_digits A = true -> all_digits B = true -> B <> EmptyString ->
  parse_startend (Some A) = Ok (sa, ea) ->
  parse_startend (Some B) = Ok (sb, eb) ->
  parse_startend (Some (A +:+ "-" +:+ B)) = Ok (sa, eb).
Proof.
  intros HA HB HnB Ha Hb.
  rewrite (parse_startend_closed A B HA HB HnB).
  rewrite (parse_startend_single B HB HnB) in Hb.
  apply bind_pair_Ok in Hb as [_ ->].
  destruct A as [|ca A].
  - injection Ha as <- _. reflexivity.
  - rewrite (parse_startend_single _ HA ltac:(discriminate)) in Ha.
    apply bind_pair_Ok in Ha as [-> _]. reflexivity.
Qed.

Lemma range_composition_witness :
  parse_startend (tz := libc.utc) (Some "201806-201905"%string)
  = Ok (1527811200, 1559347200).
Proof.
  exact (range_composition (tz := libc.utc)
           "201806" "201905" 1527811200 1530403200
           1556668800 1559347200 eq_refl eq_refl ltac:(discriminate)
           eq_refl eq_refl).
Defined.







Lemma add_year_9999 (x : datetime.t) :
  datetime.year x = 9999 ->
  datetime.add_relativedelta x 1 0 = Raise ValueError.
Proof.
  intros Hy.
  unfold datetime.add_relativedelta, datetime.replace_date, datetime.make.
  rewrite Hy. change (0 =? 0) with true. cbv iota beta zeta.
  unfold datetime.check_date_fields.
  change (9999 + 1 <=? datetime.MAXYEAR) with false.
  rewrite andb_false_r. reflexivity.
Qed.

Lemma next_datetime_9999 (c : list Z) :
  (1 <= length c <= 6)%nat -> nth 0 c 1970 = 9999 ->
  next_datetime c = Raise ValueError.
Proof.
  intros Hl Hy. destruct (calendar_ok c) eqn:Hc.
  2: by apply next_datetime_out_of_range.
  unfold next_datetime. rewrite (new_defaults c Hl), Hc.
  cbn [mbind py_bind].
  by rewrite (add_year_9999 (datetime_of c) Hy).
Qed.

Lemma range_end_9999 {tz : libc.timezone} (D : string) (c : list Z) :
  parse_date (Some D) = Some c -> nth 0 c 1970 = 9999 ->
  range_end (Some D) = Raise ValueError.
Proof.
  intros Hp Hy. unfold range_end. rewrite Hp. cbn [star mbind py_bind].
  pose proof (parse_date_spec _ _ Hp) as [Hl _].
  by rewrite (next_datetime_9999 c Hl Hy).
Qed.

Lemma range_start_exn {tz : libc.timezone} (D : string) (c : list Z) :
  parse_date (Some D) = Some c ->
  range_start (Some D) = Raise ValueError
  \/ exists s, range_start (Some D) = Ok s.
Proof.
  intros Hp. unfold range_start. destruct (truthy (Some D)); [|eauto].
  rewrite start_eq, Hp. destruct (calendar_ok c); eauto.
Qed.

(** X21.  No date of the year 9999 can end a range, at any precision:
    [next_datetime] evaluates every entry of its [case] dictionary, and the
    entry one year later does not exist.  So a single date of that year,
    and every range ending at one, raises [ValueError]. *)
Theorem year_9999_unusable {tz : libc.timezone} (D : string) (c : list Z) :
  all_digits D = true ->
  parse_date (Some D) = Some c ->
  nth 0 c 1970 = 9999 ->
  parse_startend (Some D) = Raise ValueError
  /\ (forall A s e,
        all_digits A = true ->
        A = EmptyString \/ parse_startend (Some A) = Ok (s, e) ->
        parse_startend (Some (A +:+ "-" +:+ D)) = Raise ValueError).
Proof.
  intros HD Hp Hy.
  assert (HnD : D <> EmptyString) by (intros ->; discriminate).
  split.
  - rewrite (parse_startend_single D HD HnD), (range_end_9999 D c Hp Hy).
    by destruct (range_start_exn D c Hp) as [->|[s ->]].
  - intros A s e HA Ha.
    rewrite (parse_startend_closed A D HA HD HnD), (range_end_9999 D c Hp Hy).
    destruct Ha as [->|Ha]; [reflexivity|].
    destruct A as [|ca A]; [reflexivity|].
    rewrite (parse_startend_single _ HA ltac:(discriminate)) in Ha.
    apply bind_pair_Ok in Ha as [-> _]. reflexivity.
Qed.

Lemma year_9999_unusable_witness :
  parse_startend (tz := libc.utc) (Some "99990101"%string)
  = Raise ValueError.
Proof.
  exact (proj1 (year_9999_unusable (tz := libc.utc)
                  "99990101" [9999; 1; 1]
                  eq_refl eq_refl eq_refl)).
Defined.

(** ** A final newline *)

Lemma append_cons (c : ascii) (s t : string) :
  (String c s +:+ t)%string = String c (s +:+ t).
Proof. reflexivity. Qed.

Lemma span_digits_newline (s d r : string) :
  span_digits s = (d, r) ->
  span_digits (s +:+ newline) = (d, r +:+ newline)%string.
Proof.
  revert d r. induction s as [|c s IH]; intros d r.
  - intros [= <- <-]. reflexivity.
  - rewrite append_cons. simpl. destruct (is_digit c).
    + destruct (span_digits s) as [d' r'] eqn:E. intros [= <- <-].
      by rewrite (IH d' r' eq_refl).
    + intros [= <- <-]. reflexivity.
Qed.

Lemma span_digits_suffix (p : ascii -> bool) (s d r : string) :
  span_digits s = (d, r) -> all_chars p s = true -> all_chars p r = true.
Proof.
  revert d r. induction s as [|c s IH]; intros d r; simpl.
  - by intros [= <- <-].
  - destruct (is_digit c).
    + destruct (span_digits s) as [d' r'] eqn:E. intros [= <- <-] H.
      apply andb_true_iff in H as [_ H]. by apply (IH d' r').
    + by intros [= <- <-].
Qed.

Lemma at_end_newline (r : string) :
  all_chars no_newline r = true -> at_end (r +:+ newline) = at_end r.
Proof.
  destruct r as [|c [|c' r]]; [reflexivity| |reflexivity].
  simpl. rewrite andb_true_r. unfold no_newline. intros H.
  apply negb_true_iff in H. rewrite H. reflexivity.
Qed.

Lemma time_startend_def_newline (s : string) :
  all_chars no_newline s = true ->
  time_startend_def (s +:+ newline) = time_startend_def s.
Proof.
  intros Hs. unfold time_startend_def.
  destruct (span_digits s) as [d1 r1] eqn:E1.
  rewrite (span_digits_newline s d1 r1 E1).
  pose proof (span_digits_suffix no_newline s d1 r1 E1 Hs) as Hr1.
  rewrite (at_end_newline r1 Hr1).
  destruct (at_end r1) eqn:A1; [reflexivity|].
  destruct r1 as [|c r2]; [discriminate|]. rewrite append_cons.
  destruct (ord c =? 45); [|reflexivity].
  destruct (span_digits r2) as [d2 r3] eqn:E2.
  rewrite (span_digits_newline r2 d2 r3 E2).
  simpl in Hr1. apply andb_true_iff in Hr1 as [_ Hr2].
  pose proof (span_digits_suffix no_newline r2 d2 r3 E2 Hr2) as Hr3.
  by rewrite (at_end_newline r3 Hr3).
Qed.

Lemma digit_pairs_newline (n : nat) (s r : string) (gs : list string) :
  all_chars no_newline s = true ->
  digit_pairs n s = (gs, r) ->
  digit_pairs n (s +:+ newline) = (gs, r +:+ newline)%string
  /\ all_chars no_newline r = true.
Proof.
  revert s r gs. induction n as [|n IH]; intros s r gs Hs.
  - simpl. by intros [= <- <-].
  - destruct s as [|a [|b s]].
    + simpl. by intros [= <- <-].
    + simpl. intros [= <- <-]. rewrite andb_false_r. auto.
    + rewrite !append_cons. simpl.
      destruct (is_digit a && is_digit b).
      * destruct (digit_pairs n s) as [gs' r'] eqn:E. intros [= <- <-].
        simpl in Hs. apply andb_true_iff in Hs as [_ Hs].
        apply andb_true_iff in Hs as [_ Hs].
        destruct (IH s r' gs' Hs E) as [-> Hr]. auto.
      * intros [= <- <-]. auto.
Qed.

Lemma datetime_def_newline (s : string) :
  all_chars no_newline s = true ->
  datetime_def (s +:+ newline) = datetime_def s.
Proof.
  intros Hs. unfold datetime_def.
  destruct s as [|a [|b [|c [|d r]]]]; try reflexivity.
  - rewrite !append_cons. change ("" +:+ newline)%string with newline.
    unfold newline. change (is_digit "010") with false.
    by rewrite andb_false_r.
  - rewrite !append_cons.
    destruct (is_digit a && is_digit b && is_digit c && is_digit d);
      [|reflexivity].
    destruct (digit_pairs 5 r) as [gs r'] eqn:E.
    simpl in Hs. repeat (apply andb_true_iff in Hs as [_ Hs]).
    destruct (digit_pairs_newline 5 r r' gs Hs E) as [-> Hr'].
    by rewrite (at_end_newline r' Hr').
Qed.

(** X22.  A final newline is accepted and ignored ([$] matches before
    it): for a string without a newline, [parse_date] reads the string
    followed by a newline as it reads the string, and so does
    [parse_startend] when the string is not empty. *)
Theorem trailing_newline {tz : libc.timezone} (s : string) :
  all_chars no_newline s = true ->
  parse_date (Some (s +:+ newline)) = parse_date (Some s)
  /\ (s <> EmptyString ->
      parse_startend (Some (s +:+ newline)) = parse_startend (Some s)).
Proof.
  intros Hs. split.
  - destruct s as [|c s]; [reflexivity|].
    unfold parse_date. rewrite append_cons, <- append_cons.
    by rewrite (datetime_def_newline _ Hs).
  - intros Hne. rewrite (parse_startend_unfold s Hne).
    rewrite parse_startend_unfold by (destruct s; [congruence|discriminate]).
    by rewrite (time_startend_def_newline s Hs).
Qed.

Lemma trailing_newline_witness :
  parse_startend (tz := libc.utc) (Some ("2018" +:+ newline))
  = Ok (1514764800, 1546300800).
Proof.
  exact (eq_trans
           (proj2 (trailing_newline (tz := libc.utc) "2018" eq_refl)
              ltac:(discriminate))
           eq_refl).
Defined.

(** ** Dates, written and read *)

Lemma ord_digit (k : Z) : 0 <= k <= 9 -> ord (digit k) = 48 + k.
Proof.
  intros Hk. unfold ord, digit. rewrite N_ascii_embedding; lia.
Qed.

Lemma is_digit_digit (k : Z) : 0 <= k <= 9 -> is_digit (digit k) = true.
Proof. intros Hk. unfold is_digit. rewrite (ord_digit k Hk). lia. Qed.

Lemma digit_ord (a : ascii) : digit (ord a - 48) = a.
Proof.
  unfold digit, ord. replace (48 + (Z.of_N (N_of_ascii a) - 48))
    with (Z.of_N (N_of_ascii a)) by lia.
  rewrite N2Z.id. apply ascii_N_embedding.
Qed.

Lemma int_two_digits (n : Z) : 0 <= n <= 99 -> int (two_digits n) = n.
Proof.
  intros Hn. unfold int, two_digits. cbn [int_acc].
  rewrite !ord_digit by (Z.div_mod_to_equations; lia).
  Z.div_mod_to_equations; lia.
Qed.

Lemma int_four_digits (n : Z) : 0 <= n <= 9999 -> int (four_digits n) = n.
Proof.
  intros Hn. unfold int, four_digits, two_digits.
  rewrite !append_cons. change ("" +:+ ?s)%string with s. cbn [int_acc].
  rewrite !ord_digit by (Z.div_mod_to_equations; lia).
  Z.div_mod_to_equations; lia.
Qed.

Lemma two_digits_int (a b : ascii) :
  is_digit a = true -> is_digit b = true ->
  two_digits (int (String a (String b EmptyString)))
  = String a (String b EmptyString).
Proof.
  intros Ha Hb. apply is_digit_value in Ha, Hb.
  unfold two_digits, int. cbn [int_acc].
  replace ((0 * 10 + (ord a - 48)) * 10 + (ord b - 48))
    with ((ord a - 48) * 10 + (ord b - 48)) by lia.
  replace (((ord a - 48) * 10 + (ord b - 48)) / 10) with (ord a - 48)
    by (Z.div_mod_to_equations; lia).
  replace (((ord a - 48) * 10 + (ord b - 48)) mod 10) with (ord b - 48)
    by (Z.div_mod_to_equations; lia).
  by rewrite !digit_ord.
Qed.

Lemma four_digits_int (a b c d : ascii) :
  is_digit a = true -> is_digit b = true ->
  is_digit c = true -> is_digit d = true ->
  four_digits (int (String a (String b (String c (String d EmptyString)))))
  = String a (String b (String c (String d EmptyString))).
Proof.
  intros Ha Hb Hc Hd. apply is_digit_value in Ha, Hb, Hc, Hd.
  unfold four_digits, two_digits, int. cbn [int_acc].
  set (n := (((0 * 10 + (ord a - 48)) * 10 + (ord b - 48)) * 10
             + (ord c - 48)) * 10 + (ord d - 48)).
  replace (n / 100 / 10) with (ord a - 48)
    by (subst n; Z.div_mod_to_equations; lia).
  replace ((n / 100) mod 10) with (ord b - 48)
    by (subst n; Z.div_mod_to_equations; lia).
  replace (n mod 100 / 10) with (ord c - 48)
    by (subst n; Z.div_mod_to_equations; lia).
  replace ((n mod 100) mod 10) with (ord d - 48)
    by (subst n; Z.div_mod_to_equations; lia).
  by rewrite !digit_ord.
Qed.

Lemma append_nil_r (s : string) : (s +:+ "")%string = s.
Proof.
  induction s as [|x s IH]; [reflexivity|]. by rewrite append_cons, IH.
Qed.

Lemma all_digits_app (a b : string) :
  all_digits (a +:+ b) = all_digits a && all_digits b.
Proof.
  induction a as [|x a IH]; [reflexivity|].
  rewrite append_cons. simpl. by rewrite IH, andb_assoc.
Qed.

Lemma digit_pairs_format (n : nat) (rest : list Z) :
  (length rest <= n)%nat -> Forall (fun k => 0 <= k <= 99) rest ->
  digit_pairs n (foldr append EmptyString (two_digits <$> rest))
  = (two_digits <$> rest, EmptyString).
Proof.
  revert rest. induction n as [|n IH]; intros rest Hl Hr.
  - destruct rest; [reflexivity|simpl in Hl; lia].
  - destruct rest as [|k rest]; [reflexivity|].
    apply Forall_cons in Hr as [Hk Hr]. simpl in Hl.
    rewrite fmap_cons. cbn [foldr]. unfold two_digits at 1.
    rewrite !append_cons. change ("" +:+ ?s)%string with s.
    cbn [digit_pairs].
    rewrite !is_digit_digit by (Z.div_mod_to_equations; lia).
    cbn [andb]. rewrite (IH rest) by (auto; lia). reflexivity.
Qed.

Lemma digit_pairs_concat (n : nat) (s r : string) (gs : list string) :
  digit_pairs n s = (gs, r) ->
  s = (foldr append EmptyString gs +:+ r)%string
  /\ two_digits <$> (int <$> gs) = gs.
Proof.
  revert s r gs. induction n as [|n IH]; intros s r gs.
  - simpl. by intros [= <- <-].
  - destruct s as [|a [|b s]]; try (simpl; by intros [= <- <-]).
    cbn [digit_pairs].
    destruct (is_digit a && is_digit b) eqn:E; [|by intros [= <- <-]].
    apply andb_true_iff in E as [Ha Hb].
    destruct (digit_pairs n s) as [gs' r'] eqn:E'. intros [= <- <-].
    destruct (IH s r' gs' E') as [-> Hgs].
    rewrite !fmap_cons, Hgs, (two_digits_int a b Ha Hb). split; reflexivity.
Qed.

(** X23.  [parse_date] reads YYYY[MM[DD[HH[MM[SS]]]]]: a year of four
    digits followed by up to five numbers of two digits each parses to
    these numbers, and a string of digits that parses is the one written
    from its components in this way (so it has four digits and two more
    for each further component). *)
Theorem parse_date_format :
  (forall y rest,
     0 <= y <= 9999 -> Forall (fun k => 0 <= k <= 99) rest ->
     (length rest <= 5)%nat ->
     parse_date (Some (format_date (y :: rest))) = Some (y :: rest))
  /\ (forall D c,
        all_digits D = true -> parse_date (Some D) = Some c ->
        format_date c = D).
Proof.
  split.
  - intros y rest Hy Hr Hl. unfold format_date. cbn [foldr].
    unfold four_digits, two_digits at 1 2.
    rewrite !append_cons. change ("" +:+ ?s)%string with s.
    rewrite !append_cons. change ("" +:+ ?s)%string with s.
    unfold parse_date, datetime_def.
    rewrite !is_digit_digit by (Z.div_mod_to_equations; lia).
    cbn [andb]. rewrite (digit_pairs_format 5 rest Hl Hr).
    cbn [at_end]. rewrite fmap_cons. f_equal. f_equal.
    + apply (int_four_digits y Hy).
    + rewrite <- list_fmap_compose. rewrite <- (list_fmap_id rest) at 2.
      apply Forall_fmap_ext_1. eapply Forall_impl; [exact Hr|].
      intros k Hk. apply (int_two_digits k Hk).
  - intros D c HD. unfold parse_date, datetime_def.
    destruct D as [|a [|b [|c0 [|d r]]]]; try discriminate.
    destruct (is_digit a && is_digit b && is_digit c0 && is_digit d) eqn:E;
      [|discriminate].
    apply andb_true_iff in E as [E Hd]. apply andb_true_iff in E as [E Hc].
    apply andb_true_iff in E as [Ha Hb].
    destruct (digit_pairs 5 r) as [gs r'] eqn:Eg.
    destruct (digit_pairs_concat 5 r r' gs Eg) as [-> Hgs].
    destruct (at_end r') eqn:A; [|discriminate]. intros [= <-].
    assert (r' = EmptyString) as ->.
    { simpl in HD. repeat (apply andb_true_iff in HD as [_ HD]).
      destruct r' as [|x [|? ?]]; [reflexivity| |discriminate].
      exfalso. simpl in A. apply Z.eqb_eq in A.
      rewrite all_digits_app in HD. apply andb_true_iff in HD as [_ HD].
      simpl in HD. unfold is_digit in HD. lia. }
    unfold format_date. cbn [foldr].
    change (list_fmap string Z int gs) with (int <$> gs).
    rewrite Hgs, (four_digits_int a b c0 d Ha Hb Hc Hd).
    rewrite !append_cons. change ("" +:+ ?s)%string with s.
    by rewrite append_nil_r.
Qed.

(** ** A sample run *)

Lemma sample_main :
  exists owners err,
    main (tz := libc.utc) sge_model.backup_node_mpc
      (Some "2018"%string) sample_records
    = Ok (owners, user_summary owners, owner_summaries owners, err).
Proof.
  destruct (proj1 (collect_returns sge_model.backup_node_mpc sample_records))
    as [[owners err] Hc].
  { repeat constructor; eexists; vm_compute; reflexivity. }
  exists owners, err.
  exact (main_returns (tz := libc.utc) sge_model.backup_node_mpc
    (Some "2018"%string)
           sample_records (1514764800, 1546300800) owners err eq_refl Hc).
Qed.

Lemma entry_totals_witness :
  exists owners users summaries err,
    main (tz := libc.utc) sge_model.backup_node_mpc
      (Some "2018"%string) sample_records
    = Ok (owners, users, summaries, err)
    /\ usage_at owners "ENG" "bob" = usage.mk 1 14400 28800.
Proof.
  destruct sample_main as (owners & err & E).
  exists owners, (user_summary owners), (owner_summaries owners), err.
  split; [exact E|].
  refine (eq_trans (entry_totals sge_model.backup_node_mpc _ _ _ _ _ _
                      "ENG" "bob" E) _).
  vm_compute. reflexivity.
Defined.

Lemma entries_exact_witness :
  exists owners users summaries err,
    main (tz := libc.utc) sge_model.backup_node_mpc
      (Some "2018"%string) sample_records
    = Ok (owners, users, summaries, err)
    /\ (has_entry owners "ENV" "alice"
        <-> exists r, r ∈ sample_records
                      /\ equip_owner r = "ENV"%string
                      /\ owner r = "alice"%string).
Proof.
  destruct sample_main as (owners & err & E).
  exists owners, (user_summary owners), (owner_summaries owners), err.
  split; [exact E|].
  exact (proj1 (entries_exact sge_model.backup_node_mpc _ _ _ _ _ _ E)
           "ENV"%string "alice"%string).
Defined.

Lemma stderr_lines_witness :
  exists owners users summaries err,
    main (tz := libc.utc) sge_model.backup_node_mpc
      (Some "2018"%string) sample_records
    = Ok (owners, users, summaries, err)
    /\ err = ["Warning: could not extract mem or mem per node details for job1 (-l h_rt=3600)"%string].
Proof.
  destruct sample_main as (owners & err & E).
  exists owners, (user_summary owners), (owner_summaries owners), err.
  split; [exact E|].
  refine (eq_trans (stderr_lines sge_model.backup_node_mpc _ _ _ _ _ _ E) _).
  vm_compute. reflexivity.
Defined.

Lemma unique_users_witness :
  exists owners users summaries err,
    main (tz := libc.utc) sge_model.backup_node_mpc
      (Some "2018"%string) sample_records
    = Ok (owners, users, summaries, err)
    /\ Z.of_nat (size users) <= reduce summary.users summaries.
Proof.
  destruct sample_main as (owners & err & E).
  exists owners, (user_summary owners), (owner_summaries owners), err.
  split; [exact E|].
  exact (proj1 (unique_users sge_model.backup_node_mpc _ _ _ _ _ _ E)).
Defined.

Lemma time_totals_witness :
  exists owners users summaries err,
    main (tz := libc.utc) sge_model.backup_node_mpc
      (Some "2018"%string) sample_records
    = Ok (owners, users, summaries, err)
    /\ reduce summary.time summaries = 43200.
Proof.
  destruct sample_main as (owners & err & E).
  exists owners, (user_summary owners), (owner_summaries owners), err.
  split; [exact E|].
  refine (eq_trans
            (proj1 (time_totals sge_model.backup_node_mpc _ _ _ _ _ _ E)) _).
  vm_compute. reflexivity.
Defined.

Lemma main_first_error_witness :
  main (tz := libc.utc) sge_model.backup_node_mpc (Some "2018"%string)
    ([job_of "alice" "ENV" "-l h_vmem=40G,node_type=24core-384G" "d8s0b1"]
     ++ job_of "bob" "ENG" "-l h_vmem=,node_type=24core-128G" "d8s0b1"
     :: [job_of "carol" "ENG" "-l h_vmem=4G" "h7s3b15n1"])
  = Raise TypeError.
Proof.
  refine (main_first_error (tz := libc.utc) sge_model.backup_node_mpc
    (Some "2018"%string)
            (1514764800, 1546300800) _ _ _ TypeError eq_refl _ _).
  - repeat constructor. eexists. vm_compute. reflexivity.
  - vm_compute. reflexivity.
Defined.

Lemma shadowed_rules_witness :
  exists r1 r2 r3 r4 r5 r6 r7 r8 r9 r10,
    sge_model.backup_node_mpc = [r1; r2; r3; r4; r5; r6; r7; r8; r9; r10]
    /\ backup_mem_core sge_model.backup_node_mpc "h7s3b15n1" None
       = backup_mem_core [r2; r3; r5; r6; r8; r9; r10] "h7s3b15n1" None.
Proof.
  exact (shadowed_rules sge_model.backup_node_mpc "h7s3b15n1" None
           table_initialised).
Defined.

Lemma backup_last_match_witness :
  backup_mem_core
    [ {| regex := Lit "h7"; mpc := 1 |}; {| regex := Lit "h"; mpc := 2 |};
      {| regex := Lit "g"; mpc := 3 |} ] "h7s3b15n1" None
  = Some 2.
Proof.
  refine (proj2 (backup_last_match _ "h7s3b15n1" None)
            [ {| regex := Lit "h7"; mpc := 1 |} ]
            {| regex := Lit "h"; mpc := 2 |}
            [ {| regex := Lit "g"; mpc := 3 |} ] eq_refl eq_refl _).
  repeat constructor.
Defined.

Lemma parse_date_format_witness :
  parse_date (Some (format_date [2018; 3; 15])) = Some [2018; 3; 15]
  /\ format_date [2018; 3; 15] = "20180315"%string.
Proof.
  split.
  - refine (proj1 parse_date_format 2018 [3; 15] _ _ _).
    + lia.
    + repeat constructor; lia.
    + simpl; lia.
  - reflexivity.
Defined.

(** ** Columns of the reports *)

Lemma insert_sorted_perm (x : string) (l : list string) :
  insert_sorted x l ≡ₚ x :: l.
Proof.
  induction l as [|y l IH]; [reflexivity|]. simpl.
  destruct (String.leb x y); [reflexivity|].
  rewrite IH. apply perm_swap.
Qed.

Lemma sorted_perm (l : list string) : sorted l ≡ₚ l.
Proof.
  induction l as [|x l IH]; [reflexivity|].
  unfold sorted in *. cbn [foldr]. by rewrite insert_sorted_perm, IH.
Qed.

Lemma ascending_cons (x y : string) (l : list string) :
  ascending (x :: y :: l) = String.leb x y && ascending (y :: l).
Proof. reflexivity. Qed.

Lemma ascending_tail (x : string) (l : list string) :
  ascending (x :: l) = true -> ascending l = true.
Proof.
  destruct l as [|y l]; [reflexivity|]. rewrite ascending_cons.
  by intros [_ H]%andb_true_iff.
Qed.

Lemma insert_sorted_ascending (x : string) (l : list string) :
  ascending l = true -> ascending (insert_sorted x l) = true.
Proof.
  induction l as [|y l IH]; [reflexivity|]. intros Hl.
  cbn [insert_sorted]. destruct (String.leb x y) eqn:E.
  - by rewrite ascending_cons, E, Hl.
  - assert (Hyx : String.leb y x = true).
    { destruct (String.leb_total x y) as [H|H]; [congruence|exact H]. }
    specialize (IH (ascending_tail y l Hl)).
    destruct l as [|z l].
    + cbn [insert_sorted]. by rewrite ascending_cons, Hyx.
    + rewrite ascending_cons in Hl. apply andb_true_iff in Hl as [Hyz _].
      cbn [insert_sorted] in *.
      destruct (String.leb x z).
      * by rewrite ascending_cons, Hyx, IH.
      * by rewrite ascending_cons, Hyz, IH.
Qed.

Lemma sorted_ascending (l : list string) : ascending (sorted l) = true.
Proof.
  induction l as [|x l IH]; [reflexivity|].
  unfold sorted in *. cbn [foldr]. by apply insert_sorted_ascending.
Qed.

Lemma inner_comprehension (o user : string) (l : list string) :
  NoDup l ->
  (l ≫= fun u => if decide (u = user) then [o] else [])
  = if decide (user ∈ l) then [o] else [].
Proof.
  induction 1 as [|u l Hu Hl IH]; [reflexivity|].
  cbn [mbind list_bind]. change (list_bind _ _ ?f l) with (l ≫= f).
  rewrite IH.
  destruct (decide (u = user)) as [->|Hne].
  - rewrite (decide_False (P := user ∈ l)) by done.
    by rewrite decide_True by left.
  - simpl. destruct (decide (user ∈ l)) as [Hin|Hin].
    + by rewrite decide_True by (by right).
    + rewrite decide_False; [reflexivity|].
      intros Hc. apply elem_of_cons in Hc as [->|Hc]; done.
Qed.

Lemma comprehension_elem (owners : gmap string (gmap string usage.t))
    (user o : string) :
  o ∈ ('(o, data) ← map_to_list owners;
       u ← (map_to_list data).*1;
       if decide (u = user) then [o] else [])
  <-> has_entry owners o user.
Proof.
  rewrite list_elem_of_bind. unfold has_entry. split.
  - intros ([o' data] & Hin & Ho).
    apply elem_of_map_to_list in Ho.
    rewrite inner_comprehension in Hin by apply NoDup_fst_map_to_list.
    destruct (decide _) as [Hu|]; [|by apply elem_of_nil in Hin].
    apply list_elem_of_singleton in Hin as ->. rewrite Ho. simpl.
    apply list_elem_of_fmap in Hu as ([u x] & -> & Hx).
    apply elem_of_map_to_list in Hx. simpl. eauto.
  - intros [x Hx]. destruct (owners !! o) as [data|] eqn:Ho; [|discriminate].
    simpl in Hx. exists (o, data). split; [|by apply elem_of_map_to_list].
    rewrite inner_comprehension by apply NoDup_fst_map_to_list.
    rewrite decide_True; [by left|].
    apply list_elem_of_fmap. exists (user, x).
    split; [reflexivity|by apply elem_of_map_to_list].
Qed.

Lemma comprehension_NoDup (owners : gmap string (gmap string usage.t))
    (user : string) :
  NoDup ('(o, data) ← map_to_list owners;
         u ← (map_to_list data).*1;
         if decide (u = user) then [o] else []).
Proof.
  apply NoDup_bind.
  - intros [o1 d1] [o2 d2] y H1 H2.
    rewrite !inner_comprehension by apply NoDup_fst_map_to_list.
    destruct (decide _); [|by intros Hy; apply elem_of_nil in Hy].
    destruct (decide _); [|by intros _ Hy; apply elem_of_nil in Hy].
    intros ->%list_elem_of_singleton ->%list_elem_of_singleton.
    f_equal. by apply (map_to_list_unique owners o2).
  - intros [o d] _.
    rewrite inner_comprehension by apply NoDup_fst_map_to_list.
    destruct (decide _); [apply NoDup_singleton|apply NoDup_nil_2].
  - apply NoDup_map_to_list.
Qed.

(** X24.  The owners column of a user in the users report lists
    exactly the owners under which the user has an entry, each once, in
    ascending order; it is not empty for a user with a summary. *)
Theorem user_owners_spec (owners : gmap string (gmap string usage.t))
    (user : string) :
  (forall o, o ∈ user_owners owners user <-> has_entry owners o user)
  /\ NoDup (user_owners owners user)
  /\ ascending (user_owners owners user) = true
  /\ (is_Some (user_summary owners !! user) ->
      user_owners owners user <> []).
Proof.
  unfold user_owners. split; [|split; [|split]].
  - intros o. rewrite sorted_perm. apply comprehension_elem.
  - rewrite sorted_perm. apply comprehension_NoDup.
  - apply sorted_ascending.
  - intros Hu Hnil. apply user_summary_dom in Hu as (o & data & Ho & [x Hx]).
    assert (has_entry owners o user) as He.
    { unfold has_entry. rewrite Ho. simpl. eauto. }
    apply comprehension_elem in He. rewrite <- sorted_perm in He.
    rewrite Hnil in He. by apply elem_of_nil in He.
Qed.

Lemma limit_rows_take {A B} (row : A -> B) (limitusers count : Z)
    (d : list B) (items : list A) :
  0 <= count ->
  limit_rows row limitusers count d items
  = d ++ (row <$> take (Z.to_nat (limitusers - count)) items).
Proof.
  revert count d. induction items as [|x items IH]; intros count d Hc.
  - by rewrite take_nil, fmap_nil, app_nil_r.
  - cbn [limit_rows]. destruct (Z.gtb_spec (count + 1) limitusers) as [H|H].
    + replace (Z.to_nat (limitusers - count)) with 0%nat by lia.
      by rewrite take_0, fmap_nil, app_nil_r.
    + rewrite IH by lia.
      replace (Z.to_nat (limitusers - count))
        with (S (Z.to_nat (limitusers - (count + 1)))) by lia.
      cbn [take]. rewrite fmap_cons, <- app_assoc. reflexivity.
Qed.

(** X25.  The loop over the sorted users of a report shows the first
    [limitusers] of them: none when [limitusers] is zero or negative, all
    when it is at least their number. *)
Theorem limit_rows_spec {A B} (row : A -> B) (limitusers : Z)
    (items : list A) :
  limit_rows row limitusers 0 [] items
  = row <$> take (Z.to_nat limitusers) items
  /\ (limitusers <= 0 -> limit_rows row limitusers 0 [] items = [])
  /\ (Z.of_nat (length items) <= limitusers ->
      limit_rows row limitusers 0 [] items = row <$> items).
Proof.
  rewrite (limit_rows_take row limitusers 0 [] items) by lia.
  rewrite Z.sub_0_r, app_nil_l. split; [reflexivity|]. split.
  - intros H. replace (Z.to_nat limitusers) with 0%nat by lia.
    by rewrite take_0.
  - intros H. rewrite take_ge by lia. reflexivity.
Qed.

Lemma limit_rows_spec_witness :
  limit_rows Z.succ 2 0 [] [10; 20; 30] = [11; 21].
Proof.
  exact (proj1 (limit_rows_spec Z.succ 2 [10; 20; 30])).
Defined.
